(** * UTube: a shallow embedding of [main.py]

    The extension answers a keyword query with a list of result items.
    This development embeds the text normaliser ([translate_date],
    [format_views]), the thumbnail cache ([download_and_cache]) and the
    query pipeline ([KeywordQueryEventListener.on_event]) and proves
    properties of them.

    Conventions of the embedding.
    - A Python [str] is a [string] holding the UTF-8 encoding of its
      code points: [len] counts code points, [str.strip] removes the
      white space of Unicode, and what depends on the Unicode tables
      beyond the ASCII range (case mapping, [\w], [\d]) is taken from a
      record of tables, [Unicode.tables], given with the library.
    - A value produced by [json.loads] is a [json] tree; a [dict] is an
      association list in insertion order, looked up from the left.
    - A Python exception is the [Raise] result of the [exc] type; the
      class of the exception is kept where a handler tells classes apart.
    - A binary64 value is a dyadic number [m * 2^e], an infinity or a
      NaN; [float] of a decimal numeral rounds to nearest, ties to even. *)

From Stdlib Require Import ZArith List String Ascii Bool Lia.
From Stdlib Require Import DecimalString.
Import ListNotations.

Set Warnings "-register-all".

Local Open Scope string_scope.
Local Open Scope Z_scope.

(** ** Python strings *)

Module PyStr.

Definition is_digit (c : ascii) : bool :=
  let n := nat_of_ascii c in (48 <=? n)%nat && (n <=? 57)%nat.

Definition is_upper (c : ascii) : bool :=
  let n := nat_of_ascii c in (65 <=? n)%nat && (n <=? 90)%nat.

Definition is_lower (c : ascii) : bool :=
  let n := nat_of_ascii c in (97 <=? n)%nat && (n <=? 122)%nat.

(** [\w] in the ASCII range: letters, digits and the underscore. *)
Definition is_word (c : ascii) : bool :=
  is_digit c || is_upper c || is_lower c || (nat_of_ascii c =? 95)%nat.

Definition lower_char (c : ascii) : ascii :=
  if is_upper c then ascii_of_nat (nat_of_ascii c + 32) else c.

Fixpoint map_chars (f : ascii -> ascii) (s : string) : string :=
  match s with
  | EmptyString => EmptyString
  | String c r => String (f c) (map_chars f r)
  end.

(** [s.lower()] *)
Definition lower (s : string) : string := map_chars lower_char s.

(** [s.replace(a, b)] for single characters. *)
Definition replace_char (a b : ascii) (s : string) : string :=
  map_chars (fun c => if Ascii.eqb c a then b else c) s.

(** [s.startswith(p)] *)
Fixpoint startswith (p s : string) : bool :=
  match p, s with
  | EmptyString, _ => true
  | String a p', String b s' => Ascii.eqb a b && startswith p' s'
  | String _ _, EmptyString => false
  end.

(** [sub in s] *)
Fixpoint contains (sub s : string) : bool :=
  startswith sub s ||
  match s with
  | EmptyString => false
  | String _ r => contains sub r
  end.

Fixpoint drop (n : nat) (s : string) : string :=
  match n, s with
  | O, _ => s
  | S n', String _ r => drop n' r
  | S _, EmptyString => EmptyString
  end.

(** A continuation byte of a UTF-8 sequence. *)
Definition is_cont (c : ascii) : bool :=
  let n := nat_of_ascii c in (128 <=? n)%nat && (n <=? 191)%nat.

(** [len(s)]: the number of code points. *)
Fixpoint len (s : string) : nat :=
  match s with
  | EmptyString => O
  | String c r => ((if is_cont c then 0 else 1) + len r)%nat
  end.

Fixpoint of_bytes (l : list nat) : string :=
  match l with
  | [] => EmptyString
  | n :: r => String (ascii_of_nat n) (of_bytes r)
  end.

Fixpoint rev (s : string) : string :=
  match s with
  | EmptyString => EmptyString
  | String c r => rev r ++ String c EmptyString
  end.

(** The characters for which [str.isspace] holds, which are those
    [str.strip] removes: U+0009 to U+000D, U+001C to U+0020, U+0085,
    U+00A0, U+1680, U+2000 to U+200A, U+2028, U+2029, U+202F, U+205F
    and U+3000, each as its UTF-8 sequence. *)
Definition white_space : list string :=
  map of_bytes
    [ [9]; [10]; [11]; [12]; [13]; [28]; [29]; [30]; [31]; [32];
      [194; 133]; [194; 160]; [225; 154; 128];
      [226; 128; 128]; [226; 128; 129]; [226; 128; 130]; [226; 128; 131];
      [226; 128; 132]; [226; 128; 133]; [226; 128; 134]; [226; 128; 135];
      [226; 128; 136]; [226; 128; 137]; [226; 128; 138];
      [226; 128; 168]; [226; 128; 169]; [226; 128; 175];
      [226; 129; 159]; [227; 128; 128] ]%nat.

Fixpoint lstrip_fuel (fuel : nat) (s : string) : string :=
  match fuel with
  | O => s
  | S f =>
      match find (fun ws => startswith ws s) white_space with
      | Some ws => lstrip_fuel f (drop (String.length ws) s)
      | None => s
      end
  end.

(** [s.lstrip()] *)
Definition lstrip (s : string) : string :=
  lstrip_fuel (String.length s) s.

(** The same from the end, on the reversed text. *)
Fixpoint rstrip_fuel (fuel : nat) (r : string) : string :=
  match fuel with
  | O => r
  | S f =>
      match find (fun ws => startswith (rev ws) r) white_space with
      | Some ws => rstrip_fuel f (drop (String.length ws) r)
      | None => r
      end
  end.

(** [s.rstrip()] *)
Definition rstrip (s : string) : string :=
  rev (rstrip_fuel (String.length s) (rev s)).

(** [s.strip()] *)
Definition strip (s : string) : string := rstrip (lstrip s).

(** [s.split(sep)] for a non-empty separator. [cut sep s] looks for the
    first occurrence of [sep]: the text before it and the text after it. *)
Fixpoint cut (sep s : string) : option (string * string) :=
  if startswith sep s then Some (EmptyString, drop (String.length sep) s)
  else match s with
       | EmptyString => None
       | String c r =>
           match cut sep r with
           | Some (a, b) => Some (String c a, b)
           | None => None
           end
       end.

Fixpoint split_fuel (fuel : nat) (sep s : string) : list string :=
  match fuel with
  | O => [s]
  | S f =>
      match cut sep s with
      | None => [s]
      | Some (a, b) => a :: split_fuel f sep b
      end
  end.

Definition split (sep s : string) : list string :=
  split_fuel (String.length s) sep s.

(** [str(n)] for an integer. *)
Definition of_Z (n : Z) : string := NilZero.string_of_int (Z.to_int n).

End PyStr.

(** ** Code points and the Unicode tables *)

Module Unicode.
Import PyStr.

(** What the program takes from the Unicode database beyond the ASCII
    range. A code point is given as its UTF-8 sequence.
    - [uni_lower s] is [s.lower()] for a text [s] with a non-ASCII
      character, its ASCII letters being in lower case already (the case
      of an ASCII letter changes neither the mapping of another character
      nor the context of a final sigma);
    - [uni_word c] tells whether [\w] matches the non-ASCII character [c];
    - [uni_digit c] is the value, 0 to 9, of the non-ASCII character [c]
      when [\d] matches it ([float] reads it as that digit). *)
Record tables : Type := {
  uni_lower : string -> string;
  uni_word : string -> bool;
  uni_digit : string -> option nat
}.

Definition is_ascii_char (c : ascii) : bool := (nat_of_ascii c <? 128)%nat.

Fixpoint is_ascii (s : string) : bool :=
  match s with
  | EmptyString => true
  | String c r => is_ascii_char c && is_ascii r
  end.

(** [s.lower()] *)
Definition lower (u : tables) (s : string) : string :=
  if is_ascii s then PyStr.lower s else uni_lower u (PyStr.lower s).

(** The number of bytes of the sequence that starts with the byte [c]. *)
Definition cp_len (c : ascii) : nat :=
  let n := nat_of_ascii c in
  if (n <? 192)%nat then 1%nat
  else if (n <? 224)%nat then 2%nat
  else if (n <? 240)%nat then 3%nat
  else 4%nat.

Fixpoint take (n : nat) (s : string) : string :=
  match n, s with
  | S n', String c r => String c (take n' r)
  | _, _ => EmptyString
  end.

(** The code points of a text, in order. *)
Fixpoint cps_fuel (fuel : nat) (s : string) : list string :=
  match fuel with
  | O => []
  | S f =>
      match s with
      | EmptyString => []
      | String c _ => take (cp_len c) s :: cps_fuel f (drop (cp_len c) s)
      end
  end.

Definition cps (s : string) : list string := cps_fuel (String.length s) s.

(** The text of a list of code points. *)
Fixpoint join (l : list string) : string :=
  match l with
  | [] => EmptyString
  | c :: r => c ++ join r
  end.

(** [\w] on a code point. *)
Definition is_word_cp (u : tables) (cp : string) : bool :=
  match cp with
  | String c EmptyString =>
      if is_ascii_char c then is_word c else uni_word u cp
  | _ => uni_word u cp
  end.

(** [\d] on a code point: the value of the digit. *)
Definition digit_cp (u : tables) (cp : string) : option Z :=
  match cp with
  | String c EmptyString =>
      if is_ascii_char c then
        if is_digit c then Some (Z.of_nat (nat_of_ascii c - 48)) else None
      else None
  | _ =>
      match uni_digit u cp with
      | Some d => if (d <=? 9)%nat then Some (Z.of_nat d) else None
      | None => None
      end
  end.

End Unicode.

(** ** Python values and exceptions *)

Module Py.

Inductive exn : Set :=
| AttributeError | TypeError | IndexError | KeyError | ValueError
| OverflowError | ReError | RequestException | OtherError.

Inductive exc (A : Type) : Type :=
| Ok (a : A)
| Raise (e : exn).
Arguments Ok {A} a.
Arguments Raise {A} e.

Definition bind {A B} (x : exc A) (f : A -> exc B) : exc B :=
  match x with
  | Ok a => f a
  | Raise e => Raise e
  end.

(** A binary64 value: [FFin m e] is [m * 2^e]. *)
Inductive pyfloat : Set :=
| FFin (m e : Z)
| FInf (neg : bool)
| FNaN.

(** What [json.loads] returns. *)
Inductive json : Type :=
| JNull
| JBool (b : bool)
| JInt (n : Z)
| JFloat (f : pyfloat)
| JStr (s : string)
| JArr (l : list json)
| JObj (kvs : list (string * json)).

(** Round [a / b] to the nearest integer, ties to even ([0 <= a], [0 < b]). *)
Definition rne (a b : Z) : Z :=
  let q := a / b in
  let r := a mod b in
  if 2 * r <? b then q
  else if b <? 2 * r then q + 1
  else if Z.even q then q else q + 1.

(** The binade of [n / d]: the [c] with [2^c <= n / d < 2^(c+1)]
    ([0 < n], [0 < d]). *)
Definition binade (n d : Z) : Z :=
  let c := Z.log2 n - Z.log2 d in
  if (if 0 <=? c then d * 2 ^ c <=? n else d <=? n * 2 ^ (- c))
  then c else c - 1.

(** The binary64 value nearest to [n / d] ([0 <= n], [0 < d]): 53
    significant bits, exponent at least -1074, infinity from 2^1024 on. *)
Definition round_double (n d : Z) : pyfloat :=
  if n =? 0 then FFin 0 0
  else
    let e := Z.max (binade n d - 52) (-1074) in
    if 0 <=? e then
      let m := rne n (d * 2 ^ e) in
      if 2 ^ 1024 <=? m * 2 ^ e then FInf false else FFin m e
    else FFin (rne (n * 2 ^ (- e)) d) e.

(** [int(x)] for a float: truncation towards zero. *)
Definition int_of_float (x : pyfloat) : exc Z :=
  match x with
  | FFin m e => Ok (if 0 <=? e then m * 2 ^ e else Z.quot m (2 ^ (- e)))
  | FInf _ => Raise OverflowError
  | FNaN => Raise ValueError
  end.

(** The decimal numeral of a run of digits with at most one point: the
    digits read as one integer and the number of digits after the point.
    [None] on a second point or on another character. *)
Fixpoint decimal_digits (u : Unicode.tables) (g : list string) (acc : Z)
  (dot : bool) (k : nat) : option (Z * nat) :=
  match g with
  | [] => Some (acc, k)
  | c :: r =>
      match Unicode.digit_cp u c with
      | Some d =>
          decimal_digits u r (10 * acc + d) dot (if dot then S k else k)
      | None =>
          if String.eqb c "." then
            if dot then None else decimal_digits u r acc true k
          else None
      end
  end.

(** [float(s)] for a text that starts with a digit and holds digits and
    points only, which is what the pattern of [format_views] captures;
    [g] is the list of its code points. *)
Definition float_of_numeral (u : Unicode.tables) (g : list string)
  : exc pyfloat :=
  match decimal_digits u g 0 false 0 with
  | Some (n, k) => Ok (round_double n (10 ^ Z.of_nat k))
  | None => Raise ValueError
  end.

(** Truth value of a Python object. *)
Definition truthy (v : json) : bool :=
  match v with
  | JNull => false
  | JBool b => b
  | JInt n => negb (n =? 0)
  | JFloat (FFin m _) => negb (m =? 0)
  | JFloat _ => true
  | JStr s => negb (String.eqb s "")
  | JArr l => match l with [] => false | _ => true end
  | JObj kvs => match kvs with [] => false | _ => true end
  end.

End Py.
(** ** Text normaliser: [UTube.i18n], [translate_date], [format_views] *)

Module Text.
Import PyStr Py.

(** [self.translations]: the dictionary [load_translations] returned. *)
Definition translations := string -> option string.

(** [self.i18n(key, default)] *)
Definition i18n (tr : translations) (key default : string) : string :=
  match tr key with
  | Some v => v
  | None => default
  end.

(** *** Regular expressions of the module *)

(** [re.search] for the pattern of [format_views], one digit or more and
    then any digits and points: the leftmost digit and the longest run of
    digits and points that follows it, on the code points of the text. *)
Definition is_digit_cp (u : Unicode.tables) (c : string) : bool :=
  match Unicode.digit_cp u c with
  | Some _ => true
  | None => false
  end.

Fixpoint take_numeral (u : Unicode.tables) (l : list string) : list string :=
  match l with
  | [] => []
  | c :: r =>
      if is_digit_cp u c || String.eqb c "." then c :: take_numeral u r
      else []
  end.

Fixpoint search_numeral (u : Unicode.tables) (l : list string)
  : option (list string) :=
  match l with
  | [] => None
  | c :: r =>
      if is_digit_cp u c then Some (c :: take_numeral u r)
      else search_numeral u r
  end.

(** The last byte of a text. *)
Fixpoint last (s : string) : option ascii :=
  match s with
  | EmptyString => None
  | String c EmptyString => Some c
  | String _ r => last r
  end.

Fixpoint last_cp (l : list string) : option string :=
  match l with
  | [] => None
  | [c] => Some c
  | _ :: r => last_cp r
  end.

Definition wordb (u : Unicode.tables) (c : option string) : bool :=
  match c with
  | Some c => Unicode.is_word_cp u c
  | None => false
  end.

(** [\b] between two neighbours ([None] is an end of the text). *)
Definition at_boundary (u : Unicode.tables) (prev next : option string)
  : bool :=
  xorb (wordb u prev) (wordb u next).

(** [l] begins with the code points [w]. *)
Fixpoint starts (w l : list string) : bool :=
  match w, l with
  | [], _ => true
  | a :: w', b :: l' => String.eqb a b && starts w' l'
  | _ :: _, [] => false
  end.

(** Does [\b w \b] match at the head of [l], [prev] being the character
    before it? *)
Definition matches_here (u : Unicode.tables) (w : list string)
  (prev : option string) (l : list string) : bool :=
  at_boundary u prev (hd_error l) && starts w l &&
  at_boundary u (last_cp w) (hd_error (skipn (List.length w) l)).

(** [re.sub(r'\b' + re.escape(w) + r'\b', repl, s)] for a non-empty
    word [w] of letters, on the code points of [s]: the matches are taken
    from left to right and do not overlap. [skip] counts the characters
    of the current match that are still to be passed over. *)
Fixpoint resub (u : Unicode.tables) (w : list string) (repl : string)
  (prev : option string) (skip : nat) (l : list string) : string :=
  match l with
  | [] => EmptyString
  | c :: r =>
      match skip with
      | S k => resub u w repl (Some c) k r
      | O =>
          if matches_here u w prev l
          then repl ++ resub u w repl (Some c) (List.length w - 1) r
          else c ++ resub u w repl (Some c) 0 r
      end
  end.

(** The replacement argument of [re.sub]. A string without a backslash is
    taken as it is; one with a backslash is compiled by the [re] module
    (escapes, group references) before the search starts, which can
    raise: [compile] is that function, giving the text that replaces a
    match. *)
Definition template := string -> exc (string -> string).

Definition re_sub_word (u : Unicode.tables) (compile : template)
  (w repl s : string) : exc string :=
  if contains "\" repl then
    bind (compile repl)
      (fun f => Ok (resub u (Unicode.cps w) (f w) None 0 (Unicode.cps s)))
  else Ok (resub u (Unicode.cps w) repl None 0 (Unicode.cps s)).

Definition words : list string :=
  ["ago"; "hour"; "hours"; "day"; "days"; "week"; "weeks"; "month";
   "months"; "year"; "years"; "minute"; "minutes"].

Fixpoint translate_words (u : Unicode.tables) (compile : template)
  (tr : translations) (ws : list string) (text : string) : exc string :=
  match ws with
  | [] => Ok text
  | w :: ws' =>
      bind (re_sub_word u compile w (i18n tr w w) text)
           (translate_words u compile tr ws')
  end.

(** [UTube.translate_date] *)
Definition translate_date (u : Unicode.tables) (compile : template)
  (tr : translations) (date_str : json) : exc string :=
  if negb (truthy date_str) then Ok ""
  else
    match date_str with
    | JStr d => translate_words u compile tr words (Unicode.lower u d)
    | _ => Raise AttributeError
    end.

(** The magnitude the [if]/[elif] chain of [format_views] selects. *)
Inductive magnitude : Set := Billion | Million | Thousand | Plain.

Definition classify (v : string) : magnitude :=
  if contains "bi" v || contains "b" v then Billion
  else if contains "mi" v
          || (contains "m" v && negb (contains "mil" v)
              && negb (contains "k" v))
  then Million
  else if contains "mil" v || contains "k" v then Thousand
  else Plain.

Definition format_views_body (u : Unicode.tables) (tr : translations)
  (v : json) : exc string :=
  if negb (truthy v) then Ok ""
  else
    match v with
    | JStr v0 =>
        let v := replace_char "," "." (Unicode.lower u v0) in
        match search_numeral u (Unicode.cps v) with
        | None => Ok ""
        | Some g =>
            bind (float_of_numeral u g) (fun num_float =>
            let suffix_billion := i18n tr "suffix_billion" "bi" in
            let suffix_million := i18n tr "suffix_million" "mi" in
            let suffix_thousand := i18n tr "suffix_thousand" " mil" in
            match classify v with
            | Billion =>
                bind (int_of_float num_float) (fun n =>
                Ok (of_Z n ++ " " ++ suffix_billion))
            | Million =>
                bind (int_of_float num_float) (fun n =>
                Ok (of_Z n ++ " " ++ suffix_million))
            | Thousand =>
                bind (int_of_float num_float) (fun n =>
                Ok (of_Z n ++ suffix_thousand))
            | Plain =>
                bind (int_of_float num_float) (fun n => Ok (of_Z n))
            end)
        end
    | _ => Raise AttributeError
    end.

(** [UTube.format_views]: the bare [except] turns every exception into
    the empty string. *)
Definition format_views (u : Unicode.tables) (tr : translations) (v : json)
  : string :=
  match format_views_body u tr v with
  | Ok s => s
  | Raise _ => ""
  end.

End Text.

(** ** Thumbnail cache: [UTube.download_and_cache] *)

Module Cache.
Import PyStr Py.

(** The file system and the network as the program sees them: the paths
    that exist, and the URLs requested so far (oldest first). *)
Record world : Type := {
  files : list string;
  requests : list string
}.

(** What lies outside the program: the answer to the [n]-th GET of the
    process ([r.text] or [r.content], or the exception of [session.get] or
    [raise_for_status]), whether a body decodes as an image, and whether
    a path can be written. *)
Record outside : Type := {
  http_get : nat -> string -> exc string;
  image_ok : string -> bool;
  writable : string -> bool
}.

Definition exists_ (w : world) (path : string) : bool :=
  existsb (String.eqb path) (files w).

(** [session.get(url, timeout=3.0)] followed by [raise_for_status()]. *)
Definition session_get (o : outside) (url : string) (w : world)
  : exc string * world :=
  (http_get o (List.length (requests w)) url,
   {| files := files w; requests := requests w ++ [url] |}).

(** [UTube.download_and_cache]: [None] is Python's [None]. The shape
    ([is_channel]: circle or rounded rectangle) changes the pixels of the
    file, not whether or where it is written. *)
Definition download_and_cache (o : outside) (path url : string)
  (is_channel : bool) (w : world) : option string * world :=
  if exists_ w path then (Some path, w)
  else
    match session_get o url w with
    | (Ok content, w1) =>
        if image_ok o content && writable o path
        then (Some path,
              {| files := path :: files w1; requests := requests w1 |})
        else (None, w1)
    | (Raise _, w1) => (None, w1)
    end.

(** The number of GET requests between two states of the world. *)
Definition fetches (w w' : world) : Z :=
  Z.of_nat (List.length (requests w')) - Z.of_nat (List.length (requests w)).

End Cache.

(** ** Query pipeline: [KeywordQueryEventListener.on_event] *)

Module Pipeline.
Import PyStr Py Text Cache.

Notation "x <- e ;; k" := (bind e (fun x => k))
  (at level 61, e at next level, right associativity).

(** *** Result items *)

Inductive action : Set :=
| OpenUrlAction (url : string).

(** [ExtensionResultItem] ([small = false]) and
    [ExtensionSmallResultItem] ([small = true]); [on_enter = None] is
    Python's [on_enter=None]. The name is the value handed over: a
    string, or for a video item whatever the payload holds as title or
    channel name. *)
Record item : Type := {
  small : bool;
  icon : string;
  name : json;
  description : string;
  on_enter : option action
}.

Definition ExtensionResultItem (i : string) (n : json) (d : string)
  (a : option action) : item :=
  {| small := false; icon := i; name := n; description := d; on_enter := a |}.

Definition ExtensionSmallResultItem (i : string) (n : json)
  (a : option action) : item :=
  {| small := true; icon := i; name := n; description := ""; on_enter := a |}.

(** *** The extension object and the library functions *)

(** [extension.preferences], each entry read with its default
    ([max_results] after [int]). *)
Record preferences : Set := {
  max_results : Z;
  thumb_type : string;
  search_layout : string
}.

Record extension : Type := {
  ext_translations : translations;
  ext_preferences : preferences;
  cache_dir : string
}.

(** Library functions taken as they are: the Unicode tables, the compiler
    of replacement templates of [re], [str] on floats, lists and
    dictionaries, and [json.loads]. *)
Record pylib : Type := {
  uni : Unicode.tables;
  compile_template : template;
  str_other : json -> string;
  json_loads : string -> exc json
}.

(** [str(v)], as the f-strings apply it. *)
Definition str (lib : pylib) (v : json) : string :=
  match v with
  | JStr s => s
  | JNull => "None"
  | JBool true => "True"
  | JBool false => "False"
  | JInt n => of_Z n
  | _ => str_other lib v
  end.

(** *** Dictionaries *)

Fixpoint assoc (key : string) (kvs : list (string * json)) : option json :=
  match kvs with
  | [] => None
  | (k, x) :: r => if String.eqb k key then Some x else assoc key r
  end.

(** [v.get(key, default)] *)
Definition get (v : json) (key : string) (default : json) : exc json :=
  match v with
  | JObj kvs =>
      Ok (match assoc key kvs with Some x => x | None => default end)
  | _ => Raise AttributeError
  end.

(** [v[0]] *)
Definition index0 (v : json) : exc json :=
  match v with
  | JArr (x :: _) => Ok x
  | JArr [] => Raise IndexError
  | JStr (String c _) => Ok (JStr (String c EmptyString))
  | JStr EmptyString => Raise IndexError
  | JObj _ => Raise KeyError
  | _ => Raise TypeError
  end.

Fixpoint chars (s : string) : list json :=
  match s with
  | EmptyString => []
  | String c r => JStr (String c EmptyString) :: chars r
  end.

(** The elements a [for] loop over [v] visits. *)
Definition iter (v : json) : exc (list json) :=
  match v with
  | JArr l => Ok l
  | JObj kvs => Ok (map (fun kv => JStr (fst kv)) kvs)
  | JStr s => Ok (chars s)
  | _ => Raise TypeError
  end.

(** Keys of [thumb_paths]: lists and dictionaries are unhashable; numbers
    and booleans of equal value are the same key. *)
Definition hashable (v : json) : bool :=
  match v with
  | JArr _ | JObj _ => false
  | _ => true
  end.

Definition float_eqb (x y : pyfloat) : bool :=
  match x, y with
  | FFin m e, FFin m' e' =>
      let lo := Z.min e e' in
      m * 2 ^ (e - lo) =? m' * 2 ^ (e' - lo)
  | FInf a, FInf b => Bool.eqb a b
  | FNaN, FNaN => true
  | _, _ => false
  end.

Definition as_number (v : json) : option pyfloat :=
  match v with
  | JBool b => Some (FFin (if b then 1 else 0) 0)
  | JInt n => Some (FFin n 0)
  | JFloat f => Some f
  | _ => None
  end.

Definition key_eqb (a b : json) : bool :=
  match a, b with
  | JNull, JNull => true
  | JStr s, JStr t => String.eqb s t
  | _, _ =>
      match as_number a, as_number b with
      | Some x, Some y => float_eqb x y
      | _, _ => false
      end
  end.

Definition dict : Type := list (json * string).

Fixpoint lookup (k : json) (d : dict) : option string :=
  match d with
  | [] => None
  | (k', x) :: r => if key_eqb k' k then Some x else lookup k r
  end.

Fixpoint update (k : json) (x : string) (d : dict) : dict :=
  match d with
  | [] => [(k, x)]
  | (k', y) :: r =>
      if key_eqb k' k then (k', x) :: r else (k', y) :: update k x r
  end.

(** [d[k] = x] *)
Definition dict_set (d : dict) (k : json) (x : string) : exc dict :=
  if hashable k then Ok (update k x d) else Raise TypeError.

(** [d.get(k, default)] *)
Definition dict_get (d : dict) (k : json) (default : string) : exc string :=
  if hashable k
  then Ok (match lookup k d with Some x => x | None => default end)
  else Raise TypeError.

(** [os.path.join(d, n)] for a relative [n]. *)
Definition path_join (d n : string) : string :=
  if String.eqb d "" then n
  else
    match Text.last d with
    | Some c => if Ascii.eqb c "/"%char then d ++ n else d ++ "/" ++ n
    | None => n
    end.

(** *** The worker pool *)

(** A submitted call [download_and_cache(path, url, is_channel)] and the
    video id stored under its future in [thumb_futures]. *)
Record task : Type := {
  t_path : string;
  t_url : string;
  t_is_channel : bool;
  t_vid : json
}.

(** The state of a query: the world, every task submitted so far, the
    tasks not yet run and the results of those that have run (in the
    order of completion). *)
Record state : Type := {
  st_world : world;
  submitted : list task;
  pending : list task;
  completed : list (json * option string)
}.

Definition initial (w : world) : state :=
  {| st_world := w; submitted := []; pending := []; completed := [] |}.

(** [extension.executor.submit(extension.download_and_cache, ...)] *)
Definition submit (t : task) (s : state) : state :=
  {| st_world := st_world s;
     submitted := submitted s ++ [t];
     pending := pending s ++ [t];
     completed := completed s |}.

(** The workers complete the first [n] pending tasks, each task running
    as one step. *)
Fixpoint run_tasks (o : outside) (n : nat) (s : state) : state :=
  match n with
  | O => s
  | S k =>
      match pending s with
      | [] => s
      | t :: rest =>
          let (res, w') :=
            download_and_cache o (t_path t) (t_url t) (t_is_channel t)
              (st_world s) in
          run_tasks o k
            {| st_world := w';
               submitted := submitted s;
               pending := rest;
               completed := completed s ++ [(t_vid t, res)] |}
      end
  end.

Definition icon_default : string := "images/icon.png".

(** *** Extraction of the video entries (the loop over the sections) *)

Definition len (l : list json) : Z := Z.of_nat (List.length l).

(** The inner loop: [videos] grows at its end; the loop breaks as soon as
    [len(videos) >= pref_max] after an append. *)
Fixpoint scan_items (pref_max : Z) (item_list videos : list json)
  : exc (list json) :=
  match item_list with
  | [] => Ok videos
  | it :: rest =>
      v <- get it "videoRenderer" JNull ;;
      if truthy v then
        let videos' := (videos ++ [v])%list in
        if pref_max <=? len videos' then Ok videos'
        else scan_items pref_max rest videos'
      else scan_items pref_max rest videos
  end.

(** The outer loop: the same test after every section. *)
Fixpoint scan_sections (pref_max : Z) (sections videos : list json)
  : exc (list json) :=
  match sections with
  | [] => Ok videos
  | section :: rest =>
      isr <- get section "itemSectionRenderer" (JObj []) ;;
      cl <- get isr "contents" (JArr []) ;;
      item_list <- iter cl ;;
      videos' <- scan_items pref_max item_list videos ;;
      if pref_max <=? len videos' then Ok videos'
      else scan_sections pref_max rest videos'
  end.

Definition extract_videos (pref_max : Z) (contents : json)
  : exc (list json) :=
  sections <- iter contents ;;
  scan_sections pref_max sections [].

(** [data.get('contents', {})] and the four lookups after it. *)
Definition contents_of (data : json) : exc json :=
  a <- get data "contents" (JObj []) ;;
  b <- get a "twoColumnSearchResultsRenderer" (JObj []) ;;
  c <- get b "primaryContents" (JObj []) ;;
  d <- get c "sectionListRenderer" (JObj []) ;;
  get d "contents" (JArr []).

(** *** Thumbnails (the first loop over [videos]) *)

(** [chan_id] of a video entry. *)
Definition channel_id (v v_id : json) : exc json :=
  a <- get v "longBylineText" (JObj []) ;;
  runs <- get a "runs" (JArr [JObj []]) ;;
  chan_data <- index0 runs ;;
  b <- get chan_data "navigationEndpoint" (JObj []) ;;
  c <- get b "browseEndpoint" (JObj []) ;;
  get c "browseId" v_id.

(** [img_path]: the cache key of a video entry as a file path. *)
Definition img_path_of (lib : pylib) (dir : string) (is_ch : bool)
  (chan_id v_id : json) : string :=
  path_join dir
    ((if is_ch then "c" else "v") ++ "_" ++
     str lib (if is_ch then chan_id else v_id) ++ ".png").

Definition thumb_url (is_ch : bool) (v : json) : exc json :=
  if is_ch then
    a <- get v "channelThumbnailSupportedRenderers" (JObj []) ;;
    b <- get a "channelThumbnailWithLinkRenderer" (JObj []) ;;
    c <- get b "thumbnail" (JObj []) ;;
    d <- get c "thumbnails" (JArr [JObj []]) ;;
    e <- index0 d ;;
    get e "url" JNull
  else
    a <- get v "thumbnail" (JObj []) ;;
    d <- get a "thumbnails" (JArr [JObj []]) ;;
    e <- index0 d ;;
    get e "url" JNull.

(** [if t_url.startswith('//'): t_url = 'https:' + t_url] *)
Definition absolute_url (u : string) : string :=
  if startswith "//" u then "https:" ++ u else u.

(** One iteration of the loop, from the state the workers have reached. *)
Definition thumb_step (lib : pylib) (ext : extension) (v : json)
  (thumb_paths : dict) (s : state) : exc (dict * state) :=
  let pref_thumb := thumb_type (ext_preferences ext) in
  v_id <- get v "videoId" JNull ;;
  let is_ch := String.eqb pref_thumb "channel" in
  chan_id <- channel_id v v_id ;;
  let img_path := img_path_of lib (cache_dir ext) is_ch chan_id v_id in
  if String.eqb pref_thumb "none" then
    tp <- dict_set thumb_paths v_id icon_default ;;
    Ok (tp, s)
  else if exists_ (st_world s) img_path then
    tp <- dict_set thumb_paths v_id img_path ;;
    Ok (tp, s)
  else
    t_url <- thumb_url is_ch v ;;
    if truthy t_url then
      match t_url with
      | JStr u =>
          Ok (thumb_paths,
              submit {| t_path := img_path; t_url := absolute_url u;
                        t_is_channel := is_ch; t_vid := v_id |} s)
      | _ => Raise AttributeError
      end
    else Ok (thumb_paths, s).

(** The loop. The workers run beside it: [sched] gives, for each
    iteration, the number of pending tasks that complete before the
    iteration starts (none once the list is used up). *)
Fixpoint thumb_loop (lib : pylib) (ext : extension) (o : outside)
  (sched : list nat) (videos : list json) (thumb_paths : dict) (s : state)
  : exc dict * state :=
  match videos with
  | [] => (Ok thumb_paths, s)
  | v :: rest =>
      let s1 := run_tasks o (hd O sched) s in
      match thumb_step lib ext v thumb_paths s1 with
      | Ok (tp, s2) => thumb_loop lib ext o (tl sched) rest tp s2
      | Raise e => (Raise e, s1)
      end
  end.

(** The loop over [as_completed(thumb_futures)], given the results in
    their order of completion. *)
Fixpoint collect (results : list (json * option string))
  (thumb_paths : dict) : exc dict :=
  match results with
  | [] => Ok thumb_paths
  | (v_id, res) :: rest =>
      tp <- dict_set thumb_paths v_id
              (match res with
               | Some p => if String.eqb p "" then icon_default else p
               | None => icon_default
               end) ;;
      collect rest tp
  end.

(** *** Rendering (the second loop over [videos]) *)

Definition bullet : string := " • ".
Definition newline : string := String (ascii_of_nat 10) EmptyString.

(** [v.get(field, {}).get('runs', [{}])[0].get('text', default)] *)
Definition first_run_text (v : json) (field default : string) : exc json :=
  a <- get v field (JObj []) ;;
  runs <- get a "runs" (JArr [JObj []]) ;;
  r <- index0 runs ;;
  get r "text" (JStr default).

(** [v.get(field, {}).get('simpleText', default)] *)
Definition simple_text (v : json) (field default : string) : exc json :=
  a <- get v field (JObj []) ;;
  get a "simpleText" (JStr default).

(** The items one video entry adds to [items]. *)
Definition render_video (lib : pylib) (ext : extension) (thumb_paths : dict)
  (v : json) : exc (list item) :=
  let pref_layout := search_layout (ext_preferences ext) in
  let tr := ext_translations ext in
  v_id <- get v "videoId" JNull ;;
  title <- first_run_text v "title" "No title" ;;
  chan <- first_run_text v "longBylineText" "Channel" ;;
  dur <- simple_text v "lengthText" "LIVE" ;;
  views_raw <- simple_text v "shortViewCountText" "" ;;
  let views := format_views (uni lib) tr views_raw in
  pub_raw <- simple_text v "publishedTimeText" "" ;;
  pub <- translate_date (uni lib) (compile_template lib) tr pub_raw ;;
  current_icon <- dict_get thumb_paths v_id icon_default ;;
  let link :=
    OpenUrlAction ("https://www.youtube.com/watch?v=" ++ str lib v_id) in
  let tail := if String.eqb pub "" then "" else bullet ++ pub in
  if String.eqb pref_layout "layout_classic" then
    let desc := str lib dur ++ bullet ++ str lib chan ++ tail in
    Ok [ExtensionResultItem current_icon title desc (Some link)]
  else if String.eqb pref_layout "layout_inverted" then
    let desc :=
      str lib title ++ bullet ++ str lib dur ++ newline ++ views ++ tail in
    Ok [ExtensionResultItem current_icon chan desc (Some link)]
  else if String.eqb pref_layout "layout_minimal" then
    Ok [ExtensionSmallResultItem current_icon
          (JStr (str lib chan ++ bullet ++ str lib title)) (Some link)]
  else Ok [].

Fixpoint render_loop (lib : pylib) (ext : extension) (thumb_paths : dict)
  (videos : list json) (items : list item) : exc (list item) :=
  match videos with
  | [] => Ok items
  | v :: rest =>
      new <- render_video lib ext thumb_paths v ;;
      render_loop lib ext thumb_paths rest (items ++ new)%list
  end.

(** *** [on_event] *)

Definition search_url_of (query : string) : string :=
  "https://www.youtube.com/results?search_query=" ++
  replace_char " " "+" query.

Definition prompt_item (ext : extension) : item :=
  ExtensionResultItem icon_default
    (JStr (i18n (ext_translations ext) "search_prompt"
             "Digite para pesquisar no YouTube"))
    "" None.

Definition network_error_item (ext : extension) : item :=
  ExtensionResultItem icon_default
    (JStr (i18n (ext_translations ext) "network_error" "Erro de conexão"))
    (i18n (ext_translations ext) "search_error_desc"
       "Verifique sua internet e tente novamente")
    None.

Definition fallback_item (ext : extension) (query : string) : item :=
  ExtensionResultItem icon_default
    (JStr ("'" ++ query ++ "'"))
    (i18n (ext_translations ext) "search_browser_line2"
       "Pesquisar no YouTube via navegador")
    (Some (OpenUrlAction (search_url_of query))).

Definition browser_item (ext : extension) (query : string) : item :=
  ExtensionResultItem icon_default
    (JStr ("'" ++ query ++ "'"))
    (i18n (ext_translations ext) "search_browser_line2"
       "Pesquisar no navegador")
    (Some (OpenUrlAction (search_url_of query))).

Definition internal_error_item (ext : extension) : item :=
  ExtensionResultItem icon_default
    (JStr (i18n (ext_translations ext) "search_error"
             "Ops! Algo deu errado na busca"))
    (i18n (ext_translations ext) "search_error_desc"
       "Tente novamente ou verifique sua conexão")
    None.

(** [r.text.split("var ytInitialData = ")[1].split(";</script>")[0]]
    and [json.loads] of it. *)
Definition marker_prefix : string := "var ytInitialData = ".
Definition marker_suffix : string := ";</script>".

Definition embedded_block (text : string) : exc string :=
  match split marker_prefix text with
  | _ :: after :: _ =>
      match split marker_suffix after with
      | block :: _ => Ok block
      | [] => Raise IndexError
      end
  | _ => Raise IndexError
  end.

Definition parse_page (lib : pylib) (text : string) : exc json :=
  split_data <- embedded_block text ;;
  json_loads lib split_data.

(** From [contents = ...] to [return RenderResultListAction(items)]. *)
Definition after_parse (lib : pylib) (o : outside) (sched : list nat)
  (ext : extension) (query : string) (data : json) (s : state)
  : exc (list item) * state :=
  match contents_of data with
  | Raise e => (Raise e, s)
  | Ok contents =>
      let pref_max := max_results (ext_preferences ext) in
      let items := [browser_item ext query] in
      match extract_videos pref_max contents with
      | Raise e => (Raise e, s)
      | Ok videos =>
          match thumb_loop lib ext o sched videos [] s with
          | (Raise e, s1) => (Raise e, s1)
          | (Ok thumb_paths, s1) =>
              let s2 := run_tasks o (List.length (pending s1)) s1 in
              (tp <- collect (completed s2) thumb_paths ;;
               render_loop lib ext tp videos items, s2)
          end
      end
  end.

(** The body of the outer [try]. *)
Definition try_body (lib : pylib) (o : outside) (sched : list nat)
  (ext : extension) (query : string) (w : world)
  : exc (list item) * state :=
  match session_get o (search_url_of query) w with
  | (Raise RequestException, w1) => (Ok [network_error_item ext], initial w1)
  | (Raise e, w1) => (Raise e, initial w1)
  | (Ok text, w1) =>
      match parse_page lib text with
      | Raise _ => (Ok [fallback_item ext query], initial w1)
      | Ok data => after_parse lib o sched ext query data (initial w1)
      end
  end.

(** [(event.get_argument() or "").strip()] *)
Definition query_of (argument : option string) : string :=
  strip (match argument with Some a => a | None => "" end).

(** [KeywordQueryEventListener.on_event]: the rendered list, or the
    exception that leaves the handler, and the state of the world.
    [argument] is [event.get_argument()]. *)
Definition on_event (lib : pylib) (o : outside) (sched : list nat)
  (ext : extension) (argument : option string) (w : world)
  : exc (list item) * state :=
  let query := query_of argument in
  if (PyStr.len query <? 3)%nat then (Ok [prompt_item ext], initial w)
  else
    match try_body lib o sched ext query w with
    | (Ok items, s) => (Ok items, s)
    | (Raise _, s) => (Ok [internal_error_item ext], s)
    end.

End Pipeline.

(** ** Sample inputs *)

Module Samples.
Import PyStr Py Text Cache Pipeline.

(** No translation file was found: [load_translations] returned [{}]. *)
Definition no_translations : translations := fun _ => None.

(** A translation file with three of the words of relative dates. *)
Definition sample_translations : translations :=
  fun k =>
    if String.eqb k "day" then Some "dia"
    else if String.eqb k "days" then Some "dias"
    else if String.eqb k "ago" then Some "atras"
    else None.

Definition empty_world : world := {| files := []; requests := [] |}.

(** A network on which every request fails. *)
Definition offline : outside :=
  {| http_get := fun _ _ => Raise RequestException;
     image_ok := fun _ => true;
     writable := fun _ => true |}.

(** A network that answers the first request of the process with [body]
    and every later one with image data. *)
Definition online (body : string) : outside :=
  {| http_get := fun n _ => if (n =? 0)%nat then Ok body else Ok "PNG";
     image_ok := fun _ => true;
     writable := fun _ => true |}.

Definition ext_of (m : Z) (thumb layout : string) : extension :=
  {| ext_translations := no_translations;
     ext_preferences :=
       {| max_results := m; thumb_type := thumb; search_layout := layout |};
     cache_dir := "/home/u/.cache/ulauncher-yt-speed" |}.

(** Unicode tables for runs on ASCII text, where they are not looked at. *)
Definition ascii_tables : Unicode.tables :=
  {| Unicode.uni_lower := fun s => s;
     Unicode.uni_word := fun _ => false;
     Unicode.uni_digit := fun _ => None |}.

(** Three characters beyond ASCII: the Arabic-Indic digit three, and the
    letter e with an acute accent, small and capital. *)
Definition arabic_three : string := of_bytes [217; 163]%nat.
Definition e_acute : string := of_bytes [195; 169]%nat.
Definition capital_e_acute : string := of_bytes [195; 137]%nat.

Fixpoint lower_e_acute (s : string) : string :=
  match s with
  | EmptyString => EmptyString
  | String a r =>
      match r with
      | String b r' =>
          if ((nat_of_ascii a =? 195) && (nat_of_ascii b =? 137))%nat
          then e_acute ++ lower_e_acute r'
          else String a (lower_e_acute r)
      | EmptyString => s
      end
  end.

(** Unicode tables that know these three characters. *)
Definition sample_tables : Unicode.tables :=
  {| Unicode.uni_lower := lower_e_acute;
     Unicode.uni_word :=
       fun c => String.eqb c arabic_three || String.eqb c e_acute
                || String.eqb c capital_e_acute;
     Unicode.uni_digit :=
       fun c => if String.eqb c arabic_three then Some 3%nat else None |}.

(** Library functions for a run in which nothing parses as JSON. *)
Definition lib_none : pylib :=
  {| uni := ascii_tables;
     compile_template := fun _ => Raise ReError;
     str_other := fun _ => "";
     json_loads := fun _ => Raise ValueError |}.

(** Library functions for a run in which [json.loads(text)] is [value]. *)
Definition lib_of (text : string) (value : json) : pylib :=
  {| uni := ascii_tables;
     compile_template := fun _ => Raise ReError;
     str_other := fun _ => "";
     json_loads :=
       fun s => if String.eqb s text then Ok value else Raise ValueError |}.

(** A page body without the marker suffix: the marker prefix and then,
    up to the end of the body, the JSON text of a payload with one video
    entry, [sample_page] being what [json.loads] makes of that text. *)
Definition dq : string := String (ascii_of_nat 34) EmptyString.

Definition key (k : string) : string := dq ++ k ++ dq ++ ":".

Definition sample_json_text : string :=
  "{" ++ key "contents" ++
  "{" ++ key "twoColumnSearchResultsRenderer" ++
  "{" ++ key "primaryContents" ++
  "{" ++ key "sectionListRenderer" ++
  "{" ++ key "contents" ++
  "[{" ++ key "itemSectionRenderer" ++
  "{" ++ key "contents" ++
  "[{" ++ key "videoRenderer" ++
  "{" ++ key "videoId" ++ dq ++ "abc" ++ dq ++
  "}}]}}]}}}}}".

Definition sample_page : json :=
  JObj [("contents",
    JObj [("twoColumnSearchResultsRenderer",
      JObj [("primaryContents",
        JObj [("sectionListRenderer",
          JObj [("contents",
            JArr [JObj [("itemSectionRenderer",
              JObj [("contents",
                JArr [JObj [("videoRenderer",
                  JObj [("videoId", JStr "abc")])]])])]])])])])])].

Definition body_without_suffix : string :=
  marker_prefix ++ sample_json_text.

(** A video entry (the value under [videoRenderer]) with its id, the id
    of its channel and the URL of the channel's avatar. *)
Definition video_entry (id chan url : string) : json :=
  JObj [("videoId", JStr id);
        ("longBylineText",
         JObj [("runs",
           JArr [JObj [("text", JStr "Channel name");
                       ("navigationEndpoint",
                        JObj [("browseEndpoint",
                          JObj [("browseId", JStr chan)])])]])]);
        ("channelThumbnailSupportedRenderers",
         JObj [("channelThumbnailWithLinkRenderer",
           JObj [("thumbnail",
             JObj [("thumbnails", JArr [JObj [("url", JStr url)]])])])])].

(** A page with one video entry of the channel [UC1], whose avatar has
    a protocol-relative URL: the JSON text and what [json.loads] makes of
    it. *)
Definition avatar_json_text : string :=
  "{" ++ key "contents" ++
  "{" ++ key "twoColumnSearchResultsRenderer" ++
  "{" ++ key "primaryContents" ++
  "{" ++ key "sectionListRenderer" ++
  "{" ++ key "contents" ++
  "[{" ++ key "itemSectionRenderer" ++
  "{" ++ key "contents" ++
  "[{" ++ key "videoRenderer" ++
  "{" ++ key "videoId" ++ dq ++ "abc" ++ dq ++ "," ++
  key "longBylineText" ++ "{" ++ key "runs" ++
  "[{" ++ key "text" ++ dq ++ "Channel name" ++ dq ++ "," ++
  key "navigationEndpoint" ++ "{" ++ key "browseEndpoint" ++
  "{" ++ key "browseId" ++ dq ++ "UC1" ++ dq ++ "}}}]}," ++
  key "channelThumbnailSupportedRenderers" ++
  "{" ++ key "channelThumbnailWithLinkRenderer" ++
  "{" ++ key "thumbnail" ++ "{" ++ key "thumbnails" ++
  "[{" ++ key "url" ++ dq ++ "//yt3.ggpht.com/a.jpg" ++ dq ++ "}]}}}" ++
  "}}]}}]}}}}}".

Definition avatar_page : json :=
  JObj [("contents",
    JObj [("twoColumnSearchResultsRenderer",
      JObj [("primaryContents",
        JObj [("sectionListRenderer",
          JObj [("contents",
            JArr [JObj [("itemSectionRenderer",
              JObj [("contents",
                JArr [JObj [("videoRenderer",
                  video_entry "abc" "UC1"
                    "//yt3.ggpht.com/a.jpg")]])])]])])])])])].

Definition avatar_body : string :=
  "<script>" ++ marker_prefix ++ avatar_json_text ++ marker_suffix.

(** A payload with twenty matching entries, numbered 1 to 20, in two
    sections (three and then seventeen), an item that is not a video
    before each of them, and the list of its entries in document order. *)
Definition numbered (i : nat) : json :=
  JObj [("videoId", JStr (of_Z (Z.of_nat i)))].

Definition items_of (ids : list nat) : list json :=
  flat_map (fun i => [JObj [("shelfRenderer", JObj [])];
                      JObj [("videoRenderer", numbered i)]]) ids.

Definition section_of (ids : list nat) : json :=
  JObj [("itemSectionRenderer", JObj [("contents", JArr (items_of ids))])].

Definition twenty_contents : json :=
  JArr [section_of (seq 1 3); section_of (seq 4 17)].

Definition twenty_entries : list json := map numbered (seq 1 20).

End Samples.

(** ** Notions used in the statements *)

Module Spec.
Import PyStr Py Text Cache Pipeline.

(** Every entry of [thumb_paths] is the default icon. *)
Definition all_default (d : dict) : Prop :=
  Forall (fun kv => snd kv = icon_default) d.

(** Two resolutions of the same key, one after the other: both results
    and the world after the second. *)
Definition resolve_twice (o : outside) (path url : string) (is_ch : bool)
  (w : world) : (option string * option string) * world :=
  let (r1, w1) := download_and_cache o path url is_ch w in
  let (r2, w2) := download_and_cache o path url is_ch w1 in
  ((r1, r2), w2).

(** The matching video entries of a payload, all of them, in document
    order: the values under [videoRenderer] that count as true, section
    by section and item by item. Defined for a payload every section and
    item of which is a dictionary. *)
Fixpoint matching_items (item_list : list json) : exc (list json) :=
  match item_list with
  | [] => Ok []
  | it :: rest =>
      v <- get it "videoRenderer" JNull ;;
      ms <- matching_items rest ;;
      Ok (if truthy v then v :: ms else ms)
  end.

Fixpoint matching_sections (sections : list json) : exc (list json) :=
  match sections with
  | [] => Ok []
  | section :: rest =>
      isr <- get section "itemSectionRenderer" (JObj []) ;;
      cl <- get isr "contents" (JArr []) ;;
      item_list <- iter cl ;;
      here <- matching_items item_list ;;
      later <- matching_sections rest ;;
      Ok (here ++ later)%list
  end.

Definition all_matching (contents : json) : exc (list json) :=
  sections <- iter contents ;;
  matching_sections sections.

(** The matching entries a payload holds, a section that is not of the
    expected form counted as holding none. *)
Definition section_matching (section : json) : exc (list json) :=
  isr <- get section "itemSectionRenderer" (JObj []) ;;
  cl <- get isr "contents" (JArr []) ;;
  item_list <- iter cl ;;
  matching_items item_list.

Definition section_entries (section : json) : list json :=
  match section_matching section with
  | Ok here => here
  | Raise _ => []
  end.

Definition entries_of (contents : json) : list json :=
  match contents with
  | JArr sections => flat_map section_entries sections
  | _ => []
  end.

(** A video entry the first loop gets through: a dictionary whose
    [videoId] can be a key of [thumb_paths] and whose channel data can be
    read. *)
Definition well_formed_entry (v : json) : Prop :=
  exists v_id chan_id,
    get v "videoId" JNull = Ok v_id /\ hashable v_id = true /\
    channel_id v v_id = Ok chan_id.

(** The text before the first occurrence of [sep], the whole text when
    there is none. *)
Definition before (sep s : string) : string :=
  match cut sep s with
  | Some (a, _) => a
  | None => s
  end.

(** The block of embedded data of a page: of the text that follows the
    first marker prefix, the part before the next prefix and, of that,
    the part before the first marker suffix. *)
Definition block_of (text : string) : option string :=
  match cut marker_prefix text with
  | Some (_, rest) => Some (before marker_suffix (before marker_prefix rest))
  | None => None
  end.

(** The words of a text: its code points grouped into maximal runs of
    characters that [\w] matches ([true]) and of others ([false]). *)
Fixpoint runs (u : Unicode.tables) (l : list string)
  : list (bool * list string) :=
  match l with
  | [] => []
  | c :: r =>
      let b := Unicode.is_word_cp u c in
      match runs u r with
      | (b', t) :: ts =>
          if Bool.eqb b' b then (b, c :: t) :: ts
          else (b, [c]) :: (b', t) :: ts
      | [] => [(b, [c])]
      end
  end.

Fixpoint cps_eqb (a b : list string) : bool :=
  match a, b with
  | [], [] => true
  | x :: a', y :: b' => String.eqb x y && cps_eqb a' b'
  | _, _ => false
  end.

(** A run after the replacement of the word [w]: [repl] when the run is
    a word and is [w], the run itself otherwise. *)
Definition replace_run (w : list string) (repl : string)
  (run : bool * list string) : string :=
  if fst run && cps_eqb (snd run) w then repl else Unicode.join (snd run).

(** The text with every whole word [w] replaced by [repl]. *)
Definition replace_words (u : Unicode.tables) (w : list string)
  (repl : string) (l : list string) : string :=
  Unicode.join (map (replace_run w repl) (runs u l)).

(** What replaces a match of the word [w]: its translation, passed
    through the template compiler when it holds a backslash. *)
Definition replacement (compile : template) (tr : translations)
  (w : string) : exc string :=
  if contains "\" (i18n tr w w)
  then bind (compile (i18n tr w w)) (fun f => Ok (f w))
  else Ok (i18n tr w w).

(** The whole words of the vocabulary replaced one word after the other,
    each pass on the text the pass before has left. *)
Fixpoint translate_by_words (u : Unicode.tables) (compile : template)
  (tr : translations) (ws : list string) (text : string) : exc string :=
  match ws with
  | [] => Ok text
  | w :: ws' =>
      bind (replacement compile tr w) (fun repl =>
      translate_by_words u compile tr ws'
        (replace_words u (Unicode.cps w) repl (Unicode.cps text)))
  end.

(** No word of the text is a word of the vocabulary. *)
Definition no_vocabulary_word (u : Unicode.tables) (text : string) : Prop :=
  forall w run,
    In w words -> In run (runs u (Unicode.cps text)) ->
    fst run && cps_eqb (snd run) (Unicode.cps w) = false.

(** The same for a text that follows a character [\w] matches
    ([after_word = true]) or not: a first run that goes on from a word
    character is no whole word. *)
Definition replace_words_after (u : Unicode.tables) (w : list string)
  (repl : string) (after_word : bool) (l : list string) : string :=
  match runs u l with
  | [] => EmptyString
  | (b, t) :: ts =>
      (if b && negb after_word && cps_eqb t w then repl
       else Unicode.join t)
      ++ Unicode.join (map (replace_run w repl) ts)
  end.

(** Runs as [runs] builds them: none is empty, the characters of a run
    are all word characters or all others, as its flag says, and
    neighbours have different flags. *)
Fixpoint runs_ok (u : Unicode.tables) (rs : list (bool * list string))
  : Prop :=
  match rs with
  | [] => True
  | (b, t) :: ts =>
      t <> [] /\
      Forall (fun c => Unicode.is_word_cp u c = b) t /\
      match ts with
      | [] => True
      | (b', _) :: _ => b' = negb b
      end /\
      runs_ok u ts
  end.

(** Every translation of a vocabulary word is accepted by [re.sub] as a
    replacement: it has no backslash, or [re] compiles it. *)
Definition valid_replacements (compile : template) (tr : translations)
  : Prop :=
  forall w, In w words ->
    contains "\" (i18n tr w w) = true ->
    exists f, compile (i18n tr w w) = Ok f.

(** The text [format_views] works on: lower case, commas turned into
    points. *)
Definition working (u : Unicode.tables) (v : string) : string :=
  replace_char "," "." (Unicode.lower u v).

(** The result of [format_views] for the magnitude [m] and the integer
    [n]: what the four [return] statements build. *)
Definition suffixed (tr : translations) (m : magnitude) (n : Z) : string :=
  match m with
  | Billion => of_Z n ++ " " ++ i18n tr "suffix_billion" "bi"
  | Million => of_Z n ++ " " ++ i18n tr "suffix_million" "mi"
  | Thousand => of_Z n ++ i18n tr "suffix_thousand" " mil"
  | Plain => of_Z n
  end.

End Spec.

(** ** Start-up: [UTube.cleanup_cache] and [UTube.load_translations] *)

Module Startup.
Import PyStr Py Text.

(** [s.endswith(suffix)] *)
Definition endswith (suffix s : string) : bool :=
  (String.length suffix <=? String.length s)%nat &&
  String.eqb (drop (String.length s - String.length suffix) s) suffix.

(** An entry of the cache directory: its name and its modification time
    ([os.path.getmtime], of which only the order matters). A directory is
    the list [os.listdir] returns; its names are distinct. *)
Record entry : Set := {
  e_name : string;
  e_mtime : Z
}.

Definition directory : Set := list entry.

(** [files.sort(key=os.path.getmtime)]: the sort is stable. *)
Fixpoint insert_by_mtime (x : entry) (l : list entry) : list entry :=
  match l with
  | [] => [x]
  | y :: r =>
      if e_mtime y <? e_mtime x then y :: insert_by_mtime x r
      else x :: y :: r
  end.

Fixpoint sort_by_mtime (l : list entry) : list entry :=
  match l with
  | [] => []
  | x :: r => insert_by_mtime x (sort_by_mtime r)
  end.

(** [l[:stop]] *)
Definition slice_to {A : Type} (stop : Z) (l : list A) : list A :=
  if stop <? 0 then firstn (Z.to_nat (Z.of_nat (List.length l) + stop)) l
  else firstn (Z.to_nat stop) l.

(** [os.remove] of the entry called [name]. *)
Definition remove_name (name : string) (dir : directory) : directory :=
  filter (fun e => negb (String.eqb (e_name e) name)) dir.

(** The loop [for f in files[:-max_files]: os.remove(f)]. [can_remove]
    tells for which names [os.remove] succeeds; at the first name for
    which it raises the loop is left for the handler, which logs the
    error. *)
Fixpoint remove_all (can_remove : string -> bool) (fs : list entry)
  (dir : directory) : directory :=
  match fs with
  | [] => dir
  | f :: r =>
      if can_remove (e_name f)
      then remove_all can_remove r (remove_name (e_name f) dir)
      else dir
  end.

Definition is_png (e : entry) : bool := endswith ".png" (e_name e).

(** [UTube.cleanup_cache]: the directory it leaves. The paths are the
    names joined to [cache_dir], one to one. *)
Definition cleanup_cache (can_remove : string -> bool) (max_files : Z)
  (dir : directory) : directory :=
  let files := filter is_png dir in
  if max_files <? Z.of_nat (List.length files) then
    remove_all can_remove (slice_to (- max_files) (sort_by_mtime files)) dir
  else dir.

(** [os.path.join(a, b)] *)
Definition os_path_join (a b : string) : string :=
  if startswith "/" b then b
  else if String.eqb a "" || endswith "/" a then a ++ b
  else a ++ "/" ++ b.

(** The language code: [sys_lang] is the first component of
    [locale.getdefaultlocale()] ([None] when the locale is unknown), or
    the exception the call raised. *)
Definition lang_code_of (sys_lang : exc (option string)) : string :=
  match sys_lang with
  | Ok (Some l) =>
      if String.eqb l "" then "en" else lower (hd "" (split "_" l))
  | Ok None => "en"
  | Raise _ => "en"
  end.

(** The files of the translations directory: [os.path.exists], and
    [open] with reading, which can raise. *)
Record text_files : Type := {
  path_exists : string -> bool;
  read_text : string -> exc string
}.

(** [UTube.load_translations]; [base_path] is the [translations]
    directory beside the module, [loads] is [json.loads]. The result is
    the dictionary read, [{}] on any exception. *)
Definition load_translations (loads : string -> exc json) (tf : text_files)
  (sys_lang : exc (option string)) (base_path : string) : json :=
  let lang_code := lang_code_of sys_lang in
  let lang_file := os_path_join base_path (lang_code ++ ".json") in
  let fallback_file := os_path_join base_path "en.json" in
  let target := if path_exists tf lang_file then lang_file
                else fallback_file in
  match bind (read_text tf target) loads with
  | Ok translations => translations
  | Raise _ => JObj []
  end.

End Startup.

(** ** Notions used in the further statements *)

Module Notions.
Import PyStr Py Text Cache Pipeline.

(** The pool of a query started in the world [w]: files of [w] are still
    there, every task submitted is for a path that did not exist in [w]
    and has an absolute URL, and every task submitted has completed or is
    pending. *)
Definition pool_ok (w : world) (s : state) : Prop :=
  (forall q, exists_ w q = true -> exists_ (st_world s) q = true) /\
  (forall t, In t (submitted s) ->
             exists_ w (t_path t) = false /\
             startswith "//" (t_url t) = false) /\
  (List.length (completed s) + List.length (pending s)
   = List.length (submitted s))%nat.

(** The code points hold a digit. *)
Fixpoint has_digit (u : Unicode.tables) (l : list string) : bool :=
  match l with
  | [] => false
  | c :: r => is_digit_cp u c || has_digit u r
  end.

(** The number of points among the code points. *)
Fixpoint points (l : list string) : nat :=
  match l with
  | [] => O
  | c :: r => ((if String.eqb c "." then 1 else 0) + points r)%nat
  end.

(** [a] was modified no later than [b]. *)
Definition older (a b : Startup.entry) : Prop :=
  Startup.e_mtime a <= Startup.e_mtime b.

(** The entry is not among the names of [removed]. *)
Definition kept_from (removed : list Startup.entry) (e : Startup.entry)
  : bool :=
  negb (existsb (String.eqb (Startup.e_name e))
          (map Startup.e_name removed)).

(** The number of [.png] entries of a directory. *)
Definition png_count (dir : Startup.directory) : Z :=
  Z.of_nat (List.length (filter Startup.is_png dir)).

(** The item opens the page of a video. *)
Definition opens_video (it : item) : Prop :=
  exists id,
    on_enter it
    = Some (OpenUrlAction ("https://www.youtube.com/watch?v=" ++ id)).

(** An icon that can be shown in the world [w]: the default icon, or a
    file that exists. *)
Definition icon_ok (w : world) (p : string) : Prop :=
  p = icon_default \/ exists_ w p = true.

(** Every path in [thumb_paths] can be shown, and every path a worker
    has returned exists. *)
Definition icons_inv (s : state) (tp : dict) : Prop :=
  Forall (fun kv => icon_ok (st_world s) (snd kv)) tp /\
  Forall (fun r => match snd r with
                   | Some p => exists_ (st_world s) p = true
                   | None => True
                   end) (completed s).

(** A page whose payload has two video entries, the second with an empty
    [runs] list under [longBylineText]: the JSON text, the value
    [json.loads] makes of it, and the body around the text. *)
Definition spoilt_json_text : string :=
  "{" ++ Samples.key "contents" ++
  "{" ++ Samples.key "twoColumnSearchResultsRenderer" ++
  "{" ++ Samples.key "primaryContents" ++
  "{" ++ Samples.key "sectionListRenderer" ++
  "{" ++ Samples.key "contents" ++
  "[{" ++ Samples.key "itemSectionRenderer" ++
  "{" ++ Samples.key "contents" ++
  "[{" ++ Samples.key "videoRenderer" ++
  "{" ++ Samples.key "videoId" ++ Samples.dq ++ "abc" ++ Samples.dq ++ "}}," ++
  "{" ++ Samples.key "videoRenderer" ++
  "{" ++ Samples.key "videoId" ++ Samples.dq ++ "xyz" ++ Samples.dq ++ "," ++
  Samples.key "longBylineText" ++ "{" ++ Samples.key "runs" ++ "[]}}}" ++
  "]}}]}}}}}".

Definition spoilt_entry : json :=
  JObj [("videoId", JStr "xyz");
        ("longBylineText", JObj [("runs", JArr [])])].

Definition spoilt_contents : json :=
  JArr [JObj [("itemSectionRenderer",
    JObj [("contents",
      JArr [JObj [("videoRenderer", JObj [("videoId", JStr "abc")])];
            JObj [("videoRenderer", spoilt_entry)]])])]].

Definition spoilt_page : json :=
  JObj [("contents",
    JObj [("twoColumnSearchResultsRenderer",
      JObj [("primaryContents",
        JObj [("sectionListRenderer",
          JObj [("contents", spoilt_contents)])])])])].

Definition spoilt_body : string :=
  "<script>" ++ marker_prefix ++ spoilt_json_text ++ marker_suffix.

(** A cache directory with four thumbnails and another file. *)
Definition sample_dir : Startup.directory :=
  [ {| Startup.e_name := "c_UC1.png"; Startup.e_mtime := 5 |};
    {| Startup.e_name := "notes.txt"; Startup.e_mtime := 1 |};
    {| Startup.e_name := "v_abc.png"; Startup.e_mtime := 3 |};
    {| Startup.e_name := "c_UC2.png"; Startup.e_mtime := 9 |};
    {| Startup.e_name := "v_xyz.png"; Startup.e_mtime := 3 |} ].

(** Every [os.remove] succeeds. *)
Definition all_removable : string -> bool := fun _ => true.

End Notions.

(** * Properties *)

Import PyStr Py Text Cache Pipeline Samples Spec.

(** ** The query pipeline *)

(** C5. A query whose trimmed length is below 3 is answered with the
    prompt record alone: no request is sent and no thumbnail task is
    submitted. The length is the number of characters of the query once
    the white space at its ends (of any script) is taken off. *)
Theorem short_query_prompt lib o sched ext argument w :
  (PyStr.len (query_of argument) < 3)%nat ->
  exists s,
    on_event lib o sched ext argument w = (Ok [prompt_item ext], s) /\
    requests (st_world s) = requests w /\ submitted s = [].
Proof.
  intros H. unfold on_event.
  apply Nat.ltb_lt in H. rewrite H.
  exists (initial w). repeat split.
Qed.

Lemma short_query_prompt_witness :
  (exists s,
     on_event lib_none offline [] (ext_of 7 "channel" "layout_inverted")
       (Some " ab ") empty_world
     = (Ok [prompt_item (ext_of 7 "channel" "layout_inverted")], s) /\
     requests (st_world s) = requests empty_world /\ submitted s = []) /\
  (exists s,
     on_event lib_none offline [] (ext_of 7 "channel" "layout_inverted")
       (Some (of_bytes [227; 128; 128]%nat ++ e_acute ++ e_acute ++
              of_bytes [194; 160]%nat)) empty_world
     = (Ok [prompt_item (ext_of 7 "channel" "layout_inverted")], s) /\
     requests (st_world s) = requests empty_world /\ submitted s = []).
Proof.
  split; apply short_query_prompt; vm_compute; lia.
Defined.

Lemma render_loop_keeps lib ext tp videos :
  forall items res,
    render_loop lib ext tp videos items = Ok res ->
    exists more, res = (items ++ more)%list.
Proof.
  induction videos as [|v rest IH]; simpl; intros items res H.
  - inversion H; subst. exists []. now rewrite app_nil_r.
  - destruct (render_video lib ext tp v) as [new|e]; simpl in H; [|discriminate].
    destruct (IH _ _ H) as [more ->].
    exists (new ++ more)%list. now rewrite app_assoc.
Qed.

Lemma after_parse_nonempty lib o sched ext query data s items s' :
  after_parse lib o sched ext query data s = (Ok items, s') ->
  exists more, items = browser_item ext query :: more.
Proof.
  unfold after_parse. intros H.
  destruct (contents_of data) as [contents|e]; [|discriminate].
  destruct (extract_videos _ contents) as [videos|e]; [|discriminate].
  destruct (thumb_loop lib ext o sched videos [] s) as [[tp|e] s1]; [|discriminate].
  inversion H as [[H1 H2]]; clear H.
  destruct (collect _ tp) as [tp'|e]; simpl in H1; [|discriminate].
  apply render_loop_keeps in H1. destruct H1 as [more ->]. now exists more.
Qed.

(** C1. For a query of three characters or more [on_event] returns a
    list, never an exception, and the list holds at least one item:
    this on every path (request failure, extraction failure, no video
    entry, any exception raised inside the [try]). It is stated for every
    query of three bytes or more, which every query of three characters
    or more is. *)
Theorem on_event_never_empty lib o sched ext argument w :
  (3 <= String.length (query_of argument))%nat ->
  exists items s,
    on_event lib o sched ext argument w = (Ok items, s) /\ items <> [].
Proof.
  intros _. unfold on_event.
  destruct (PyStr.len (query_of argument) <? 3)%nat.
  { exists [prompt_item ext], (initial w). split; [reflexivity|discriminate]. }
  destruct (try_body lib o sched ext (query_of argument) w) as [[items|e] s] eqn:E.
  2:{ exists [internal_error_item ext], s. split; [reflexivity|discriminate]. }
  exists items, s. split; [reflexivity|].
  unfold try_body in E.
  destruct (session_get o _ w) as [[text|e] w1].
  - destruct (parse_page lib text) as [data|e].
    + apply after_parse_nonempty in E. destruct E as [more ->]. discriminate.
    + inversion E; subst. discriminate.
  - destruct e; inversion E; subst; discriminate.
Qed.

Lemma on_event_never_empty_witness :
  exists items s,
    on_event lib_none offline [] (ext_of 7 "channel" "layout_inverted")
      (Some "cats") empty_world = (Ok items, s) /\ items <> [].
Proof.
  apply on_event_never_empty. vm_compute. lia.
Defined.

(** *** Thumbnail mode [none] *)

Lemma run_tasks_idle o n s : pending s = [] -> run_tasks o n s = s.
Proof. intros H. destruct n; simpl; [reflexivity|]. now rewrite H. Qed.

Lemma thumb_step_none lib ext v tp s tp' s' :
  thumb_type (ext_preferences ext) = "none" ->
  thumb_step lib ext v tp s = Ok (tp', s') ->
  s' = s /\
  exists v_id, get v "videoId" JNull = Ok v_id /\ hashable v_id = true /\
               tp' = update v_id icon_default tp.
Proof.
  intros Hn H. unfold thumb_step in H. rewrite Hn in H.
  destruct (get v "videoId" JNull) as [v_id|e]; simpl in H; [|discriminate].
  destruct (channel_id v v_id) as [c|e]; simpl in H; [|discriminate].
  unfold dict_set in H.
  destruct (hashable v_id) eqn:Hh; simpl in H; [|discriminate].
  inversion H; subst. split; [reflexivity|]. now exists v_id.
Qed.

Lemma update_all_default k d :
  all_default d -> all_default (update k icon_default d).
Proof.
  induction 1 as [|[k' y] r Hy Hr IH]; simpl.
  - repeat constructor.
  - destruct (key_eqb k' k); constructor; auto.
Qed.

Lemma lookup_all_default k d x :
  all_default d -> lookup k d = Some x -> x = icon_default.
Proof.
  induction 1 as [|[k' y] r Hy Hr IH]; simpl; [discriminate|].
  destruct (key_eqb k' k); auto.
  intros E; inversion E; subst; exact Hy.
Qed.

Lemma float_eqb_refl x : float_eqb x x = true.
Proof.
  destruct x as [m e|b|]; simpl; auto.
  - apply Z.eqb_refl.
  - now destruct b.
Qed.

Lemma key_eqb_refl k : hashable k = true -> key_eqb k k = true.
Proof.
  destruct k as [|b|n|f|t|l|kvs]; intros H; try discriminate.
  - reflexivity.
  - apply (float_eqb_refl (FFin (if b then 1 else 0) 0)).
  - apply (float_eqb_refl (FFin n 0)).
  - apply (float_eqb_refl f).
  - apply String.eqb_refl.
Qed.

Lemma lookup_update_same k x d :
  hashable k = true -> exists y, lookup k (update k x d) = Some y.
Proof.
  intros Hk. induction d as [|[k' y] r IH]; simpl.
  - rewrite key_eqb_refl by assumption. eauto.
  - destruct (key_eqb k' k) eqn:E; simpl; rewrite E; eauto.
Qed.

Lemma lookup_update_keeps k k2 x d y :
  lookup k d = Some y -> exists z, lookup k (update k2 x d) = Some z.
Proof.
  induction d as [|[k' y'] r IH]; simpl; [discriminate|].
  destruct (key_eqb k' k2) eqn:E2; simpl; destruct (key_eqb k' k); eauto.
Qed.

Lemma thumb_loop_none lib ext o videos :
  thumb_type (ext_preferences ext) = "none" ->
  forall sched tp s r s',
    pending s = [] -> all_default tp ->
    thumb_loop lib ext o sched videos tp s = (r, s') ->
    s' = s /\
    forall tp', r = Ok tp' ->
      all_default tp' /\
      (forall k y, lookup k tp = Some y -> exists z, lookup k tp' = Some z) /\
      (forall v v_id, In v videos -> get v "videoId" JNull = Ok v_id ->
                      lookup v_id tp' = Some icon_default).
Proof.
  intros Hn. induction videos as [|v rest IH]; simpl; intros sched tp s r s' Hp Hd H.
  - inversion H; subst. split; [reflexivity|].
    intros tp' E; inversion E; subst. repeat split; eauto. intros ? ? [].
  - rewrite run_tasks_idle in H by assumption.
    destruct (thumb_step lib ext v tp s) as [[tp1 s1]|e] eqn:E1.
    2:{ inversion H; subst. split; [reflexivity|]. discriminate. }
    destruct (thumb_step_none _ _ _ _ _ _ _ Hn E1) as [-> (v_id & Hid & Hh & ->)].
    destruct (IH _ _ _ _ _ Hp (update_all_default v_id _ Hd) H) as [-> K].
    split; [reflexivity|].
    intros tp' E. destruct (K _ E) as (A & B & C).
    split; [exact A|]. split.
    + intros k y Hk. destruct (lookup_update_keeps k v_id icon_default _ _ Hk) as [z Hz].
      eauto.
    + intros v' id' [<-|Hin] Hg.
      * rewrite Hid in Hg. inversion Hg; subst id'.
        destruct (lookup_update_same v_id icon_default tp Hh) as [y Hy].
        destruct (B _ _ Hy) as [z Hz].
        rewrite Hz. f_equal. eapply lookup_all_default; eauto.
      * eauto.
Qed.

Lemma render_video_icons lib ext tp v new :
  all_default tp -> render_video lib ext tp v = Ok new ->
  Forall (fun it => icon it = icon_default) new.
Proof.
  intros Hd H. unfold render_video in H.
  destruct (get v "videoId" JNull) as [v_id|]; simpl in H; [|discriminate].
  destruct (first_run_text v "title" "No title") as [title|]; simpl in H;
    [|discriminate].
  destruct (first_run_text v "longBylineText" "Channel") as [chan|];
    simpl in H; [|discriminate].
  destruct (simple_text v "lengthText" "LIVE") as [dur|]; simpl in H;
    [|discriminate].
  destruct (simple_text v "shortViewCountText" "") as [views_raw|];
    simpl in H; [|discriminate].
  destruct (simple_text v "publishedTimeText" "") as [pub_raw|]; simpl in H;
    [|discriminate].
  destruct (translate_date _ _ _ pub_raw) as [pub|]; simpl in H; [|discriminate].
  destruct (dict_get tp v_id icon_default) as [current_icon|] eqn:Hg;
    simpl in H; [|discriminate].
  assert (current_icon = icon_default) as ->.
  { unfold dict_get in Hg.
    destruct (hashable v_id); [|discriminate].
    injection Hg as Hg.
    destruct (lookup v_id tp) eqn:L; [|now symmetry].
    subst. eapply lookup_all_default; eauto. }
  repeat match type of H with
  | (if ?c then _ else _) = _ => destruct c
  end; inversion H; subst; repeat constructor.
Qed.

Lemma render_loop_icons lib ext tp videos :
  all_default tp ->
  forall items res,
    Forall (fun it => icon it = icon_default) items ->
    render_loop lib ext tp videos items = Ok res ->
    Forall (fun it => icon it = icon_default) res.
Proof.
  intros Hd. induction videos as [|v rest IH]; simpl; intros items res Hi H.
  - now inversion H; subst.
  - destruct (render_video lib ext tp v) as [new|e] eqn:E; simpl in H; [|discriminate].
    eapply IH; [|exact H]. apply Forall_app. split; [exact Hi|].
    eapply render_video_icons; eauto.
Qed.

Lemma after_parse_none lib o sched ext query data s r s' :
  thumb_type (ext_preferences ext) = "none" ->
  pending s = [] -> completed s = [] ->
  after_parse lib o sched ext query data s = (r, s') ->
  s' = s /\
  forall items, r = Ok items -> Forall (fun it => icon it = icon_default) items.
Proof.
  intros Hn Hp Hc H. unfold after_parse in H.
  destruct (contents_of data) as [contents|e].
  2:{ inversion H; subst. split; [reflexivity|discriminate]. }
  destruct (extract_videos _ contents) as [videos|e].
  2:{ inversion H; subst. split; [reflexivity|discriminate]. }
  destruct (thumb_loop lib ext o sched videos [] s) as [r1 s1] eqn:E.
  destruct (thumb_loop_none lib ext o videos Hn _ _ _ _ _ Hp (Forall_nil _) E)
    as [-> K].
  destruct r1 as [tp|e].
  2:{ inversion H; subst. split; [reflexivity|discriminate]. }
  rewrite run_tasks_idle in H by assumption.
  rewrite Hc in H. simpl in H. inversion H; subst. split; [reflexivity|].
  intros items Hr. destruct (K _ eq_refl) as (A & _).
  eapply render_loop_icons; [exact A| |exact Hr].
  repeat constructor.
Qed.

Lemma thumb_step_none_returns lib ext v tp s :
  thumb_type (ext_preferences ext) = "none" ->
  well_formed_entry v ->
  exists v_id,
    get v "videoId" JNull = Ok v_id /\
    thumb_step lib ext v tp s = Ok (update v_id icon_default tp, s).
Proof.
  intros Hn (v_id & c & Hid & Hh & Hc). exists v_id. split; [exact Hid|].
  unfold thumb_step. rewrite Hn, Hid. cbn [bind]. rewrite Hc. cbn [bind].
  unfold dict_set. rewrite Hh. reflexivity.
Qed.

Lemma thumb_loop_none_returns lib ext o videos :
  thumb_type (ext_preferences ext) = "none" ->
  Forall well_formed_entry videos ->
  forall sched tp s,
    pending s = [] ->
    exists tp', thumb_loop lib ext o sched videos tp s = (Ok tp', s).
Proof.
  intros Hn Hw. induction Hw as [|v rest Hv _ IH]; intros sched tp s Hp.
  - now exists tp.
  - cbn [thumb_loop]. rewrite run_tasks_idle by assumption.
    destruct (thumb_step_none_returns lib ext v tp s Hn Hv) as (v_id & _ & ->).
    apply IH. exact Hp.
Qed.

(** C10, as stated, fails: an entry whose channel data cannot be read
    (here its list of runs is empty) stops the first loop before the
    assignment, in mode [none] too; the entry gets no icon. *)
Lemma none_mode_entry_without_icon :
  ~ (forall lib ext o sched videos s,
       thumb_type (ext_preferences ext) = "none" ->
       pending s = [] ->
       exists tp,
         fst (thumb_loop lib ext o sched videos [] s) = Ok tp /\
         forall v v_id, In v videos -> get v "videoId" JNull = Ok v_id ->
                        lookup v_id tp = Some icon_default).
Proof.
  intros H.
  destruct (H lib_none (ext_of 7 "none" "layout_inverted") offline []
              [Notions.spoilt_entry] (initial empty_world)
              eq_refl eq_refl) as (tp & E & _).
  vm_compute in E. discriminate.
Qed.

(** C10, amended. With thumbnail mode [none] the first loop submits
    nothing and leaves the pool as it was, whatever files exist; when
    every extracted entry is well formed (a dictionary with a hashable
    [videoId] and readable channel data) the loop returns and has given
    every entry the default icon in [thumb_paths]. [on_event] returns
    with no task submitted, and every item it returns carries the default
    icon. *)
Theorem none_mode_default_icon lib o sched ext argument w :
  thumb_type (ext_preferences ext) = "none" ->
  (forall videos s,
     pending s = [] ->
     Forall well_formed_entry videos ->
     exists tp,
       thumb_loop lib ext o sched videos [] s = (Ok tp, s) /\
       all_default tp /\
       forall v v_id, In v videos -> get v "videoId" JNull = Ok v_id ->
                      lookup v_id tp = Some icon_default) /\
  (forall videos s r s',
     pending s = [] ->
     thumb_loop lib ext o sched videos [] s = (r, s') -> s' = s) /\
  exists items s,
    on_event lib o sched ext argument w = (Ok items, s) /\
    submitted s = [] /\
    Forall (fun it => icon it = icon_default) items.
Proof.
  intros Hn. split; [|split].
  - intros videos s Hp Hw.
    destruct (thumb_loop_none_returns lib ext o videos Hn Hw sched [] s Hp)
      as [tp E].
    exists tp. split; [exact E|].
    destruct (thumb_loop_none lib ext o videos Hn _ _ _ _ _ Hp (Forall_nil _) E)
      as [_ K].
    destruct (K _ eq_refl) as (A & _ & C). now split.
  - intros videos s r s' Hp H.
    now destruct (thumb_loop_none lib ext o videos Hn _ _ _ _ _ Hp
                    (Forall_nil _) H).
  - unfold on_event.
    destruct (PyStr.len (query_of argument) <? 3)%nat.
    { exists [prompt_item ext], (initial w). repeat constructor. }
    assert (exists r s, try_body lib o sched ext (query_of argument) w = (r, s)
              /\ submitted s = []
              /\ forall items, r = Ok items ->
                   Forall (fun it => icon it = icon_default) items)
      as (r & s & E & Hs & Hi).
    { unfold try_body.
      destruct (session_get o _ w) as [[text|e] w1].
      - destruct (parse_page lib text) as [data|e].
        + destruct (after_parse lib o sched ext (query_of argument) data
                      (initial w1)) as [r s] eqn:E.
          destruct (after_parse_none lib o sched ext _ data (initial w1) r s
                      Hn eq_refl eq_refl E) as [-> K].
          exists r, (initial w1). auto.
        + eexists _, _. split; [reflexivity|]. split; [reflexivity|].
          intros items E; inversion E; subst. repeat constructor.
      - destruct e; eexists _, _; (split; [reflexivity|]);
          (split; [reflexivity|]); intros items E; inversion E; subst;
          repeat constructor. }
    rewrite E. destruct r as [items|e].
    + exists items, s. auto.
    + exists [internal_error_item ext], s. repeat constructor. exact Hs.
Qed.

Lemma none_mode_default_icon_witness :
  (exists tp,
     thumb_loop (lib_of avatar_json_text avatar_page)
       (ext_of 7 "none" "layout_inverted") (online avatar_body) []
       [video_entry "abc" "UC1" "//yt3.ggpht.com/a.jpg";
        video_entry "xyz" "UC1" "//yt3.ggpht.com/a.jpg"] []
       (initial empty_world)
     = (Ok tp, initial empty_world) /\
     lookup (JStr "abc") tp = Some icon_default /\
     lookup (JStr "xyz") tp = Some icon_default) /\
  exists first second s,
    on_event (lib_of avatar_json_text avatar_page) (online avatar_body) []
      (ext_of 7 "none" "layout_inverted") (Some "cats") empty_world
    = (Ok [first; second], s) /\
    submitted s = [] /\
    icon first = icon_default /\ icon second = icon_default.
Proof.
  destruct (none_mode_default_icon (lib_of avatar_json_text avatar_page)
              (online avatar_body) []
              (ext_of 7 "none" "layout_inverted") (Some "cats") empty_world
              eq_refl) as (A & _ & items & s & E & Hs & Hi).
  split.
  - destruct (A [video_entry "abc" "UC1" "//yt3.ggpht.com/a.jpg";
                 video_entry "xyz" "UC1" "//yt3.ggpht.com/a.jpg"]
                (initial empty_world) eq_refl) as (tp & Et & _ & L).
    + repeat constructor; eexists _, _; repeat split; reflexivity.
    + exists tp. split; [exact Et|].
      split.
      * apply (L (video_entry "abc" "UC1" "//yt3.ggpht.com/a.jpg"));
          [simpl; auto|reflexivity].
      * apply (L (video_entry "xyz" "UC1" "//yt3.ggpht.com/a.jpg"));
          [simpl; auto|reflexivity].
  - vm_compute in E. injection E as <- <-.
    eexists _, _, _. split; [reflexivity|].
    split; [reflexivity|]. split; reflexivity.
Defined.

(** ** The thumbnail cache *)

Lemma exists_added path fs rq :
  exists_ {| files := path :: fs; requests := rq |} path = true.
Proof. unfold exists_. simpl. now rewrite String.eqb_refl. Qed.

Lemma cache_hit o path url is_ch w :
  exists_ w path = true ->
  download_and_cache o path url is_ch w = (Some path, w).
Proof. intros H. unfold download_and_cache. now rewrite H. Qed.

(** C8, as stated, fails: when the fetch of the first resolution fails
    nothing is written, and the second resolution fetches again. *)
Lemma resolve_twice_offline_two_fetches :
  ~ (forall o path url is_ch w,
       fetches w (snd (resolve_twice o path url is_ch w)) = 1).
Proof.
  intros H.
  specialize (H offline "/c/c_UC1.png" "https://yt/a.jpg" true empty_world).
  vm_compute in H. discriminate.
Qed.

(** C8, amended. A file at the path is a hit: the path is returned and
    the world is left as it was, no request sent. Hence after a
    resolution that returned a path the next resolution of the same key
    is a pure read, and the two together send one request when the file
    was missing at first and none when it was there. *)
Theorem cache_idempotent o path url is_ch w :
  (exists_ w path = true ->
   download_and_cache o path url is_ch w = (Some path, w)) /\
  (forall r1 w1,
     download_and_cache o path url is_ch w = (Some r1, w1) ->
     r1 = path /\
     download_and_cache o path url is_ch w1 = (Some path, w1) /\
     fetches w (snd (resolve_twice o path url is_ch w))
     = if exists_ w path then 0 else 1).
Proof.
  split; [apply cache_hit|].
  intros r1 w1 H.
  assert (r1 = path /\ exists_ w1 path = true /\
          fetches w w1 = if exists_ w path then 0 else 1) as (-> & Hx & Hf).
  { unfold download_and_cache in H.
    destruct (exists_ w path) eqn:Ex.
    - inversion H; subst. unfold fetches. repeat split; [assumption|lia].
    - unfold session_get in H.
      destruct (http_get o _ url) as [content|e]; [|discriminate].
      destruct (image_ok o content && writable o path); [|discriminate].
      inversion H; subst. split; [reflexivity|]. split; [apply exists_added|].
      unfold fetches. simpl. rewrite length_app. simpl. lia. }
  split; [reflexivity|]. split; [now apply cache_hit|].
  unfold resolve_twice. rewrite H. rewrite (cache_hit _ _ _ _ _ Hx). exact Hf.
Qed.

Lemma cache_idempotent_witness :
  download_and_cache (online "PNG") "/c/c_UC1.png" "https://yt/a.jpg" true
    {| files := ["/c/c_UC1.png"]; requests := [] |}
  = (Some "/c/c_UC1.png", {| files := ["/c/c_UC1.png"]; requests := [] |}) /\
  fetches empty_world
    (snd (resolve_twice (online "PNG") "/c/c_UC1.png" "https://yt/a.jpg" true
            empty_world)) = 1.
Proof.
  split.
  - apply (proj1 (cache_idempotent (online "PNG") "/c/c_UC1.png"
                    "https://yt/a.jpg" true
                    {| files := ["/c/c_UC1.png"]; requests := [] |})).
    reflexivity.
  - apply (proj2 (cache_idempotent (online "PNG") "/c/c_UC1.png"
                    "https://yt/a.jpg" true empty_world)
             "/c/c_UC1.png"
             {| files := ["/c/c_UC1.png"]; requests := ["https://yt/a.jpg"] |}).
    reflexivity.
Defined.

(** ** Extraction failure *)

Lemma cut_absent sep s : contains sep s = false -> cut sep s = None.
Proof.
  induction s as [|c r IH]; simpl; intros H.
  - apply orb_false_elim in H. destruct H as [H _]. now rewrite H.
  - apply orb_false_elim in H. destruct H as [H1 H2].
    rewrite H1. now rewrite IH.
Qed.

Lemma split_absent sep s : contains sep s = false -> split sep s = [s].
Proof.
  intros H. unfold split. destruct (String.length s); simpl; [reflexivity|].
  now rewrite cut_absent.
Qed.

Lemma parse_page_no_prefix lib text :
  contains marker_prefix text = false ->
  parse_page lib text = Raise IndexError.
Proof.
  intros H. unfold parse_page, embedded_block. now rewrite split_absent.
Qed.

Lemma startswith_length p : forall s,
  startswith p s = true -> (String.length p <= String.length s)%nat.
Proof.
  induction p as [|a p IH]; intros [|b s] H; simpl in *; try lia;
    try discriminate.
  apply andb_true_iff in H. destruct H as [_ H]. apply IH in H. lia.
Qed.

Lemma cut_length sep : forall s a b,
  cut sep s = Some (a, b) -> (String.length sep <= String.length s)%nat.
Proof.
  induction s as [|c r IH]; intros a b H; cbn [cut] in H.
  - destruct (startswith sep "") eqn:E; [|discriminate].
    now apply startswith_length.
  - destruct (startswith sep (String c r)) eqn:E.
    + now apply startswith_length.
    + destruct (cut sep r) as [[a' b']|]; [|discriminate].
      specialize (IH _ _ eq_refl). simpl. lia.
Qed.

Lemma split_fuel_head f sep s :
  (f = O -> cut sep s = None) ->
  exists tl, split_fuel f sep s = before sep s :: tl.
Proof.
  intros H. unfold before. destruct f as [|f]; cbn [split_fuel].
  - rewrite H by reflexivity. now exists [].
  - destruct (cut sep s) as [[a b]|]; now eexists.
Qed.

(** The first piece of [s.split(sep)] is the text before the first
    separator. *)
Lemma split_head sep s :
  sep <> "" -> exists tl, split sep s = before sep s :: tl.
Proof.
  intros Hs. apply split_fuel_head. intros L.
  destruct (cut sep s) as [[a b]|] eqn:C; [|reflexivity].
  apply cut_length in C. destruct sep; [contradiction|]. simpl in C. lia.
Qed.

(** [embedded_block] cuts out the block of the page. *)
Lemma embedded_block_of text :
  embedded_block text
  = match block_of text with
    | Some block => Ok block
    | None => Raise IndexError
    end.
Proof.
  unfold embedded_block, block_of, split.
  destruct (cut marker_prefix text) as [[a rest]|] eqn:C.
  - pose proof (cut_length _ _ _ _ C) as L.
    change (String.length marker_prefix) with 20%nat in L.
    destruct (String.length text) as [|f] eqn:Lt; [lia|].
    cbn [split_fuel]. rewrite C.
    destruct (split_fuel_head f marker_prefix rest) as [tl ->].
    { intros ->. lia. }
    destruct (split_head marker_suffix (before marker_prefix rest))
      as [tl' E]; [discriminate|].
    unfold split in E. now rewrite E.
  - destruct (String.length text); cbn [split_fuel]; [reflexivity|].
    now rewrite C.
Qed.

(** C7, as stated, fails for a missing suffix: the rest of the body after
    the prefix is then the block, and when it parses the pipeline goes
    on; here it returns the browser item and one video item. *)
Lemma missing_suffix_not_fallback :
  ~ (forall lib o sched ext argument w text,
       (3 <= PyStr.len (query_of argument))%nat ->
       http_get o (List.length (requests w))
         (search_url_of (query_of argument)) = Ok text ->
       contains marker_prefix text = false \/
       contains marker_suffix text = false \/
       (exists e, parse_page lib text = Raise e) ->
       exists it,
         fst (on_event lib o sched ext argument w) = Ok [it] /\
         on_enter it
         = Some (OpenUrlAction (search_url_of (query_of argument)))).
Proof.
  intros H.
  destruct (H (lib_of sample_json_text sample_page)
              (online body_without_suffix) []
              (ext_of 7 "none" "layout_inverted") (Some "cats") empty_world
              body_without_suffix) as (it & E & _).
  - vm_compute. lia.
  - reflexivity.
  - right. left. reflexivity.
  - vm_compute in E. discriminate.
Qed.

(** C7, amended. The block cut out of a body is, of the text that
    follows the first marker prefix, the part before the next prefix
    and, of that, the part before the first marker suffix (all of it
    when there is no suffix). When the fetched body lacks the marker
    prefix, or its block is rejected by [json.loads], [on_event] returns
    exactly the fallback item, whose action opens the search in the
    browser; nothing is raised and no task is submitted. *)
Theorem extraction_failure_fallback lib o sched ext argument w text :
  (3 <= PyStr.len (query_of argument))%nat ->
  http_get o (List.length (requests w)) (search_url_of (query_of argument))
  = Ok text ->
  contains marker_prefix text = false \/
  (exists block e,
     block_of text = Some block /\ json_loads lib block = Raise e) ->
  exists s,
    on_event lib o sched ext argument w
    = (Ok [fallback_item ext (query_of argument)], s) /\
    on_enter (fallback_item ext (query_of argument))
    = Some (OpenUrlAction (search_url_of (query_of argument))) /\
    submitted s = [].
Proof.
  intros Hq Hget Hfail.
  assert (exists e, parse_page lib text = Raise e) as [e He].
  { destruct Hfail as [Hp|(block & e & Hb & Hj)].
    - eexists. now apply parse_page_no_prefix.
    - exists e. unfold parse_page. rewrite embedded_block_of, Hb. exact Hj. }
  unfold on_event.
  destruct (Nat.ltb_spec (PyStr.len (query_of argument)) 3) as [Hlt|_];
    [lia|].
  unfold try_body, session_get. rewrite Hget, He.
  eexists. repeat split.
Qed.

Lemma extraction_failure_fallback_witness :
  (exists s,
     on_event lib_none (online "<html></html>") []
       (ext_of 7 "channel" "layout_inverted") (Some "cats") empty_world
     = (Ok [fallback_item (ext_of 7 "channel" "layout_inverted")
              (query_of (Some "cats"))], s) /\
     on_enter (fallback_item (ext_of 7 "channel" "layout_inverted")
                 (query_of (Some "cats")))
     = Some (OpenUrlAction (search_url_of (query_of (Some "cats")))) /\
     submitted s = []) /\
  (block_of (marker_prefix ++ "{" ++ marker_suffix ++ "}" ++ marker_prefix
             ++ sample_json_text ++ marker_suffix) = Some "{" /\
   exists s,
     on_event (lib_of sample_json_text sample_page)
       (online (marker_prefix ++ "{" ++ marker_suffix ++ "}" ++ marker_prefix
                ++ sample_json_text ++ marker_suffix)) []
       (ext_of 7 "channel" "layout_inverted") (Some "cats") empty_world
     = (Ok [fallback_item (ext_of 7 "channel" "layout_inverted")
              (query_of (Some "cats"))], s) /\
     on_enter (fallback_item (ext_of 7 "channel" "layout_inverted")
                 (query_of (Some "cats")))
     = Some (OpenUrlAction (search_url_of (query_of (Some "cats")))) /\
     submitted s = []).
Proof.
  split.
  - apply (extraction_failure_fallback lib_none (online "<html></html>") []
             (ext_of 7 "channel" "layout_inverted") (Some "cats") empty_world
             "<html></html>").
    + vm_compute. lia.
    + reflexivity.
    + left. reflexivity.
  - split; [reflexivity|].
    apply (extraction_failure_fallback (lib_of sample_json_text sample_page)
             (online (marker_prefix ++ "{" ++ marker_suffix ++ "}"
                      ++ marker_prefix ++ sample_json_text ++ marker_suffix))
             [] (ext_of 7 "channel" "layout_inverted") (Some "cats")
             empty_world
             (marker_prefix ++ "{" ++ marker_suffix ++ "}" ++ marker_prefix
              ++ sample_json_text ++ marker_suffix)).
    + vm_compute. lia.
    + reflexivity.
    + right. exists "{", ValueError. split; reflexivity.
Defined.

(** ** Cache keys in channel mode *)

(** C2, as stated, fails: two entries of one channel get the same path,
    but the loop keeps no record of the keys it has dispatched; with no
    file at the path a task is submitted for each of them. *)
Lemma shared_channel_two_tasks :
  ~ (forall lib ext o sched w v1 v2 id1 id2 c r s',
       thumb_type (ext_preferences ext) = "channel" ->
       get v1 "videoId" JNull = Ok id1 ->
       get v2 "videoId" JNull = Ok id2 ->
       id1 <> id2 ->
       channel_id v1 id1 = Ok c -> channel_id v2 id2 = Ok c ->
       thumb_loop lib ext o sched [v1; v2] [] (initial w) = (r, s') ->
       img_path_of lib (cache_dir ext) true c id1
       = img_path_of lib (cache_dir ext) true c id2 /\
       (List.length (submitted s') <= 1)%nat).
Proof.
  intros H.
  destruct (H lib_none (ext_of 7 "channel" "layout_inverted")
              (online "") [] empty_world
              (video_entry "a" "UC1" "//yt/c1.jpg")
              (video_entry "b" "UC1" "//yt/c1.jpg")
              (JStr "a") (JStr "b") (JStr "UC1") _ _
              eq_refl eq_refl eq_refl ltac:(discriminate) eq_refl eq_refl
              eq_refl) as [_ L].
  vm_compute in L. lia.
Qed.

Lemma thumb_step_channel_hit lib ext v v_id c tp s :
  thumb_type (ext_preferences ext) = "channel" ->
  get v "videoId" JNull = Ok v_id ->
  channel_id v v_id = Ok c ->
  exists_ (st_world s) (img_path_of lib (cache_dir ext) true c v_id) = true ->
  thumb_step lib ext v tp s
  = bind (dict_set tp v_id (img_path_of lib (cache_dir ext) true c v_id))
         (fun tp' => Ok (tp', s)).
Proof.
  intros Hm Hid Hc Hx. unfold thumb_step.
  rewrite Hm.
  change (String.eqb "channel" "channel") with true.
  change (String.eqb "channel" "none") with false.
  rewrite Hid. cbn [bind]. rewrite Hc. cbn [bind]. now rewrite Hx.
Qed.

Lemma thumb_step_channel_miss lib ext v v_id c u tp s :
  thumb_type (ext_preferences ext) = "channel" ->
  get v "videoId" JNull = Ok v_id ->
  channel_id v v_id = Ok c ->
  thumb_url true v = Ok (JStr u) -> u <> "" ->
  exists_ (st_world s) (img_path_of lib (cache_dir ext) true c v_id) = false ->
  thumb_step lib ext v tp s
  = Ok (tp, submit {| t_path := img_path_of lib (cache_dir ext) true c v_id;
                      t_url := absolute_url u;
                      t_is_channel := true;
                      t_vid := v_id |} s).
Proof.
  intros Hm Hid Hc Hu Hne Hx. unfold thumb_step.
  rewrite Hm.
  change (String.eqb "channel" "channel") with true.
  change (String.eqb "channel" "none") with false.
  rewrite Hid. cbn [bind]. rewrite Hc. cbn [bind]. rewrite Hx, Hu.
  cbn [bind truthy].
  destruct (String.eqb_spec u ""); [contradiction|reflexivity].
Qed.

(** C2, amended. In channel mode two entries of one channel have the
    same cache path. The loop dispatches per entry, not per key: when the
    file exists as the loop reaches the entries, both get the path and
    nothing is submitted; when it does not and no worker has written it
    in between, a task for that path is submitted for each of the two
    entries. *)
Theorem shared_channel_key lib ext o v1 v2 id1 id2 c u1 u2 tp s :
  thumb_type (ext_preferences ext) = "channel" ->
  get v1 "videoId" JNull = Ok id1 ->
  get v2 "videoId" JNull = Ok id2 ->
  channel_id v1 id1 = Ok c -> channel_id v2 id2 = Ok c ->
  let p := img_path_of lib (cache_dir ext) true c id1 in
  img_path_of lib (cache_dir ext) true c id2 = p /\
  (exists_ (st_world s) p = true ->
   hashable id1 = true -> hashable id2 = true ->
   thumb_loop lib ext o [] [v1; v2] tp s
   = (Ok (update id2 p (update id1 p tp)), s)) /\
  (exists_ (st_world s) p = false ->
   thumb_url true v1 = Ok (JStr u1) -> u1 <> "" ->
   thumb_url true v2 = Ok (JStr u2) -> u2 <> "" ->
   thumb_loop lib ext o [] [v1; v2] tp s
   = (Ok tp,
      submit {| t_path := p; t_url := absolute_url u2;
                t_is_channel := true; t_vid := id2 |}
        (submit {| t_path := p; t_url := absolute_url u1;
                   t_is_channel := true; t_vid := id1 |} s))).
Proof.
  intros Hm H1 H2 C1 C2 p.
  assert (img_path_of lib (cache_dir ext) true c id2 = p) as Hp by reflexivity.
  split; [exact Hp|]. split.
  - intros Hx Hh1 Hh2. simpl.
    rewrite (thumb_step_channel_hit lib ext v1 id1 c tp s Hm H1 C1 Hx).
    unfold dict_set. rewrite Hh1. simpl.
    rewrite (thumb_step_channel_hit lib ext v2 id2 c _ s Hm H2 C2)
      by (rewrite Hp; exact Hx).
    unfold dict_set. rewrite Hh2. simpl. now rewrite Hp.
  - intros Hx U1 N1 U2 N2. simpl.
    rewrite (thumb_step_channel_miss lib ext v1 id1 c u1 tp s Hm H1 C1 U1 N1 Hx).
    rewrite (thumb_step_channel_miss lib ext v2 id2 c u2 tp _ Hm H2 C2 U2 N2)
      by (rewrite Hp; exact Hx).
    now rewrite Hp.
Qed.

Lemma shared_channel_key_witness :
  let ext := ext_of 7 "channel" "layout_inverted" in
  let p := img_path_of lib_none (cache_dir ext) true (JStr "UC1") (JStr "a") in
  img_path_of lib_none (cache_dir ext) true (JStr "UC1") (JStr "b") = p /\
  thumb_loop lib_none ext (online "") []
    [video_entry "a" "UC1" "//yt/c1.jpg"; video_entry "b" "UC1" "//yt/c1.jpg"]
    [] (initial empty_world)
  = (Ok [],
     submit {| t_path := p; t_url := absolute_url "//yt/c1.jpg";
               t_is_channel := true; t_vid := JStr "b" |}
       (submit {| t_path := p; t_url := absolute_url "//yt/c1.jpg";
                  t_is_channel := true; t_vid := JStr "a" |}
          (initial empty_world))).
Proof.
  intros ext p.
  destruct (shared_channel_key lib_none ext (online "")
              (video_entry "a" "UC1" "//yt/c1.jpg")
              (video_entry "b" "UC1" "//yt/c1.jpg")
              (JStr "a") (JStr "b") (JStr "UC1") "//yt/c1.jpg" "//yt/c1.jpg"
              [] (initial empty_world)
              eq_refl eq_refl eq_refl eq_refl eq_refl) as (A & _ & B).
  split; [exact A|].
  apply B; [reflexivity|reflexivity|discriminate|reflexivity|discriminate].
Defined.

(** ** Extraction of the first [M] entries *)

Lemma len_app (a b : list json) : len (a ++ b) = len a + len b.
Proof. unfold len. rewrite length_app. lia. Qed.

Lemma firstn_short (m : Z) (l : list json) :
  len l <= m -> firstn (Z.to_nat m) l = l.
Proof. unfold len. intros H. apply firstn_all2. lia. Qed.

Lemma firstn_long (m : Z) (l1 l2 : list json) :
  m <= len l1 -> firstn (Z.to_nat m) (l1 ++ l2) = firstn (Z.to_nat m) l1.
Proof.
  unfold len. intros H. rewrite firstn_app.
  replace (Z.to_nat m - List.length l1)%nat with O by lia.
  simpl. apply app_nil_r.
Qed.


Lemma scan_items_firstn (m : Z) item_list :
  forall acc ms,
    len acc < m ->
    matching_items item_list = Ok ms ->
    scan_items m item_list acc = Ok (firstn (Z.to_nat m) (acc ++ ms)).
Proof.
  induction item_list as [|it rest IH]; simpl; intros acc ms Hacc H.
  - inversion H; subst. rewrite app_nil_r. now rewrite firstn_short by lia.
  - destruct (get it "videoRenderer" JNull) as [v|e]; simpl in *; [|discriminate].
    destruct (matching_items rest) as [ms'|e]; simpl in H; [|discriminate].
    inversion H; subst; clear H.
    destruct (truthy v).
    + destruct (Z.leb_spec m (len (acc ++ [v]))) as [Hge|Hlt].
      * replace (acc ++ v :: ms')%list with ((acc ++ [v]) ++ ms')%list
          by now rewrite <- app_assoc.
        rewrite firstn_long by assumption.
        rewrite firstn_short; [reflexivity|].
        rewrite len_app in *. unfold len in *. simpl in *. lia.
      * rewrite (IH _ ms' Hlt eq_refl). now rewrite <- app_assoc.
    + now apply IH.
Qed.

Lemma scan_sections_firstn (m : Z) sections :
  forall acc ms,
    len acc < m ->
    matching_sections sections = Ok ms ->
    scan_sections m sections acc = Ok (firstn (Z.to_nat m) (acc ++ ms)).
Proof.
  induction sections as [|sec rest IH]; simpl; intros acc ms Hacc H.
  - inversion H; subst. rewrite app_nil_r. now rewrite firstn_short by lia.
  - destruct (get sec "itemSectionRenderer" (JObj [])) as [isr|e];
      simpl in *; [|discriminate].
    destruct (get isr "contents" (JArr [])) as [cl|e]; simpl in *; [|discriminate].
    destruct (iter cl) as [item_list|e]; simpl in *; [|discriminate].
    destruct (matching_items item_list) as [here|e] eqn:Eh; simpl in H;
      [|discriminate].
    destruct (matching_sections rest) as [later|e]; simpl in H; [|discriminate].
    inversion H; subst; clear H.
    rewrite (scan_items_firstn m item_list acc here Hacc Eh). simpl.
    destruct (Z.leb_spec m (len (firstn (Z.to_nat m) (acc ++ here)))) as [Hge|Hlt].
    + rewrite app_assoc. rewrite (firstn_long m (acc ++ here) later);
        [reflexivity|].
      unfold len in *. rewrite length_firstn in Hge. lia.
    + assert (len (acc ++ here) < m) as Hs.
      { unfold len in *. rewrite length_firstn in Hlt. lia. }
      rewrite firstn_short by lia.
      rewrite (IH _ later Hs eq_refl). now rewrite app_assoc.
Qed.



Lemma section_matching_ok sections : forall all,
  matching_sections sections = Ok all ->
  flat_map section_entries sections = all.
Proof.
  induction sections as [|section rest IH]; intros all H; simpl in H.
  - now inversion H.
  - cbn [flat_map]. unfold section_entries, section_matching.
    destruct (get section "itemSectionRenderer" (JObj [])) as [isr|e];
      simpl in *; [|discriminate].
    destruct (get isr "contents" (JArr [])) as [cl|e]; simpl in *;
      [|discriminate].
    destruct (iter cl) as [item_list|e]; simpl in *; [|discriminate].
    destruct (matching_items item_list) as [here|e]; simpl in *;
      [|discriminate].
    destruct (matching_sections rest) as [later|e]; simpl in *;
      [|discriminate].
    inversion H; subst. f_equal. now apply IH.
Qed.

(** For a payload all of whose sections and items are dictionaries, the
    entries it holds are its matching entries. *)
Lemma entries_of_all_matching contents all :
  all_matching contents = Ok all -> entries_of contents = all.
Proof.
  unfold all_matching, entries_of. intros H.
  destruct contents as [|b|n|f|s|l|kvs]; simpl in H; try discriminate.
  - destruct s as [|c s]; simpl in H; [now inversion H|discriminate].
  - now apply section_matching_ok.
  - destruct kvs as [|kv kvs]; simpl in H; [now inversion H|discriminate].
Qed.




(** ** View counts: the magnitude *)

Lemma contains_weaken (p q : string) :
  (forall s, startswith p s = true -> startswith q s = true) ->
  forall s, contains p s = true -> contains q s = true.
Proof.
  intros Hpq. induction s as [|c r IH]; simpl; intros H.
  - apply orb_true_iff in H. destruct H as [H|H]; [|discriminate].
    apply Hpq in H. simpl in H. now rewrite H.
  - apply orb_true_iff in H. apply orb_true_iff. destruct H as [H|H].
    + left. apply (Hpq (String c r)). exact H.
    + right. now apply IH.
Qed.

Lemma contains_mil_mi v : contains "mil" v = true -> contains "mi" v = true.
Proof.
  apply contains_weaken. intros s H.
  destruct s as [|a [|b [|c r]]]; simpl in *;
    repeat (apply andb_true_iff in H; destruct H as [? H]);
    try discriminate.
  repeat (apply andb_true_iff; split); auto.
Qed.

(** C3 (defect of the code). The chain tests billion, then million, then
    thousand, and the bare [m] counts as million only without [mil] and
    [k]; an input whose only marker is [k] is a thousand. But the million
    test starts with ['mi' in v], which every text with [mil] passes: a
    text with [mil] is never classified as thousand, and "5 mil" comes
    out as "5 mi". *)
Theorem mil_marker_is_million :
  (forall v, contains "b" v = true -> classify v = Billion) /\
  (forall v, contains "b" v = false -> contains "m" v = false ->
             contains "k" v = true -> classify v = Thousand) /\
  (forall v, contains "mil" v = true -> classify v <> Thousand) /\
  (forall u, classify (working u "5 mil") = Million) /\
  (forall u, format_views u no_translations (JStr "5 mil") = "5 mi").
Proof.
  repeat split; try (intros u; reflexivity).
  - intros v H. unfold classify. rewrite H. now rewrite orb_true_r.
  - intros v Hb Hm Hk. unfold classify.
    assert (contains "bi" v = false) as ->.
    { destruct (contains "bi" v) eqn:E; [|reflexivity].
      rewrite <- Hb. symmetry. revert E. apply contains_weaken.
      intros s. destruct s as [|a [|b r]]; simpl; try discriminate.
      - now rewrite andb_false_r.
      - intros E. apply andb_true_iff in E. destruct E as [E _].
        now rewrite E. }
    assert (contains "mi" v = false) as ->.
    { destruct (contains "mi" v) eqn:E; [|reflexivity].
      rewrite <- Hm. symmetry. revert E. apply contains_weaken.
      intros s. destruct s as [|a [|b r]]; simpl; try discriminate.
      - now rewrite andb_false_r.
      - intros E. apply andb_true_iff in E. destruct E as [E _].
        now rewrite E. }
    rewrite Hb, Hm, Hk. simpl. now rewrite orb_true_r.
  - intros v H. unfold classify.
    rewrite (contains_mil_mi v H).
    destruct (contains "bi" v || contains "b" v); discriminate.
Qed.

(** ** Relative dates *)

Lemma take_drop n : forall s, Unicode.take n s ++ drop n s = s.
Proof.
  induction n as [|n IH]; intros [|c s]; simpl; try reflexivity.
  now rewrite IH.
Qed.

Lemma drop_shorter n : forall s,
  (String.length (drop n s) <= String.length s - n)%nat.
Proof.
  induction n as [|n IH]; intros [|c s]; simpl; try lia. apply IH.
Qed.

Lemma cp_len_pos c : (1 <= Unicode.cp_len c)%nat.
Proof.
  unfold Unicode.cp_len.
  repeat match goal with |- context [if ?b then _ else _] => destruct b end;
    lia.
Qed.

Lemma cps_fuel_join fuel : forall s,
  (String.length s <= fuel)%nat -> Unicode.join (Unicode.cps_fuel fuel s) = s.
Proof.
  induction fuel as [|f IH]; intros [|c s] H; simpl in *; try reflexivity;
    try lia.
  pose proof (cp_len_pos c) as Hp.
  destruct (Unicode.cp_len c) as [|k] eqn:Ek; [lia|].
  cbn [Unicode.take drop]. cbn [append]. f_equal.
  rewrite IH.
  - apply take_drop.
  - pose proof (drop_shorter k s). lia.
Qed.

(** The code points of a text make up the text. *)
Lemma cps_join s : Unicode.join (Unicode.cps s) = s.
Proof. apply cps_fuel_join. lia. Qed.

Lemma join_app a b : Unicode.join (a ++ b) = Unicode.join a ++ Unicode.join b.
Proof.
  induction a as [|x a IH]; simpl; [reflexivity|].
  rewrite IH. clear. induction x as [|c x IH]; simpl; [reflexivity|].
  now rewrite IH.
Qed.

Lemma cps_eqb_eq a : forall b, cps_eqb a b = true <-> a = b.
Proof.
  induction a as [|x a IH]; intros [|y b]; simpl; split; intros H;
    try reflexivity; try discriminate.
  - apply andb_true_iff in H. destruct H as [E H].
    apply String.eqb_eq in E. apply IH in H. now subst.
  - injection H as -> ->. rewrite String.eqb_refl. now apply IH.
Qed.

Lemma starts_split w : forall l,
  starts w l = true -> l = (w ++ skipn (List.length w) l)%list.
Proof.
  induction w as [|a w IH]; intros l H; [reflexivity|].
  destruct l as [|b l]; [discriminate|]. simpl in H.
  apply andb_true_iff in H. destruct H as [E H].
  apply String.eqb_eq in E. subst b. simpl. f_equal. now apply IH.
Qed.

Lemma starts_app w l : starts w (w ++ l) = true.
Proof.
  induction w as [|a w IH]; simpl; [reflexivity|].
  now rewrite String.eqb_refl.
Qed.

Lemma skipn_app_exact {A} (w l : list A) : skipn (List.length w) (w ++ l) = l.
Proof. induction w; simpl; auto. Qed.

Lemma last_cp_some c x : exists d, last_cp (c :: x) = Some d.
Proof.
  revert c. induction x as [|c' x IH]; intros c; [now exists c|].
  destruct (IH c') as [d Hd]. exists d. exact Hd.
Qed.

Lemma resub_skip u w repl x :
  forall prev l,
    resub u w repl prev (List.length x) (x ++ l)
    = resub u w repl (match last_cp x with Some c => Some c | None => prev end)
        0 l.
Proof.
  induction x as [|c x IH]; intros prev l; [reflexivity|].
  cbn [List.length app resub]. rewrite IH.
  destruct x as [|c' x']; [reflexivity|].
  destruct (last_cp_some c' x') as [d Hd].
  change (last_cp (c :: c' :: x')) with (last_cp (c' :: x')).
  now rewrite Hd.
Qed.

Lemma resub_step u w repl prev c r :
  w <> [] ->
  resub u w repl prev 0 (c :: r)
  = if matches_here u w prev (c :: r)
    then repl ++ resub u w repl (last_cp w) 0
                   (skipn (List.length w) (c :: r))
    else c ++ resub u w repl (Some c) 0 r.
Proof.
  intros Hw. cbn [resub].
  destruct (matches_here u w prev (c :: r)) eqn:M; [|reflexivity].
  f_equal.
  assert (starts w (c :: r) = true) as Hs.
  { unfold matches_here in M.
    apply andb_true_iff in M. destruct M as [M _].
    apply andb_true_iff in M. now destruct M. }
  destruct w as [|a w']; [contradiction|].
  pose proof (starts_split _ _ Hs) as E.
  cbn [List.length skipn] in *. cbn [app] in E.
  injection E as Ea Er. subst c.
  replace (S (List.length w') - 1)%nat with (List.length w') by lia.
  set (b := skipn (List.length w') r) in *.
  rewrite Er. rewrite resub_skip.
  destruct w' as [|a' w'']; [reflexivity|].
  destruct (last_cp_some a' w'') as [d Hd].
  change (last_cp (a :: a' :: w'')) with (last_cp (a' :: w'')).
  now rewrite Hd.
Qed.

(** *** The runs of a text *)

Lemma runs_cons u c r :
  runs u (c :: r)
  = match runs u r with
    | (b', t) :: ts =>
        if Bool.eqb b' (Unicode.is_word_cp u c) then (Unicode.is_word_cp u c, c :: t) :: ts
        else (Unicode.is_word_cp u c, [c]) :: (b', t) :: ts
    | [] => [(Unicode.is_word_cp u c, [c])]
    end.
Proof. reflexivity. Qed.

Lemma runs_are_ok u : forall l, runs_ok u (runs u l).
Proof.
  induction l as [|c r IH]; [exact I|].
  rewrite runs_cons. destruct (runs u r) as [|[b' t] ts] eqn:E.
  - cbn. repeat split; [discriminate|now constructor].
  - cbn [runs_ok] in IH. destruct IH as (Ht & Ha & Hn & Hr).
    destruct (Bool.eqb b' (Unicode.is_word_cp u c)) eqn:Eb.
    + apply Bool.eqb_prop in Eb. subst b'.
      cbn [runs_ok]. repeat split; auto; discriminate.
    + cbn [runs_ok]. repeat split; auto; try discriminate.
      destruct b', (Unicode.is_word_cp u c); try reflexivity; discriminate.
Qed.

(** The runs of a text, one after the other, are the text. *)
Lemma runs_concat u : forall l, List.concat (map snd (runs u l)) = l.
Proof.
  induction l as [|c r IH]; [reflexivity|].
  rewrite runs_cons. destruct (runs u r) as [|[b' t] ts] eqn:E.
  - cbn in *. now rewrite <- IH.
  - destruct (Bool.eqb b' (Unicode.is_word_cp u c)); cbn in *; now rewrite IH.
Qed.

Lemma runs_nil u l : runs u l = [] -> l = [].
Proof. intros H. rewrite <- (runs_concat u l), H. reflexivity. Qed.

(** The first run has the flag of the first character. *)
Lemma runs_head u c r :
  exists t ts, runs u (c :: r) = (Unicode.is_word_cp u c, c :: t) :: ts.
Proof.
  rewrite runs_cons. destruct (runs u r) as [|[b' t] ts]; [now eexists _, _|].
  destruct (Bool.eqb b' (Unicode.is_word_cp u c)); now eexists _, _.
Qed.

(** What follows the first run does not go on with it. *)
Lemma runs_first u l b t ts :
  runs u l = (b, t) :: ts ->
  l = (t ++ List.concat (map snd ts))%list /\
  runs u (List.concat (map snd ts)) = ts /\
  (b = true -> wordb u (hd_error (List.concat (map snd ts))) = false).
Proof.
  intros E. pose proof (runs_concat u l) as C. rewrite E in C. cbn in C.
  split; [now symmetry|].
  pose proof (runs_are_ok u l) as K. rewrite E in K.
  cbn [runs_ok] in K. destruct K as (_ & _ & Hn & Hr).
  split.
  - clear E C Hn. revert Hr. generalize ts as rs.
    induction rs as [|[b1 t1] rs IH]; intros K; [reflexivity|].
    cbn [runs_ok] in K. destruct K as (Ht & Ha & Hn & Hr).
    specialize (IH Hr). cbn [map snd List.concat].
    clear Hr. revert Ht Ha. induction t1 as [|c t1 IHt]; intros Ht Ha;
      [contradiction|].
    inversion Ha as [|? ? Hc Ha']; subst.
    cbn [app]. rewrite runs_cons.
    destruct t1 as [|c' t1'].
    + cbn [app]. rewrite IH. destruct rs as [|[b2 t2] rs']; [reflexivity|].
      subst b2. now destruct (Unicode.is_word_cp u c).
    + rewrite IHt by (auto; discriminate).
      rewrite Bool.eqb_reflx. reflexivity.
  - intros ->. destruct ts as [|[b1 t1] ts']; [reflexivity|].
    cbn [runs_ok] in Hr. destruct Hr as (Ht & Ha & _).
    destruct t1 as [|c t1]; [contradiction|].
    inversion Ha as [|? ? Hc Ha']; subst. exact Hc.
Qed.

(** A word between two boundaries is a run. *)
Lemma runs_word u w l :
  w <> [] -> Forall (fun c => Unicode.is_word_cp u c = true) w ->
  wordb u (hd_error l) = false ->
  runs u (w ++ l) = (true, w) :: runs u l.
Proof.
  intros Hw Ha Hl. induction w as [|c w IH]; [contradiction|].
  inversion Ha as [|? ? Hc Ha']; subst.
  cbn [app]. rewrite runs_cons, Hc.
  destruct w as [|c' w'].
  - cbn [app]. destruct l as [|x l]; [reflexivity|].
    destruct (runs_head u x l) as (t & ts & E). rewrite E.
    cbn in Hl. rewrite Hl. reflexivity.
  - rewrite IH by (auto; discriminate). reflexivity.
Qed.

(** *** [re.sub] on whole words *)

Lemma last_cp_word u w :
  w <> [] -> Forall (fun c => Unicode.is_word_cp u c = true) w ->
  wordb u (last_cp w) = true.
Proof.
  intros Hw Ha. induction w as [|c w IH]; [contradiction|].
  inversion Ha as [|? ? Hc Ha']; subst.
  destruct w as [|c' w']; [exact Hc|].
  change (last_cp (c :: c' :: w')) with (last_cp (c' :: w')).
  apply IH; [discriminate|assumption].
Qed.

Lemma hd_word u w l :
  w <> [] -> Forall (fun c => Unicode.is_word_cp u c = true) w ->
  wordb u (hd_error (w ++ l)) = true.
Proof.
  intros Hw Ha. destruct w as [|c w]; [contradiction|].
  inversion Ha; subst. assumption.
Qed.

(** A run that is the word matches. *)
Lemma word_run_matches u w prev rest :
  w <> [] -> Forall (fun c => Unicode.is_word_cp u c = true) w ->
  wordb u prev = false -> wordb u (hd_error rest) = false ->
  matches_here u w prev (w ++ rest) = true.
Proof.
  intros Hw Ha Hp Hr. unfold matches_here, at_boundary.
  rewrite starts_app, skipn_app_exact, Hp, Hr, hd_word, last_cp_word;
    auto.
Qed.

(** A match is a run that is the word. *)
Lemma matches_word_run u w prev l :
  w <> [] -> Forall (fun c => Unicode.is_word_cp u c = true) w ->
  matches_here u w prev l = true ->
  exists rest,
    l = (w ++ rest)%list /\ wordb u prev = false /\
    wordb u (hd_error rest) = false.
Proof.
  intros Hw Ha M. unfold matches_here, at_boundary in M.
  apply andb_true_iff in M. destruct M as [M B2].
  apply andb_true_iff in M. destruct M as [B1 S].
  pose proof (starts_split _ _ S) as E.
  exists (skipn (List.length w) l). split; [exact E|].
  rewrite last_cp_word in B2 by assumption.
  rewrite E, hd_word in B1 by assumption.
  split.
  - now destruct (wordb u prev).
  - now destruct (wordb u (hd_error (skipn (List.length w) l))).
Qed.

Lemma cps_eqb_refl w : cps_eqb w w = true.
Proof. now apply cps_eqb_eq. Qed.

Lemma str_app_assoc (a b c : string) : ((a ++ b) ++ c = a ++ (b ++ c))%string.
Proof. induction a as [|x a IH]; simpl; [reflexivity|now rewrite IH]. Qed.

Lemma str_app_nil (a : string) : (a ++ "" = a)%string.
Proof. induction a as [|x a IH]; simpl; [reflexivity|now rewrite IH]. Qed.

(** The scan of [re.sub] replaces the runs that are the word, and only
    them. *)
Lemma resub_runs u w repl :
  w <> [] -> Forall (fun c => Unicode.is_word_cp u c = true) w ->
  forall n l prev,
    (List.length l <= n)%nat ->
    resub u w repl prev 0 l
    = replace_words_after u w repl (wordb u prev) l.
Proof.
  intros Hw Ha. induction n as [|n IH]; intros l prev Hn.
  { destruct l; [reflexivity|simpl in Hn; lia]. }
  destruct l as [|c r]; [reflexivity|].
  rewrite resub_step by assumption.
  destruct (matches_here u w prev (c :: r)) eqn:M.
  - destruct (matches_word_run _ _ _ _ Hw Ha M) as (rest & E & Hp & Hr).
    rewrite E, skipn_app_exact.
    rewrite IH.
    2:{ apply (f_equal (@List.length _)) in E.
        rewrite length_app in E. simpl in E, Hn.
        destruct w; [contradiction|]. simpl in E. lia. }
    unfold replace_words_after. rewrite runs_word by assumption.
    rewrite Hp, last_cp_word by assumption. cbn [andb negb].
    rewrite cps_eqb_refl. f_equal.
    destruct rest as [|x rest']; [reflexivity|].
    destruct (runs_head u x rest') as (t & ts & Ex). rewrite Ex.
    cbn in Hr. rewrite Hr. reflexivity.
  - rewrite IH by (simpl in Hn; lia).
    change (wordb u (Some c)) with (Unicode.is_word_cp u c).
    assert (forall t rest, (c :: r = t ++ rest)%list ->
            wordb u (hd_error rest) = false ->
            Unicode.is_word_cp u c && negb (wordb u prev) && cps_eqb t w = false)
      as K.
    { intros t rest Et Hr.
      destruct (Unicode.is_word_cp u c && negb (wordb u prev)) eqn:Hc;
        [|reflexivity].
      destruct (cps_eqb t w) eqn:Q; [|reflexivity].
      apply cps_eqb_eq in Q. subst t.
      apply andb_true_iff in Hc. destruct Hc as [_ Hp].
      apply negb_true_iff in Hp.
      rewrite Et, word_run_matches in M by assumption. discriminate. }
    unfold replace_words_after. rewrite runs_cons.
    destruct (runs u r) as [|[b' t] ts] eqn:E.
    + apply runs_nil in E. subst r.
      rewrite (K [c] []) by reflexivity. cbn. now rewrite !str_app_nil.
    + destruct (runs_first _ _ _ _ _ E) as (Er & _ & Hh).
      destruct (Bool.eqb b' (Unicode.is_word_cp u c)) eqn:Eb.
      * apply Bool.eqb_prop in Eb. subst b'.
        destruct (Unicode.is_word_cp u c) eqn:Hc.
        -- rewrite (K (c :: t) (List.concat (map snd ts)))
             by (cbn [app]; auto; congruence).
           cbn [andb negb Unicode.join]. now rewrite str_app_assoc.
        -- cbn [andb negb Unicode.join]. now rewrite str_app_assoc.
      * destruct (Unicode.is_word_cp u c) eqn:Hc.
        -- destruct b'; [discriminate|].
           rewrite (K [c] r); [| reflexivity |].
           2:{ destruct r as [|x r']; [reflexivity|].
               destruct (runs_head u x r') as (t' & ts' & Ex).
               rewrite Ex in E. injection E as E1 _ _. exact E1. }
           cbn. now rewrite str_app_nil.
        -- cbn. now rewrite str_app_nil, andb_true_r.
Qed.

Lemma replace_words_after_start u w repl l :
  replace_words_after u w repl false l = replace_words u w repl l.
Proof.
  unfold replace_words_after, replace_words.
  destruct (runs u l) as [|[b t] ts]; [reflexivity|].
  cbn [map Unicode.join replace_run fst snd negb]. now rewrite andb_true_r.
Qed.

(** [re.sub] with the pattern of a word replaces the whole words that are
    the word, and copies the rest. *)
Lemma resub_whole_words u w repl l :
  w <> [] -> Forall (fun c => Unicode.is_word_cp u c = true) w ->
  resub u w repl None 0 l = replace_words u w repl l.
Proof.
  intros Hw Ha.
  rewrite (resub_runs u w repl Hw Ha (List.length l) l None (le_n _)).
  apply replace_words_after_start.
Qed.

(** The words of the vocabulary are made of letters. *)
Lemma words_are_words u w :
  In w words ->
  Unicode.cps w <> [] /\ Forall (fun c => Unicode.is_word_cp u c = true) (Unicode.cps w).
Proof.
  intros H. simpl in H.
  repeat (destruct H as [<-|H];
          [split; [discriminate|repeat constructor]|]).
  contradiction.
Qed.

Lemma re_sub_word_whole_words u compile tr w s :
  In w words ->
  re_sub_word u compile w (i18n tr w w) s
  = bind (replacement compile tr w)
      (fun repl => Ok (replace_words u (Unicode.cps w) repl (Unicode.cps s))).
Proof.
  intros H. destruct (words_are_words u w H) as [Hw Ha].
  unfold re_sub_word, replacement.
  destruct (contains "\" (i18n tr w w)).
  - destruct (compile (i18n tr w w)) as [f|e]; [|reflexivity].
    cbn [bind]. now rewrite resub_whole_words.
  - cbn [bind]. now rewrite resub_whole_words.
Qed.

Lemma translate_words_by_words u compile tr ws :
  incl ws words ->
  forall text,
    translate_words u compile tr ws text
    = translate_by_words u compile tr ws text.
Proof.
  induction ws as [|w ws IH]; intros Hi text; [reflexivity|].
  cbn [translate_words translate_by_words].
  rewrite re_sub_word_whole_words by (apply Hi; now left).
  destruct (replacement compile tr w) as [repl|e]; [|reflexivity].
  cbn [bind]. apply IH. intros x Hx. apply Hi. now right.
Qed.

(** Without a run that is the word, the replacement gives the text
    back. *)
Lemma replace_words_absent u w repl l :
  (forall run, In run (runs u l) -> fst run && cps_eqb (snd run) w = false) ->
  replace_words u w repl l = Unicode.join l.
Proof.
  intros H. unfold replace_words.
  rewrite <- (runs_concat u l) at 2.
  induction (runs u l) as [|run rs IH]; [reflexivity|].
  cbn [map Unicode.join List.concat]. rewrite join_app.
  unfold replace_run at 1. rewrite (H run) by now left.
  f_equal. apply IH. intros r Hr. apply H. now right.
Qed.

Lemma translate_by_words_absent u compile tr text ws :
  incl ws words ->
  valid_replacements compile tr ->
  no_vocabulary_word u text ->
  translate_by_words u compile tr ws text = Ok text.
Proof.
  intros Hi Hv Hn. induction ws as [|w ws IH]; [reflexivity|].
  assert (In w words) as Hw by (apply Hi; now left).
  cbn [translate_by_words].
  assert (exists repl, replacement compile tr w = Ok repl) as [repl ->].
  { unfold replacement.
    destruct (contains "\" (i18n tr w w)) eqn:E; [|now eexists].
    destruct (Hv w Hw E) as [f ->]. now eexists. }
  cbn [bind]. rewrite replace_words_absent, cps_join.
  - apply IH. intros x Hx. apply Hi. now right.
  - intros run Hr. now apply Hn.
Qed.

(** C4, as stated, fails: the input is lower-cased before the words are
    looked for, so "Today" does not come back as it went in. *)
Lemma today_is_altered :
  translate_date ascii_tables (compile_template lib_none) no_translations
    (JStr "Today")
  <> Ok "Today".
Proof. vm_compute. discriminate. Qed.

(** C4, amended. [translate_date] lower-cases its input and then replaces
    whole words only: for every non-empty text its result is the
    lower-case text in which, for one word of the vocabulary after the
    other, every maximal run of word characters that is the word has been
    replaced by the word's translation and every other run, of word
    characters or of others, has been copied. A text none of whose words
    is in the vocabulary is therefore returned in lower case and
    otherwise as it was, whatever the translations are: "Today" gives
    "today", its "day" untouched. *)
Theorem translate_date_whole_words u compile tr d :
  d <> "" ->
  translate_date u compile tr (JStr d)
  = translate_by_words u compile tr words (Unicode.lower u d) /\
  (valid_replacements compile tr ->
   no_vocabulary_word u (Unicode.lower u d) ->
   translate_date u compile tr (JStr d) = Ok (Unicode.lower u d)) /\
  (valid_replacements compile tr ->
   translate_date u compile tr (JStr "Today") = Ok "today").
Proof.
  intros Hd.
  assert (forall x, x <> "" ->
          translate_date u compile tr (JStr x)
          = translate_by_words u compile tr words (Unicode.lower u x)) as E.
  { intros x Hx. unfold translate_date. cbn [truthy].
    destruct (String.eqb_spec x ""); [contradiction|]. cbn [negb].
    apply translate_words_by_words, incl_refl. }
  assert (no_vocabulary_word u "today") as Ht.
  { intros w run Hw Hr. simpl in Hw.
    vm_compute in Hr.
    destruct Hr as [<-|[]].
    repeat (destruct Hw as [<-|Hw]; [reflexivity|]). contradiction. }
  split; [now apply E|]. split.
  - intros Hv Hn. rewrite E by assumption.
    now apply translate_by_words_absent; [apply incl_refl| |].
  - intros Hv. rewrite E by discriminate.
    change (Unicode.lower u "Today") with "today".
    now apply translate_by_words_absent; [apply incl_refl| |].
Qed.

Lemma translate_date_whole_words_witness :
  "Today, 2 DAYS ago" <> "" /\
  valid_replacements (compile_template lib_none) sample_translations /\
  translate_date ascii_tables (compile_template lib_none)
    sample_translations (JStr "Today, 2 DAYS ago")
  = Ok "today, 2 dias atras" /\
  translate_date ascii_tables (compile_template lib_none)
    sample_translations (JStr "Today")
  = Ok "today".
Proof.
  assert (valid_replacements (compile_template lib_none)
            sample_translations) as Hv.
  { intros w Hin H. simpl in Hin.
    repeat (destruct Hin as [<-|Hin]; [vm_compute in H; discriminate|]).
    contradiction. }
  pose proof (translate_date_whole_words ascii_tables
                (compile_template lib_none) sample_translations
                "Today, 2 DAYS ago" ltac:(discriminate)) as (E & _ & Ht).
  split; [discriminate|]. split; [exact Hv|]. split.
  - rewrite E. vm_compute. reflexivity.
  - exact (Ht Hv).
Defined.

(** ** View counts: the integer part *)

Lemma rne_cases a b :
  0 < b ->
  rne a b = a / b \/ (rne a b = a / b + 1 /\ b <= 2 * (a mod b)).
Proof.
  intros Hb. unfold rne.
  destruct (Z.ltb_spec (2 * (a mod b)) b); [now left|].
  destruct (Z.ltb_spec b (2 * (a mod b))); [right; split; lia|].
  destruct (Z.even (a / b)); [now left|right; split; lia].
Qed.

Lemma rne_floor n d P :
  0 <= n -> 0 < d -> 0 < P -> d < 2 * P ->
  rne (n * P) d / P = n / d.
Proof.
  intros Hn Hd HP HdP.
  pose proof (Z.div_mod n d ltac:(lia)) as En.
  pose proof (Z.mod_pos_bound n d Hd) as Br.
  pose proof (Z.div_mod (n * P) d ltac:(lia)) as Ea.
  pose proof (Z.mod_pos_bound (n * P) d Hd) as Brem.
  pose proof (rne_cases (n * P) d Hd) as Hc.
  remember (rne (n * P) d) as m eqn:Em. clear Em.
  set (I := n / d) in *. set (r := n mod d) in *.
  set (q := n * P / d) in *. set (rem := (n * P) mod d) in *.
  assert (P * I <= q) as Hlo by nia.
  assert (q < P * I + P) as Hhi by nia.
  assert (P * I <= m < P * I + P) as Hm.
  { destruct Hc as [->|[-> Hup]].
    - lia.
    - split; [lia|].
      destruct (Z.eq_dec q (P * I + P - 1)) as [Eq|]; [|lia].
      exfalso.
      assert (rem = d - (d - r) * P) as Erem by nia.
      nia. }
  symmetry. apply (Z.div_unique _ P I (m - P * I)); lia.
Qed.

Lemma binade_lower n d :
  0 < n -> 0 < d ->
  if 0 <=? binade n d then d * 2 ^ binade n d <= n
  else d <= n * 2 ^ (- binade n d).
Proof.
  intros Hn Hd. unfold binade.
  pose proof (Z.log2_spec n Hn) as [Ln Un].
  pose proof (Z.log2_spec d Hd) as [Ld Ud].
  pose proof (Z.log2_nonneg n) as Nn. pose proof (Z.log2_nonneg d) as Nd.
  set (ln := Z.log2 n) in *. set (ld := Z.log2 d) in *.
  destruct (Z.leb_spec 0 (ln - ld)) as [Hc|Hc].
  - destruct (Z.leb_spec (d * 2 ^ (ln - ld)) n) as [Ht|Ht].
    + destruct (Z.leb_spec 0 (ln - ld)); lia.
    + destruct (Z.leb_spec 0 (ln - ld - 1)) as [Hc'|Hc'].
      * assert (2 ^ ln = 2 ^ (ld + 1) * 2 ^ (ln - ld - 1)) as E.
        { rewrite <- Z.pow_add_r by lia. f_equal. lia. }
        replace (Z.succ ld) with (ld + 1) in Ud by lia.
        pose proof (Z.pow_pos_nonneg 2 (ln - ld - 1) ltac:(lia) Hc').
        nia.
      * replace (- (ln - ld - 1)) with 1 by lia.
        replace ln with ld in * by lia.
        replace (Z.succ ld) with (ld + 1) in Ud by lia.
        rewrite Z.pow_add_r in Ud by lia. lia.
  - destruct (Z.leb_spec d (n * 2 ^ (- (ln - ld)))) as [Ht|Ht].
    + destruct (Z.leb_spec 0 (ln - ld)); lia.
    + destruct (Z.leb_spec 0 (ln - ld - 1)); [lia|].
      assert (2 ^ (ld + 1) = 2 ^ ln * 2 ^ (- (ln - ld - 1))) as E.
      { rewrite <- Z.pow_add_r by lia. f_equal. lia. }
      replace (Z.succ ld) with (ld + 1) in Ud by lia.
      pose proof (Z.pow_pos_nonneg 2 (- (ln - ld - 1)) ltac:(lia) ltac:(lia)).
      nia.
Qed.

Lemma binade_upper n d :
  0 < n -> 0 < d ->
  if 0 <=? binade n d + 1 then n < d * 2 ^ (binade n d + 1)
  else n * 2 ^ (- (binade n d + 1)) < d.
Proof.
  intros Hn Hd. unfold binade.
  pose proof (Z.log2_spec n Hn) as [Ln Un].
  pose proof (Z.log2_spec d Hd) as [Ld Ud].
  pose proof (Z.log2_nonneg n) as Nn. pose proof (Z.log2_nonneg d) as Nd.
  set (ln := Z.log2 n) in *. set (ld := Z.log2 d) in *.
  replace (Z.succ ln) with (ln + 1) in Un by lia.
  destruct (Z.leb_spec 0 (ln - ld)) as [Hc|Hc].
  - destruct (Z.leb_spec (d * 2 ^ (ln - ld)) n) as [Ht|Ht].
    + destruct (Z.leb_spec 0 (ln - ld + 1)); [|lia].
      assert (2 ^ (ln + 1) = 2 ^ ld * 2 ^ (ln - ld + 1)) as E.
      { rewrite <- Z.pow_add_r by lia. f_equal. lia. }
      pose proof (Z.pow_pos_nonneg 2 (ln - ld + 1) ltac:(lia) ltac:(lia)).
      nia.
    + replace (ln - ld - 1 + 1) with (ln - ld) by lia.
      destruct (Z.leb_spec 0 (ln - ld)); lia.
  - destruct (Z.leb_spec d (n * 2 ^ (- (ln - ld)))) as [Ht|Ht].
    + destruct (Z.leb_spec 0 (ln - ld + 1)) as [Hc'|Hc'].
      * replace (ln - ld + 1) with 0 by lia.
        replace ld with (ln + 1) in * by lia. simpl. lia.
      * assert (2 ^ ld = 2 ^ (ln + 1) * 2 ^ (- (ln - ld + 1))) as E.
        { rewrite <- Z.pow_add_r by lia. f_equal. lia. }
        pose proof (Z.pow_pos_nonneg 2 (- (ln - ld + 1)) ltac:(lia) ltac:(lia)).
        nia.
    + replace (ln - ld - 1 + 1) with (ln - ld) by lia.
      destruct (Z.leb_spec 0 (ln - ld)); lia.
Qed.

Lemma rne_nonneg a b : 0 <= a -> 0 < b -> 0 <= rne a b.
Proof.
  intros Ha Hb. pose proof (Z.div_pos a b Ha Hb).
  destruct (rne_cases a b Hb) as [->|[-> _]]; lia.
Qed.

Lemma rne_one n : rne n 1 = n.
Proof.
  unfold rne. rewrite Z.mod_1_r, Z.div_1_r. reflexivity.
Qed.

(** A numeral whose digits, read as one integer, stay below [2^53] is
    truncated exactly: [int(float(s))] is the integer part. *)
Lemma int_round_exact n d :
  0 <= n < 2 ^ 53 -> 0 < d ->
  int_of_float (round_double n d) = Ok (n / d).
Proof.
  intros [Hn0 Hn] Hd. unfold round_double.
  destruct (Z.eqb_spec n 0) as [->|Hnz].
  { simpl. now rewrite Z.div_0_l by lia. }
  assert (0 < n) as Hpos by lia.
  pose proof (binade_lower n d Hpos Hd) as Lo.
  pose proof (binade_upper n d Hpos Hd) as Up.
  set (c := binade n d) in *.
  destruct (Z.leb_spec 0 (Z.max (c - 52) (-1074))) as [He|He].
  - (* the value is an integer of at least 2^52 *)
    assert (52 <= c) as Hc by lia.
    replace (Z.max (c - 52) (-1074)) with (c - 52) by lia.
    destruct (Z.leb_spec 0 c); [|lia].
    assert (2 ^ c = 2 ^ 52 * 2 ^ (c - 52)) as E.
    { rewrite <- Z.pow_add_r by lia. f_equal; lia. }
    pose proof (Z.pow_pos_nonneg 2 (c - 52) ltac:(lia) ltac:(lia)) as Hp.
    assert (2 ^ 53 = 2 ^ 52 * 2) as E53 by reflexivity.
    assert (0 < 2 ^ 52) as H52 by reflexivity.
    assert (d * 2 ^ (c - 52) = 1) as E1 by nia.
    assert (d = 1 /\ 2 ^ (c - 52) = 1) as [-> E2] by nia.
    rewrite E2. rewrite rne_one.
    destruct (Z.leb_spec (2 ^ 1024) (n * 1)) as [Hov|_].
    { exfalso. assert (2 ^ 53 < 2 ^ 1024) by (apply Z.pow_lt_mono_r; lia). lia. }
    unfold int_of_float.
    destruct (Z.leb_spec 0 (c - 52)); [|lia].
    rewrite E2. f_equal. rewrite Z.div_1_r. lia.
  - set (e := Z.max (c - 52) (-1074)) in *.
    unfold int_of_float.
    destruct (Z.leb_spec 0 e); [lia|].
    assert (0 < 2 ^ (- e)) as HP by (apply Z.pow_pos_nonneg; lia).
    rewrite Z.quot_div_nonneg by (try apply rne_nonneg; nia).
    f_equal.
    destruct (Z.le_gt_cases (-1074) (c - 52)) as [Hnorm|Hsub].
    + (* normal: 53 significant bits *)
      replace e with (c - 52) in * by lia.
      apply rne_floor; try lia.
      replace (- (c - 52)) with (52 - c) by lia.
      assert (2 * 2 ^ (52 - c) = 2 ^ (53 - c)) as E.
      { replace (53 - c) with (1 + (52 - c)) by lia.
        rewrite Z.pow_add_r by lia. reflexivity. }
      rewrite E.
      destruct (Z.leb_spec 0 c) as [Hc|Hc].
      * assert (2 ^ 53 = 2 ^ c * 2 ^ (53 - c)) as E53.
        { rewrite <- Z.pow_add_r by lia. f_equal; lia. }
        pose proof (Z.pow_pos_nonneg 2 c ltac:(lia) Hc).
        pose proof (Z.pow_pos_nonneg 2 (53 - c) ltac:(lia) ltac:(lia)).
        nia.
      * assert (2 ^ (53 - c) = 2 ^ 53 * 2 ^ (- c)) as E53.
        { rewrite <- Z.pow_add_r by lia. f_equal; lia. }
        pose proof (Z.pow_pos_nonneg 2 (- c) ltac:(lia) ltac:(lia)).
        nia.
    + (* below the smallest normal number *)
      replace e with (-1074) in * by lia.
      destruct (Z.leb_spec 0 (c + 1)); [lia|].
      assert (2 ^ (- (c + 1)) = 2 ^ 1022 * 2 ^ (- (c + 1) - 1022)) as Ec.
      { rewrite <- Z.pow_add_r by lia. f_equal; lia. }
      pose proof (Z.pow_pos_nonneg 2 (- (c + 1) - 1022) ltac:(lia) ltac:(lia)).
      assert (0 < 2 ^ 1022) as H1022 by (apply Z.pow_pos_nonneg; lia).
      assert (n * 2 ^ 1022 < d) as Hsmall by nia.
      rewrite (Z.div_small n d) by nia.
      replace (- -1074) with 1074 in * by lia.
      assert (2 ^ 1074 = 2 ^ 1022 * 2 ^ 52) as E74.
      { rewrite <- Z.pow_add_r by lia. reflexivity. }
      assert (0 < 2 ^ 52) as H52 by reflexivity.
      assert (2 ^ 52 < 2 ^ 1074) as Hlt by (apply Z.pow_lt_mono_r; lia).
      assert (n * 2 ^ 1074 / d < 2 ^ 52) as Hq.
      { apply Z.div_lt_upper_bound; [lia|]. rewrite E74. nia. }
      apply Z.div_small. split; [apply rne_nonneg; nia|].
      destruct (rne_cases (n * 2 ^ 1074) d Hd) as [->|[-> _]]; lia.
Qed.

Lemma digit_value u c d :
  Unicode.digit_cp u c = Some d -> 0 <= d <= 9.
Proof.
  unfold Unicode.digit_cp. intros H.
  assert (forall a, is_digit a = true ->
          0 <= Z.of_nat (nat_of_ascii a - 48) <= 9) as Ha.
  { intros a Da. unfold is_digit in Da. apply andb_true_iff in Da.
    destruct Da as [A B]. apply Nat.leb_le in A, B. lia. }
  assert (forall s, match Unicode.uni_digit u s with
                    | Some x => if (x <=? 9)%nat then Some (Z.of_nat x)
                                else None
                    | None => None
                    end = Some d -> 0 <= d <= 9) as Hu.
  { intros s Hs. destruct (Unicode.uni_digit u s) as [x|]; [|discriminate].
    destruct (x <=? 9)%nat eqn:L; [|discriminate].
    apply Nat.leb_le in L. injection Hs as <-. lia. }
  destruct c as [|a [|b r]]; [now apply (Hu "")| |now apply (Hu (String a (String b r)))].
  destruct (Unicode.is_ascii_char a); [|discriminate].
  destruct (is_digit a) eqn:Da; [|discriminate].
  injection H as <-. now apply Ha.
Qed.

Lemma decimal_digits_bound u g :
  forall acc dot k n k',
    0 <= acc ->
    decimal_digits u g acc dot k = Some (n, k') ->
    acc <= n /\ n + 1 <= (acc + 1) * 10 ^ Z.of_nat (List.length g).
Proof.
  induction g as [|c r IH]; intros acc dot k n k' Hacc H.
  - simpl in H. inversion H; subst. simpl. lia.
  - cbn [decimal_digits] in H.
    assert (10 ^ Z.of_nat (List.length (c :: r))
            = 10 * 10 ^ Z.of_nat (List.length r)) as E.
    { cbn [List.length]. rewrite Nat2Z.inj_succ, Z.pow_succ_r by lia.
      reflexivity. }
    rewrite E.
    pose proof (Z.pow_pos_nonneg 10 (Z.of_nat (List.length r))
                  ltac:(lia) ltac:(lia)) as Hp.
    destruct (Unicode.digit_cp u c) as [d|] eqn:Dc.
    + pose proof (digit_value u c d Dc) as Dv.
      apply IH in H; [|lia]. nia.
    + destruct (String.eqb c "."); [|discriminate].
      destruct dot; [discriminate|].
      apply IH in H; [|lia]. nia.
Qed.

(** C9, as stated, fails: [float] rounds a numeral that has more digits
    than a binary64 number holds, and the rounding can reach the next
    integer before [int] truncates. *)
Lemma long_numeral_rounds_up :
  ~ (forall u tr v g n k,
       v <> "" ->
       search_numeral u (Unicode.cps (working u v)) = Some g ->
       decimal_digits u g 0 false 0 = Some (n, k) ->
       (0 < k)%nat ->
       format_views u tr (JStr v)
       = suffixed tr (classify (working u v)) (n / 10 ^ Z.of_nat k)).
Proof.
  intros H.
  specialize (H ascii_tables no_translations "1.99999999999999999999M"
                (Unicode.cps "1.99999999999999999999")
                199999999999999999999 20%nat).
  vm_compute in H.
  specialize (H ltac:(discriminate) eq_refl eq_refl ltac:(lia)).
  discriminate.
Qed.

(** C9, amended. When the numeral found in the text, read without its
    point, is below [2^53] (which every numeral of at most 15 characters
    is), [format_views] truncates: the integer it prints is the integer
    part of the numeral, followed by the suffix of the magnitude. The
    numeral is the first run of digits and points that starts with a
    digit, digits of other scripts included, in the lower-case text with
    its commas turned into points. *)
Theorem format_views_truncates u tr v g n k :
  v <> "" ->
  search_numeral u (Unicode.cps (working u v)) = Some g ->
  decimal_digits u g 0 false 0 = Some (n, k) ->
  (List.length g <= 15)%nat \/ n < 2 ^ 53 ->
  format_views u tr (JStr v)
  = suffixed tr (classify (working u v)) (n / 10 ^ Z.of_nat k).
Proof.
  intros Hv Hg Hd Hsmall.
  destruct (decimal_digits_bound u g 0 false 0%nat n k ltac:(lia) Hd)
    as [Hn0 Hup].
  assert (n < 2 ^ 53) as Hn.
  { destruct Hsmall as [Hlen|]; [|assumption].
    assert (10 ^ Z.of_nat (List.length g) <= 10 ^ 15) as Hle
      by (apply Z.pow_le_mono_r; lia).
    assert (10 ^ 15 < 2 ^ 53) by reflexivity. lia. }
  unfold format_views, format_views_body. cbn [truthy].
  destruct (String.eqb_spec v ""); [contradiction|]. cbn [negb].
  fold (working u v). rewrite Hg.
  unfold float_of_numeral. rewrite Hd. cbn [bind].
  rewrite int_round_exact;
    [|split; [lia|assumption]|apply Z.pow_pos_nonneg; lia].
  destruct (classify (working u v)); reflexivity.
Qed.

Lemma format_views_truncates_witness :
  format_views ascii_tables no_translations (JStr "1.99M") = "1 mi" /\
  format_views sample_tables no_translations
    (JStr (arabic_three ++ "1,99M")) = "31 mi".
Proof.
  split.
  - apply (format_views_truncates ascii_tables no_translations "1.99M"
             (Unicode.cps "1.99") 199 2%nat).
    + discriminate.
    + reflexivity.
    + reflexivity.
    + left. simpl. lia.
  - apply (format_views_truncates sample_tables no_translations
             (arabic_three ++ "1,99M")
             (arabic_three :: Unicode.cps "1.99") 3199 2%nat).
    + discriminate.
    + reflexivity.
    + reflexivity.
    + left. simpl. lia.
Defined.

(** * Further properties *)

Import Notions Startup.

(** ** [download_and_cache] *)

(** X1. A resolution that returns [None] was a miss whose download
    failed: it sent exactly one request, for the URL it was given, and
    left the files as they were. *)
Theorem download_failure_leaves_cache o path url is_ch w w1 :
  download_and_cache o path url is_ch w = (None, w1) ->
  exists_ w path = false /\
  files w1 = files w /\
  requests w1 = (requests w ++ [url])%list.
Proof.
  unfold download_and_cache, session_get. intros H.
  destruct (exists_ w path); [discriminate|].
  destruct (http_get o _ url) as [content|e].
  - destruct (image_ok o content && writable o path); [discriminate|].
    inversion H; subst. auto.
  - inversion H; subst. auto.
Qed.

Lemma download_failure_leaves_cache_witness :
  exists_ empty_world "/c/v_abc.png" = false /\
  files {| files := []; requests := ["https://yt/a.jpg"] |}
  = files empty_world /\
  requests {| files := []; requests := ["https://yt/a.jpg"] |}
  = (requests empty_world ++ ["https://yt/a.jpg"])%list.
Proof.
  apply (download_failure_leaves_cache offline "/c/v_abc.png"
           "https://yt/a.jpg" false empty_world).
  reflexivity.
Defined.

(** X2. The cache only grows, and by the requested path at most: a file
    exists after a resolution exactly when it existed before or it is the
    path the resolution returned. *)
Theorem download_only_adds_path o path url is_ch w q :
  exists_ (snd (download_and_cache o path url is_ch w)) q = true <->
  exists_ w q = true \/
  (fst (download_and_cache o path url is_ch w) = Some path /\ q = path).
Proof.
  unfold download_and_cache, session_get.
  destruct (exists_ w path) eqn:Ex; simpl.
  - split; [auto|]. intros [H|[_ ->]]; assumption.
  - destruct (http_get o _ url) as [content|e]; simpl.
    + destruct (image_ok o content && writable o path); simpl.
      * unfold exists_. simpl. rewrite orb_true_iff.
        split.
        -- intros [H|H]; [|now left]. right. split; [reflexivity|].
           now apply String.eqb_eq.
        -- intros [H|[_ ->]]; [now right|]. left. apply String.eqb_refl.
      * split; [auto|]. intros [H|[H _]]; [assumption|discriminate].
    + split; [auto|]. intros [H|[H _]]; [assumption|discriminate].
Qed.

(** ** [on_event]: the degraded paths *)

(** X3. When the search request fails with a [RequestException],
    [on_event] returns the network-error item alone; the search URL was
    the only request and no thumbnail task was submitted. *)
Theorem network_failure_single_item lib o sched ext argument w :
  (3 <= PyStr.len (query_of argument))%nat ->
  http_get o (List.length (requests w)) (search_url_of (query_of argument))
  = Raise RequestException ->
  on_event lib o sched ext argument w
  = (Ok [network_error_item ext],
     initial {| files := files w;
                requests :=
                  (requests w ++ [search_url_of (query_of argument)])%list |}).
Proof.
  intros Hq Hget. unfold on_event.
  destruct (Nat.ltb_spec (PyStr.len (query_of argument)) 3); [lia|].
  unfold try_body, session_get. now rewrite Hget.
Qed.

Lemma network_failure_single_item_witness :
  on_event lib_none offline [] (ext_of 7 "channel" "layout_inverted")
    (Some "cats") empty_world
  = (Ok [network_error_item (ext_of 7 "channel" "layout_inverted")],
     initial {| files := files empty_world;
                requests :=
                  (requests empty_world
                   ++ [search_url_of (query_of (Some "cats"))])%list |}).
Proof.
  apply network_failure_single_item.
  - vm_compute. lia.
  - reflexivity.
Defined.

(** X4. A payload that [json.loads] accepts but that is not a dictionary
    (a list, a string, a number, [null]) makes the first [data.get] raise;
    the outer handler answers with the generic error item alone. *)
Theorem non_dict_payload_error_item lib o sched ext argument w text data :
  (3 <= PyStr.len (query_of argument))%nat ->
  http_get o (List.length (requests w)) (search_url_of (query_of argument))
  = Ok text ->
  parse_page lib text = Ok data ->
  (forall kvs, data <> JObj kvs) ->
  fst (on_event lib o sched ext argument w) = Ok [internal_error_item ext].
Proof.
  intros Hq Hget Hp Hd. unfold on_event.
  destruct (Nat.ltb_spec (PyStr.len (query_of argument)) 3); [lia|].
  unfold try_body, session_get. rewrite Hget, Hp.
  unfold after_parse, contents_of.
  destruct data; try reflexivity. now destruct (Hd kvs).
Qed.

Lemma non_dict_payload_error_item_witness :
  fst (on_event (lib_of "[]" (JArr []))
         (online "var ytInitialData = [];</script>") []
         (ext_of 7 "channel" "layout_inverted") (Some "cats") empty_world)
  = Ok [internal_error_item (ext_of 7 "channel" "layout_inverted")].
Proof.
  apply (non_dict_payload_error_item (lib_of "[]" (JArr []))
           (online "var ytInitialData = [];</script>") []
           (ext_of 7 "channel" "layout_inverted") (Some "cats") empty_world
           "var ytInitialData = [];</script>" (JArr [])).
  - vm_compute. lia.
  - reflexivity.
  - reflexivity.
  - discriminate.
Defined.

(** X5. A payload that yields no video entry (for instance a dictionary
    without the [contents] key) is not an error: the result is the
    browser item alone, and nothing is fetched beside the page. *)
Theorem no_entries_browser_item lib o sched ext argument w text data contents :
  (3 <= PyStr.len (query_of argument))%nat ->
  http_get o (List.length (requests w)) (search_url_of (query_of argument))
  = Ok text ->
  parse_page lib text = Ok data ->
  contents_of data = Ok contents ->
  extract_videos (max_results (ext_preferences ext)) contents = Ok [] ->
  on_event lib o sched ext argument w
  = (Ok [browser_item ext (query_of argument)],
     initial {| files := files w;
                requests :=
                  (requests w ++ [search_url_of (query_of argument)])%list |}).
Proof.
  intros Hq Hget Hp Hc He. unfold on_event.
  destruct (Nat.ltb_spec (PyStr.len (query_of argument)) 3); [lia|].
  unfold try_body, session_get. rewrite Hget, Hp.
  unfold after_parse. rewrite Hc, He. reflexivity.
Qed.

Lemma no_entries_browser_item_witness :
  on_event (lib_of "{}" (JObj []))
    (online "var ytInitialData = {};</script>") []
    (ext_of 7 "channel" "layout_inverted") (Some "cats") empty_world
  = (Ok [browser_item (ext_of 7 "channel" "layout_inverted")
           (query_of (Some "cats"))],
     initial {| files := files empty_world;
                requests :=
                  (requests empty_world
                   ++ [search_url_of (query_of (Some "cats"))])%list |}).
Proof.
  apply (no_entries_browser_item (lib_of "{}" (JObj []))
           (online "var ytInitialData = {};</script>") []
           (ext_of 7 "channel" "layout_inverted") (Some "cats") empty_world
           "var ytInitialData = {};</script>" (JObj []) (JArr [])).
  - vm_compute. lia.
  - reflexivity.
  - reflexivity.
  - reflexivity.
  - reflexivity.
Defined.

(** ** [on_event]: how many items *)

Lemma scan_items_len m item_list :
  forall acc vs,
    len acc < Z.max m 1 ->
    scan_items m item_list acc = Ok vs ->
    len vs <= Z.max m 1 /\ (m <= len vs \/ len vs < Z.max m 1).
Proof.
  induction item_list as [|it rest IH]; simpl; intros acc vs Hacc H.
  - inversion H; subst. lia.
  - destruct (get it "videoRenderer" JNull) as [v|e]; simpl in H; [|discriminate].
    destruct (truthy v); [|now apply (IH acc)].
    destruct (Z.leb_spec m (len (acc ++ [v]))) as [Hge|Hlt].
    + inversion H; subst. rewrite len_app in *. unfold len in *. simpl in *. lia.
    + apply (IH (acc ++ [v])%list); [|assumption]. lia.
Qed.

Lemma scan_sections_len m sections :
  forall acc vs,
    len acc < Z.max m 1 ->
    scan_sections m sections acc = Ok vs ->
    len vs <= Z.max m 1.
Proof.
  induction sections as [|sec rest IH]; simpl; intros acc vs Hacc H.
  - inversion H; subst. lia.
  - destruct (get sec "itemSectionRenderer" (JObj [])) as [isr|e];
      simpl in H; [|discriminate].
    destruct (get isr "contents" (JArr [])) as [cl|e]; simpl in H; [|discriminate].
    destruct (iter cl) as [item_list|e]; simpl in H; [|discriminate].
    destruct (scan_items m item_list acc) as [videos'|e] eqn:E; simpl in H;
      [|discriminate].
    destruct (scan_items_len m item_list acc videos' Hacc E) as [Hle Hor].
    destruct (Z.leb_spec m (len videos')) as [Hge|Hlt].
    + now inversion H; subst.
    + apply (IH videos'); [lia|assumption].
Qed.

Lemma extract_videos_len m contents vs :
  extract_videos m contents = Ok vs -> len vs <= Z.max m 1.
Proof.
  unfold extract_videos. intros H.
  destruct (iter contents) as [sections|e]; simpl in H; [|discriminate].
  apply (scan_sections_len m sections [] vs); [|assumption].
  unfold len. simpl. lia.
Qed.

Lemma render_video_one lib ext tp v new :
  render_video lib ext tp v = Ok new -> (List.length new <= 1)%nat.
Proof.
  intros H. unfold render_video in H.
  repeat match type of H with
  | bind ?x _ = _ => destruct x; simpl in H; [|discriminate]
  end.
  repeat match type of H with
  | (if ?c then _ else _) = _ => destruct c
  end; inversion H; subst; simpl; lia.
Qed.

Lemma render_loop_len lib ext tp videos :
  forall items res,
    render_loop lib ext tp videos items = Ok res ->
    (List.length res <= List.length items + List.length videos)%nat.
Proof.
  induction videos as [|v rest IH]; simpl; intros items res H.
  - inversion H; subst. lia.
  - destruct (render_video lib ext tp v) as [new|e] eqn:E; simpl in H;
      [|discriminate].
    apply render_video_one in E. apply IH in H.
    rewrite length_app in H. lia.
Qed.

(** X6. The result list is bounded by the preference: one browser item
    and at most [max_results] video items, or one video item when
    [max_results] is below one, since the loops test the bound only after
    an entry has been appended. *)
Theorem result_count_bounded lib o sched ext argument w :
  exists items,
    fst (on_event lib o sched ext argument w) = Ok items /\
    Z.of_nat (List.length items)
    <= 1 + Z.max (max_results (ext_preferences ext)) 1.
Proof.
  unfold on_event.
  destruct (PyStr.len (query_of argument) <? 3)%nat.
  { eexists. split; [reflexivity|]. cbn [List.length]. lia. }
  destruct (try_body lib o sched ext (query_of argument) w)
    as [[items|e] s] eqn:E.
  2:{ eexists. split; [reflexivity|]. cbn [List.length]. lia. }
  exists items. split; [reflexivity|].
  unfold try_body in E.
  destruct (session_get o _ w) as [[text|e] w1].
  2:{ destruct e; inversion E; subst; cbn [List.length]; lia. }
  destruct (parse_page lib text) as [data|e].
  2:{ inversion E; subst. cbn [List.length]. lia. }
  unfold after_parse in E.
  destruct (contents_of data) as [contents|e]; [|discriminate].
  destruct (extract_videos _ contents) as [videos|e] eqn:Ev; [|discriminate].
  destruct (thumb_loop lib ext o sched videos [] (initial w1))
    as [[tp|e] s1]; [|discriminate].
  injection E as E1 E2.
  destruct (collect _ tp) as [tp'|e]; simpl in E1; [|discriminate].
  apply render_loop_len in E1. apply extract_videos_len in Ev.
  unfold len in Ev. cbn [List.length] in E1. lia.
Qed.

Lemma render_loop_unknown_layout lib ext tp videos :
  search_layout (ext_preferences ext) <> "layout_classic" ->
  search_layout (ext_preferences ext) <> "layout_inverted" ->
  search_layout (ext_preferences ext) <> "layout_minimal" ->
  forall items res,
    render_loop lib ext tp videos items = Ok res -> res = items.
Proof.
  intros H1 H2 H3.
  induction videos as [|v rest IH]; simpl; intros items res H.
  - now inversion H.
  - destruct (render_video lib ext tp v) as [new|e] eqn:E; simpl in H;
      [|discriminate].
    assert (new = []) as ->.
    { unfold render_video in E.
      repeat match type of E with
      | bind ?x _ = _ => destruct x; simpl in E; [|discriminate]
      end.
      destruct (String.eqb_spec (search_layout (ext_preferences ext))
                  "layout_classic"); [contradiction|].
      destruct (String.eqb_spec (search_layout (ext_preferences ext))
                  "layout_inverted"); [contradiction|].
      destruct (String.eqb_spec (search_layout (ext_preferences ext))
                  "layout_minimal"); [contradiction|].
      now inversion E. }
    rewrite app_nil_r in H. now apply IH.
Qed.

(** X7. The layout chain has no [else]: with a layout preference that is
    none of the three names no video item is built, and [on_event]
    returns a single item on every path. *)
Theorem unknown_layout_single_item lib o sched ext argument w :
  search_layout (ext_preferences ext) <> "layout_classic" ->
  search_layout (ext_preferences ext) <> "layout_inverted" ->
  search_layout (ext_preferences ext) <> "layout_minimal" ->
  exists it, fst (on_event lib o sched ext argument w) = Ok [it].
Proof.
  intros H1 H2 H3. unfold on_event.
  destruct (PyStr.len (query_of argument) <? 3)%nat.
  { eexists. reflexivity. }
  destruct (try_body lib o sched ext (query_of argument) w)
    as [[items|e] s] eqn:E.
  2:{ eexists. reflexivity. }
  unfold try_body in E.
  destruct (session_get o _ w) as [[text|e] w1].
  2:{ destruct e; inversion E; subst; eexists; reflexivity. }
  destruct (parse_page lib text) as [data|e].
  2:{ inversion E; subst. eexists. reflexivity. }
  unfold after_parse in E.
  destruct (contents_of data) as [contents|e]; [|discriminate].
  destruct (extract_videos _ contents) as [videos|e]; [|discriminate].
  destruct (thumb_loop lib ext o sched videos [] (initial w1))
    as [[tp|e] s1]; [|discriminate].
  injection E as E1 E2.
  destruct (collect _ tp) as [tp'|e]; simpl in E1; [|discriminate].
  apply (render_loop_unknown_layout lib ext tp' videos H1 H2 H3) in E1.
  subst. eexists. reflexivity.
Qed.

Lemma unknown_layout_single_item_witness :
  exists it,
    fst (on_event (lib_of sample_json_text sample_page)
           (online body_without_suffix) []
           (ext_of 7 "none" "layout_grid") (Some "cats") empty_world)
    = Ok [it].
Proof.
  apply unknown_layout_single_item; discriminate.
Defined.

(** X8. When the payload holds fewer matching entries than the
    preference allows, the loops return all of them, in document order. *)
Theorem fewer_entries_all_returned m contents all :
  all_matching contents = Ok all ->
  len all < m ->
  extract_videos m contents = Ok all.
Proof.
  intros Hall Hlen. unfold extract_videos, all_matching in *.
  destruct (iter contents) as [sections|e]; simpl in *; [|discriminate].
  rewrite (scan_sections_firstn m sections [] all); [| |exact Hall].
  - simpl. now rewrite firstn_short by lia.
  - unfold len in *. simpl. lia.
Qed.

Lemma fewer_entries_all_returned_witness :
  extract_videos 25 twenty_contents = Ok twenty_entries.
Proof.
  apply fewer_entries_all_returned.
  - vm_compute. reflexivity.
  - vm_compute. reflexivity.
Defined.

(** ** The worker pool *)

Lemma download_keeps_files o path url is_ch w q :
  exists_ w q = true ->
  exists_ (snd (download_and_cache o path url is_ch w)) q = true.
Proof.
  intros H. unfold download_and_cache, session_get.
  destruct (exists_ w path); [assumption|].
  destruct (http_get o _ url) as [content|e]; [|assumption].
  destruct (image_ok o content && writable o path); [|assumption].
  unfold exists_ in *. simpl. rewrite H. apply orb_true_r.
Qed.

Lemma run_tasks_keeps o n :
  forall s,
    submitted (run_tasks o n s) = submitted s /\
    (forall q, exists_ (st_world s) q = true ->
               exists_ (st_world (run_tasks o n s)) q = true) /\
    (List.length (completed (run_tasks o n s))
     + List.length (pending (run_tasks o n s))
     = List.length (completed s) + List.length (pending s))%nat.
Proof.
  induction n as [|k IH]; intros s; simpl; [auto|].
  destruct (pending s) as [|t rest] eqn:Ep; [rewrite Ep; auto|].
  destruct (download_and_cache o (t_path t) (t_url t) (t_is_channel t)
              (st_world s)) as [res w'] eqn:Ed.
  match goal with |- context [run_tasks o k ?s0] =>
    destruct (IH s0) as (A & B & C) end.
  simpl in *. split; [exact A|]. split.
  - intros q Hq. apply B.
    pose proof (download_keeps_files o (t_path t) (t_url t) (t_is_channel t)
                  (st_world s) q Hq) as K.
    now rewrite Ed in K.
  - rewrite C. rewrite length_app. simpl. lia.
Qed.

Lemma run_tasks_all o n :
  forall s, (List.length (pending s) <= n)%nat ->
            pending (run_tasks o n s) = [].
Proof.
  induction n as [|k IH]; intros s H; simpl.
  - destruct (pending s); [reflexivity|simpl in H; lia].
  - destruct (pending s) as [|t rest] eqn:Ep; [assumption|].
    destruct (download_and_cache o (t_path t) (t_url t) (t_is_channel t)
                (st_world s)) as [res w'].
    apply IH. simpl in *. lia.
Qed.

Lemma absolute_url_not_relative u : startswith "//" (absolute_url u) = false.
Proof.
  unfold absolute_url. destruct (startswith "//" u) eqn:E; [reflexivity|exact E].
Qed.

(** What one iteration does to the pool: nothing, or one more task, for
    a path that does not exist and with an absolute URL. *)
Lemma thumb_step_pool lib ext v tp s tp' s' :
  thumb_step lib ext v tp s = Ok (tp', s') ->
  s' = s \/
  exists t, s' = submit t s /\
            exists_ (st_world s) (t_path t) = false /\
            startswith "//" (t_url t) = false.
Proof.
  unfold thumb_step. intros H.
  destruct (get v "videoId" JNull) as [v_id|]; simpl in H; [|discriminate].
  destruct (channel_id v v_id) as [c|]; simpl in H; [|discriminate].
  destruct (String.eqb (thumb_type (ext_preferences ext)) "none").
  { destruct (dict_set tp v_id icon_default); simpl in H; [|discriminate].
    inversion H; subst. now left. }
  match type of H with
  | (if exists_ ?w ?p then _ else _) = _ => destruct (exists_ w p) eqn:Ex
  end.
  { match type of H with bind ?x _ = _ => destruct x end; simpl in H;
      [|discriminate].
    inversion H; subst. now left. }
  destruct (thumb_url _ v) as [t_url|]; simpl in H; [|discriminate].
  destruct (truthy t_url); [|inversion H; subst; now left].
  destruct t_url; try discriminate.
  inversion H; subst. right. eexists. split; [reflexivity|].
  simpl. split; [exact Ex|apply absolute_url_not_relative].
Qed.

Lemma pool_ok_run o n w s : pool_ok w s -> pool_ok w (run_tasks o n s).
Proof.
  intros (A & B & C). destruct (run_tasks_keeps o n s) as (K1 & K2 & K3).
  split; [|split].
  - intros q Hq. apply K2, A, Hq.
  - intros t Ht. rewrite K1 in Ht. now apply B.
  - rewrite K1, K3. exact C.
Qed.

Lemma pool_ok_step lib ext v tp s tp' s' w :
  pool_ok w s ->
  thumb_step lib ext v tp s = Ok (tp', s') ->
  pool_ok w s'.
Proof.
  intros (A & B & C) H.
  destruct (thumb_step_pool _ _ _ _ _ _ _ H) as [->|(t & -> & Hx & Hu)].
  - exact (conj A (conj B C)).
  - split; [|split].
    + exact A.
    + intros t' Ht'. simpl in Ht'. apply in_app_or in Ht'.
      destruct Ht' as [Ht'|[<-|[]]]; [now apply B|].
      split; [|exact Hu].
      destruct (exists_ w (t_path t)) eqn:E; [|reflexivity].
      apply A in E. congruence.
    + simpl. rewrite !length_app. simpl. lia.
Qed.

Lemma pool_ok_loop lib ext o w videos :
  forall sched tp s r s',
    pool_ok w s ->
    thumb_loop lib ext o sched videos tp s = (r, s') ->
    pool_ok w s'.
Proof.
  induction videos as [|v rest IH]; simpl; intros sched tp s r s' Hs H.
  - now inversion H; subst.
  - pose proof (pool_ok_run o (hd O sched) w s Hs) as Hs1.
    destruct (thumb_step lib ext v tp (run_tasks o (hd O sched) s))
      as [[tp1 s2]|e] eqn:E.
    + eapply IH; [|exact H]. eapply pool_ok_step; eauto.
    + now inversion H; subst.
Qed.

Lemma pool_ok_initial w : pool_ok w (initial w).
Proof. split; [auto|]. split; [intros t []|reflexivity]. Qed.

Lemma pool_ok_on_event lib o sched ext argument w :
  pool_ok w (snd (on_event lib o sched ext argument w)).
Proof.
  unfold on_event.
  destruct (PyStr.len (query_of argument) <? 3)%nat;
    [apply pool_ok_initial|].
  assert (pool_ok w (snd (try_body lib o sched ext (query_of argument) w))) as K.
  { unfold try_body, session_get.
    set (w1 := {| files := files w; requests := _ |}).
    assert (pool_ok w (initial w1)) as H1.
    { split; [auto|]. split; [intros t []|reflexivity]. }
    destruct (http_get o _ _) as [text|e]; [|destruct e; exact H1].
    destruct (parse_page lib text) as [data|e]; [|exact H1].
    unfold after_parse.
    destruct (contents_of data) as [contents|e]; [|exact H1].
    destruct (extract_videos _ contents) as [videos|e]; [|exact H1].
    destruct (thumb_loop lib ext o sched videos [] (initial w1))
      as [[tp|e] s1] eqn:E; simpl.
    - apply pool_ok_run. eapply pool_ok_loop; eauto.
    - eapply pool_ok_loop; eauto. }
  destruct (try_body lib o sched ext (query_of argument) w) as [[items|e] s];
    exact K.
Qed.

(** X9. Cache hits are never handed to the pool, and no protocol-relative
    URL is fetched: every task [on_event] submits is for a path that did
    not exist when the query started, and its URL does not begin with
    two slashes. *)
Theorem submitted_tasks_are_misses lib o sched ext argument w :
  Forall (fun t => exists_ w (t_path t) = false /\
                   startswith "//" (t_url t) = false)
    (submitted (snd (on_event lib o sched ext argument w))).
Proof.
  destruct (pool_ok_on_event lib o sched ext argument w) as (_ & B & _).
  apply Forall_forall. exact B.
Qed.

(** X10. The join: unless [on_event] ends in the generic error item, it
    returns only when no submitted task is left pending, each one having
    delivered its result. *)
Theorem results_only_after_join lib o sched ext argument w items s :
  on_event lib o sched ext argument w = (Ok items, s) ->
  items <> [internal_error_item ext] ->
  pending s = [] /\
  List.length (completed s) = List.length (submitted s).
Proof.
  intros H Hne.
  assert (pending s = []) as Hp.
  { unfold on_event in H.
    destruct (PyStr.len (query_of argument) <? 3)%nat.
    { now inversion H; subst. }
    destruct (try_body lib o sched ext (query_of argument) w)
      as [[items'|e] s'] eqn:E.
    2:{ inversion H; subst. contradiction. }
    inversion H; subst; clear H.
    unfold try_body in E.
    destruct (session_get o _ w) as [[text|e] w1].
    2:{ destruct e; inversion E; subst; reflexivity. }
    destruct (parse_page lib text) as [data|e].
    2:{ now inversion E; subst. }
    unfold after_parse in E.
    destruct (contents_of data) as [contents|e]; [|discriminate].
    destruct (extract_videos _ contents) as [videos|e]; [|discriminate].
    destruct (thumb_loop lib ext o sched videos [] (initial w1))
      as [[tp|e] s1]; [|discriminate].
    injection E as E1 E2. subst s. now apply run_tasks_all. }
  split; [exact Hp|].
  destruct (pool_ok_on_event lib o sched ext argument w) as (_ & _ & C).
  rewrite H in C. simpl in C. rewrite Hp in C. simpl in C. lia.
Qed.

Lemma results_only_after_join_witness :
  exists items s,
    on_event (lib_of avatar_json_text avatar_page) (online avatar_body) []
      (ext_of 7 "channel" "layout_inverted") (Some "cats") empty_world
    = (Ok items, s) /\
    List.length (submitted s) = 1%nat /\
    pending s = [] /\
    List.length (completed s) = List.length (submitted s).
Proof.
  destruct (on_event (lib_of avatar_json_text avatar_page)
              (online avatar_body) []
              (ext_of 7 "channel" "layout_inverted") (Some "cats")
              empty_world) as [r s] eqn:E.
  assert (exists items, r = Ok items /\
                        items <> [internal_error_item
                                    (ext_of 7 "channel" "layout_inverted")] /\
                        List.length (submitted s) = 1%nat)
    as (items & -> & Hne & Hs).
  { vm_compute in E. injection E as <- <-.
    eexists. split; [reflexivity|]. split; [discriminate|reflexivity]. }
  exists items, s. split; [reflexivity|]. split; [exact Hs|].
  exact (results_only_after_join _ _ _ _ _ _ _ _ E Hne).
Defined.

(** ** Cache paths and URLs *)

Lemma append_length a b :
  String.length (a ++ b) = (String.length a + String.length b)%nat.
Proof. induction a as [|c a IH]; simpl; [reflexivity|now rewrite IH]. Qed.

Lemma append_cancel_l p a b : p ++ a = p ++ b -> a = b.
Proof.
  induction p as [|c p IH]; simpl; intros H; [exact H|].
  injection H as H. now apply IH.
Qed.

Lemma append_cancel_r s : forall a b, a ++ s = b ++ s -> a = b.
Proof.
  induction a as [|c a IH]; intros [|d b] H; simpl in H.
  - reflexivity.
  - apply (f_equal String.length) in H. simpl in H.
    rewrite append_length in H. lia.
  - apply (f_equal String.length) in H. simpl in H.
    rewrite append_length in H. lia.
  - injection H as -> H. f_equal. now apply IH.
Qed.

Lemma path_join_prefix d : exists p, forall n, path_join d n = p ++ n.
Proof.
  unfold path_join. destruct (String.eqb d ""); [now exists ""|].
  destruct (Text.last d) as [c|]; [|now exists ""].
  destruct (Ascii.eqb c "/").
  - now exists d.
  - exists (d ++ "/"). intros n.
    clear. induction d as [|a d IH]; simpl; [reflexivity|].
    f_equal. exact IH.
Qed.

(** X11. The cache path is an injective key: for string identifiers two
    paths in one directory are equal only when the mode is the same and
    the identifier of that mode is the same (the channel id in channel
    mode, the video id otherwise). *)
Theorem img_path_injective lib dir is_ch is_ch' c1 v1 c2 v2 :
  img_path_of lib dir is_ch (JStr c1) (JStr v1)
  = img_path_of lib dir is_ch' (JStr c2) (JStr v2) ->
  is_ch = is_ch' /\ (if is_ch then c1 = c2 else v1 = v2).
Proof.
  unfold img_path_of. destruct (path_join_prefix dir) as [p Hp].
  rewrite !Hp. intros H. apply append_cancel_l in H.
  destruct is_ch, is_ch'; simpl in H; try discriminate;
    injection H as H; (split; [reflexivity|]);
    now apply (append_cancel_r ".png").
Qed.

Lemma img_path_injective_witness :
  true = true /\ "UC1" = "UC1".
Proof.
  apply (img_path_injective lib_none "/c" true true "UC1" "a" "UC1" "b").
  reflexivity.
Defined.

Lemma no_space_after_replace q :
  contains " " (replace_char " " "+" q) = false.
Proof.
  induction q as [|c q IH]; [reflexivity|].
  unfold replace_char in *. cbn [map_chars contains startswith].
  rewrite IH. rewrite orb_false_r.
  destruct (Ascii.eqb_spec c " ") as [->|Hc]; [reflexivity|].
  rewrite andb_true_r. apply Ascii.eqb_neq. congruence.
Qed.

Lemma replace_char_get a b s :
  forall i,
    String.get i (replace_char a b s)
    = option_map (fun c => if Ascii.eqb c a then b else c) (String.get i s).
Proof.
  unfold replace_char. induction s as [|c s IH]; intros [|i];
    cbn [map_chars String.get option_map]; auto.
Qed.

Lemma replace_char_length a b s :
  String.length (replace_char a b s) = String.length s.
Proof.
  unfold replace_char. induction s as [|c s IH]; simpl; auto.
Qed.

(** X12. The search URL is the fixed address followed by the query with
    each of its spaces turned into a plus sign and every other character
    as it is (nothing else of the query is escaped): so the URL never
    holds a space, and a query without a space goes into it unchanged. *)
Theorem search_url_no_space q :
  (exists t,
     search_url_of q = "https://www.youtube.com/results?search_query=" ++ t /\
     String.length t = String.length q /\
     forall i c,
       String.get i q = Some c ->
       String.get i t = Some (if Ascii.eqb c " " then "+"%char else c)) /\
  contains " " (search_url_of q) = false /\
  (contains " " q = false ->
   search_url_of q = "https://www.youtube.com/results?search_query=" ++ q).
Proof.
  split; [|split].
  - exists (replace_char " " "+" q). split; [reflexivity|].
    split; [apply replace_char_length|].
    intros i c H. rewrite replace_char_get, H. reflexivity.
  - unfold search_url_of. cbn [append contains startswith Ascii.eqb Bool.eqb
      andb orb]. apply no_space_after_replace.
  - intros H. unfold search_url_of. f_equal.
    induction q as [|c q IH]; [reflexivity|].
    unfold replace_char in *. cbn [map_chars contains startswith] in *.
    apply orb_false_elim in H. destruct H as [H1 H2].
    rewrite andb_true_r in H1. rewrite Ascii.eqb_sym in H1.
    rewrite H1. now rewrite IH.
Qed.

(** ** [translate_date]: more *)

Lemma join_runs (rs : list (bool * list string)) :
  Unicode.join (map (fun run => Unicode.join (snd run)) rs)
  = Unicode.join (List.concat (map snd rs)).
Proof.
  induction rs as [|run rs IH]; [reflexivity|].
  cbn [map Unicode.join List.concat]. now rewrite join_app, IH.
Qed.

(** A word replaced by itself leaves the text as it is. *)
Lemma replace_words_same u w l :
  replace_words u w (Unicode.join w) l = Unicode.join l.
Proof.
  unfold replace_words.
  rewrite <- (runs_concat u l) at 2. rewrite <- join_runs.
  f_equal. apply map_ext. intros [b t]. unfold replace_run. cbn [fst snd].
  destruct b; [|reflexivity]. cbn [andb].
  destruct (cps_eqb t w) eqn:E; [|reflexivity].
  apply cps_eqb_eq in E. now subst.
Qed.

Lemma words_plain w : In w words -> contains "\" w = false.
Proof.
  intros H. simpl in H.
  repeat (destruct H as [<-|H]; [reflexivity|]).
  contradiction.
Qed.

Lemma translate_by_words_same u compile tr ws :
  incl ws words ->
  (forall w, In w ws -> tr w = None) ->
  forall text, translate_by_words u compile tr ws text = Ok text.
Proof.
  induction ws as [|w ws IH]; intros Hi Ht text; [reflexivity|].
  cbn [translate_by_words]. unfold replacement, i18n.
  rewrite (Ht w) by now left.
  rewrite words_plain by (apply Hi; now left). cbn [bind].
  rewrite <- (cps_join w) at 2.
  rewrite replace_words_same, cps_join.
  apply IH.
  - intros x Hx. apply Hi. now right.
  - intros x Hx. apply Ht. now right.
Qed.

(** X13. Where the translations have no entry for the vocabulary (the
    English default, or no translation file at all), every word is
    replaced by itself: [translate_date] returns its input in lower case,
    for every string. *)
Theorem translate_date_without_translations u compile tr d :
  (forall w, In w words -> tr w = None) ->
  translate_date u compile tr (JStr d) = Ok (Unicode.lower u d).
Proof.
  intros H. unfold translate_date. cbn [truthy].
  destruct (String.eqb_spec d "") as [->|Hd]; [reflexivity|]. cbn [negb].
  rewrite translate_words_by_words by apply incl_refl.
  apply translate_by_words_same; [apply incl_refl|assumption].
Qed.

Lemma translate_date_without_translations_witness :
  translate_date ascii_tables (compile_template lib_none) no_translations
    (JStr "3 Days Ago") = Ok "3 days ago" /\
  translate_date sample_tables (compile_template lib_none) no_translations
    (JStr (capital_e_acute ++ "DAY")) = Ok (e_acute ++ "day").
Proof.
  split.
  - apply (translate_date_without_translations ascii_tables
             (compile_template lib_none) no_translations "3 Days Ago").
    reflexivity.
  - apply (translate_date_without_translations sample_tables
             (compile_template lib_none) no_translations
             (capital_e_acute ++ "DAY")).
    reflexivity.
Defined.

Lemma lower_char_idem c : lower_char (lower_char c) = lower_char c.
Proof. destruct c as [[] [] [] [] [] [] [] []]; reflexivity. Qed.

Lemma lower_idem s : lower (lower s) = lower s.
Proof.
  unfold lower. induction s as [|c s IH]; simpl; [reflexivity|].
  now rewrite lower_char_idem, IH.
Qed.

Lemma lower_empty s : String.eqb (lower s) "" = String.eqb s "".
Proof. now destruct s. Qed.

Lemma is_ascii_lower_char c :
  Unicode.is_ascii_char (lower_char c) = Unicode.is_ascii_char c.
Proof. destruct c as [[] [] [] [] [] [] [] []]; reflexivity. Qed.

Lemma is_ascii_lower s : Unicode.is_ascii (lower s) = Unicode.is_ascii s.
Proof.
  unfold lower. induction s as [|c s IH]; [reflexivity|].
  cbn [map_chars Unicode.is_ascii]. now rewrite is_ascii_lower_char, IH.
Qed.

(** Lower case after the ASCII letters were put in lower case is lower
    case. *)
Lemma unicode_lower_lower u s : Unicode.lower u (lower s) = Unicode.lower u s.
Proof. unfold Unicode.lower. now rewrite is_ascii_lower, lower_idem. Qed.

(** X14. The matching is case-insensitive by lower-casing: the result
    for a text is the result for the text with its letters A to Z in
    lower case, whatever the translations are. *)
Theorem translate_date_case_insensitive u compile tr d :
  translate_date u compile tr (JStr d)
  = translate_date u compile tr (JStr (lower d)).
Proof.
  unfold translate_date. cbn [truthy].
  rewrite lower_empty. now rewrite unicode_lower_lower.
Qed.

(** ** [format_views]: more *)

Lemma search_numeral_none u l :
  has_digit u l = false -> search_numeral u l = None.
Proof.
  induction l as [|c l IH]; simpl; [reflexivity|]. intros H.
  apply orb_false_elim in H. destruct H as [-> H]. now apply IH.
Qed.

(** The code points of an ASCII text are its characters. *)
Lemma cps_fuel_ascii fuel : forall s,
  (String.length s <= fuel)%nat -> Unicode.is_ascii s = true ->
  Unicode.cps_fuel fuel s
  = map (fun c => String c EmptyString) (list_ascii_of_string s).
Proof.
  induction fuel as [|f IH]; intros [|c s] L A; simpl in L;
    try reflexivity; try lia.
  cbn [Unicode.is_ascii] in A. apply andb_true_iff in A.
  destruct A as [Ac As].
  cbn [Unicode.cps_fuel list_ascii_of_string map].
  assert (Unicode.cp_len c = 1%nat) as ->.
  { unfold Unicode.cp_len. unfold Unicode.is_ascii_char in Ac.
    apply Nat.ltb_lt in Ac.
    destruct (Nat.ltb_spec (nat_of_ascii c) 192); [reflexivity|lia]. }
  cbn [Unicode.take drop]. f_equal. apply IH; [lia|assumption].
Qed.

Lemma has_digit_ascii u s :
  Unicode.is_ascii s = true ->
  has_digit u (Unicode.cps s) = existsb is_digit (list_ascii_of_string s).
Proof.
  intros A. unfold Unicode.cps. rewrite cps_fuel_ascii by (auto; lia).
  induction s as [|c s IH]; [reflexivity|].
  cbn [Unicode.is_ascii] in A. apply andb_true_iff in A.
  destruct A as [Ac As].
  cbn [list_ascii_of_string map has_digit existsb]. rewrite IH by assumption.
  f_equal. unfold is_digit_cp, Unicode.digit_cp. rewrite Ac.
  now destruct (is_digit c).
Qed.

Lemma norm_char_digit c :
  is_digit (if Ascii.eqb (lower_char c) "," then "."%char else lower_char c)
  = is_digit c.
Proof. destruct c as [[] [] [] [] [] [] [] []]; reflexivity. Qed.

Lemma norm_char_ascii c :
  Unicode.is_ascii_char
    (if Ascii.eqb (lower_char c) "," then "."%char else lower_char c)
  = Unicode.is_ascii_char c.
Proof. destruct c as [[] [] [] [] [] [] [] []]; reflexivity. Qed.

Lemma norm_char_lower c :
  lower_char (if Ascii.eqb (lower_char c) "," then "."%char else lower_char c)
  = if Ascii.eqb (lower_char c) "," then "."%char else lower_char c.
Proof. destruct c as [[] [] [] [] [] [] [] []]; reflexivity. Qed.

Lemma working_ascii u s :
  Unicode.is_ascii s = true -> working u s = replace_char "," "." (lower s).
Proof. intros A. unfold working, Unicode.lower. now rewrite A. Qed.

Lemma normalised_ascii s :
  Unicode.is_ascii (replace_char "," "." (lower s)) = Unicode.is_ascii s.
Proof.
  unfold replace_char, lower. induction s as [|c s IH]; [reflexivity|].
  cbn [map_chars Unicode.is_ascii]. now rewrite norm_char_ascii, IH.
Qed.

Lemma normalised_digits s :
  existsb is_digit (list_ascii_of_string (replace_char "," "." (lower s)))
  = existsb is_digit (list_ascii_of_string s).
Proof.
  unfold replace_char, lower. induction s as [|c s IH]; [reflexivity|].
  cbn [map_chars list_ascii_of_string existsb].
  now rewrite norm_char_digit, IH.
Qed.

Lemma normalised_lower s :
  lower (replace_char "," "." (lower s)) = replace_char "," "." (lower s).
Proof.
  unfold replace_char, lower. induction s as [|c s IH]; [reflexivity|].
  cbn [map_chars]. now rewrite norm_char_lower, IH.
Qed.

Lemma replace_char_idem a b s :
  a <> b -> replace_char a b (replace_char a b s) = replace_char a b s.
Proof.
  intros Hab. unfold replace_char. induction s as [|c s IH]; [reflexivity|].
  cbn [map_chars]. rewrite IH. f_equal.
  destruct (Ascii.eqb_spec c a); [|now destruct (Ascii.eqb_spec c a)].
  destruct (Ascii.eqb_spec b a); congruence.
Qed.

(** X15. [format_views] fails soft: a value that is not a string ([None],
    a number, a list, a dictionary) and a text without any digit both
    give the empty string. The digits are those of the text the function
    works on; for an ASCII text they are the digits of the text as it
    came. *)
Theorem format_views_fails_soft u tr :
  (forall j, (forall s, j <> JStr s) -> format_views u tr j = "") /\
  (forall v, has_digit u (Unicode.cps (working u v)) = false ->
             format_views u tr (JStr v) = "") /\
  (forall v, Unicode.is_ascii v = true ->
             has_digit u (Unicode.cps v) = false ->
             format_views u tr (JStr v) = "").
Proof.
  assert (forall v, has_digit u (Unicode.cps (working u v)) = false ->
                    format_views u tr (JStr v) = "") as K.
  { intros v H. unfold format_views, format_views_body. cbn [truthy].
    destruct (String.eqb v ""); [reflexivity|]. cbn [negb].
    fold (working u v). now rewrite search_numeral_none. }
  split; [|split; [exact K|]].
  - intros j Hj. unfold format_views, format_views_body.
    destruct j as [|b|n|f|s|l|kvs]; cbn [truthy];
      try (now destruct (Hj s));
      try (match goal with |- context [negb ?c] => destruct c end);
      reflexivity.
  - intros v A H. apply K.
    rewrite working_ascii by assumption.
    rewrite has_digit_ascii by now rewrite normalised_ascii.
    rewrite normalised_digits. now rewrite <- (has_digit_ascii u).
Qed.

(** X16. Letter case does not matter and a comma counts as a decimal
    point: the result for a text is the result for its lower-case form
    with every comma turned into a point. This holds for every ASCII
    text, and for every text whose lower-case form is left as it is by
    another lower-casing when its commas have become points. *)
Theorem format_views_normalised u tr v :
  (Unicode.is_ascii v = true ->
   format_views u tr (JStr v) = format_views u tr (JStr (working u v))) /\
  (Unicode.lower u (working u v) = working u v ->
   format_views u tr (JStr v) = format_views u tr (JStr (working u v))).
Proof.
  assert (Unicode.lower u (working u v) = working u v ->
          format_views u tr (JStr v) = format_views u tr (JStr (working u v)))
    as K.
  { intros H. unfold format_views, format_views_body. cbn [truthy].
    destruct (String.eqb_spec v "") as [->|Hv]; [reflexivity|]. cbn [negb].
    fold (working u v). fold (working u (working u v)).
    assert (working u (working u v) = working u v) as ->.
    { unfold working at 1. rewrite H. unfold working.
      apply replace_char_idem. discriminate. }
    destruct (String.eqb_spec (working u v) "") as [->|Hw]; reflexivity. }
  split; [|exact K].
  intros A. apply K. rewrite (working_ascii u v A).
  unfold Unicode.lower. rewrite normalised_ascii, A.
  apply normalised_lower.
Qed.

Lemma decimal_digits_two_points u g :
  forall acc (dot : bool) k,
    (2 <= points g + (if dot then 1 else 0))%nat ->
    decimal_digits u g acc dot k = None.
Proof.
  induction g as [|c g IH]; intros acc dot k H.
  - simpl in H. destruct dot; lia.
  - cbn [decimal_digits]. cbn [points] in H.
    destruct (Unicode.digit_cp u c) eqn:Dc.
    + apply IH.
      destruct (String.eqb_spec c "."); [subst; discriminate|].
      simpl in H. lia.
    + destruct (String.eqb c "."); [|reflexivity].
      destruct dot; [reflexivity|]. apply IH. simpl in *. lia.
Qed.

(** X17. A numeral with two points or more (a date, a version number) is
    not a number for [float]: the result is the empty string, not the
    digits before the second point. The numeral is the first run of
    digits and points that starts with a digit. *)
Theorem format_views_two_points u tr v g :
  search_numeral u (Unicode.cps (working u v)) = Some g ->
  (2 <= points g)%nat ->
  format_views u tr (JStr v) = "".
Proof.
  intros Hg Hp. unfold format_views, format_views_body. cbn [truthy].
  destruct (String.eqb v ""); [reflexivity|]. cbn [negb].
  fold (working u v). rewrite Hg.
  unfold float_of_numeral.
  rewrite decimal_digits_two_points; [reflexivity|]. simpl. lia.
Qed.

Lemma format_views_two_points_witness :
  format_views ascii_tables no_translations (JStr "12.05.2023 views") = "" /\
  format_views sample_tables no_translations
    (JStr (arabic_three ++ ".1.2 views")) = "".
Proof.
  split.
  - apply (format_views_two_points ascii_tables no_translations
             "12.05.2023 views" (Unicode.cps "12.05.2023")).
    + reflexivity.
    + simpl. lia.
  - apply (format_views_two_points sample_tables no_translations
             (arabic_three ++ ".1.2 views")
             (arabic_three :: Unicode.cps ".1.2")).
    + reflexivity.
    + simpl. lia.
Defined.

(** ** [cleanup_cache] *)

From Stdlib Require Import Permutation Sorted.

Lemma insert_perm x l : Permutation (insert_by_mtime x l) (x :: l).
Proof.
  induction l as [|y r IH]; simpl; [reflexivity|].
  destruct (e_mtime y <? e_mtime x); [|reflexivity].
  rewrite IH. apply perm_swap.
Qed.

Lemma sort_perm l : Permutation (sort_by_mtime l) l.
Proof.
  induction l as [|x r IH]; simpl; [reflexivity|].
  rewrite insert_perm. now constructor.
Qed.

Lemma insert_sorted x l :
  StronglySorted older l -> StronglySorted older (insert_by_mtime x l).
Proof.
  induction 1 as [|y r Hr IH Hy]; simpl.
  - repeat constructor.
  - destruct (Z.ltb_spec (e_mtime y) (e_mtime x)) as [Hlt|Hge].
    + constructor; [exact IH|].
      apply Forall_forall. intros z Hz.
      apply (Permutation_in _ (insert_perm x r)) in Hz.
      destruct Hz as [<-|Hz]; [unfold older; lia|].
      rewrite Forall_forall in Hy. now apply Hy.
    + constructor; [now constructor|].
      constructor; [exact Hge|].
      eapply Forall_impl; [|exact Hy]. unfold older. intros; lia.
Qed.

Lemma sort_sorted l : StronglySorted older (sort_by_mtime l).
Proof.
  induction l as [|x r IH]; simpl; [constructor|]. now apply insert_sorted.
Qed.

Lemma sorted_app_older l1 l2 :
  StronglySorted older (l1 ++ l2) ->
  forall a b, In a l1 -> In b l2 -> older a b.
Proof.
  induction l1 as [|x r IH]; simpl; intros H a b Ha Hb; [contradiction|].
  inversion H as [|? ? Hs Hf]; subst.
  destruct Ha as [<-|Ha].
  - rewrite Forall_forall in Hf. apply Hf. apply in_or_app. now right.
  - now apply IH.
Qed.

Lemma remove_all_true can_remove fs :
  (forall n, can_remove n = true) ->
  forall dir, remove_all can_remove fs dir = filter (kept_from fs) dir.
Proof.
  intros Hc. induction fs as [|f r IH]; intros dir; simpl.
  - unfold kept_from. simpl. induction dir as [|e d IHd]; simpl; [reflexivity|].
    now rewrite <- IHd.
  - rewrite Hc, IH. unfold remove_name, kept_from.
    induction dir as [|e d IHd]; simpl; [reflexivity|].
    rewrite String.eqb_sym.
    destruct (String.eqb (e_name f) (e_name e)); simpl; [exact IHd|].
    destruct (existsb _ _); simpl; [exact IHd|now rewrite IHd].
Qed.

Lemma remove_all_sub can_remove fs :
  forall dir e, In e (remove_all can_remove fs dir) -> In e dir.
Proof.
  induction fs as [|f r IH]; simpl; intros dir e H; [exact H|].
  destruct (can_remove (e_name f)); [|exact H].
  apply IH in H. unfold remove_name in H. apply filter_In in H. tauto.
Qed.

Lemma is_png_name a b : e_name a = e_name b -> is_png a = is_png b.
Proof. unfold is_png. now intros ->. Qed.

Lemma remove_all_keeps_other can_remove fs :
  Forall (fun f => is_png f = true) fs ->
  forall dir e, In e dir -> is_png e = false ->
                In e (remove_all can_remove fs dir).
Proof.
  induction 1 as [|f r Hf Hr IH]; simpl; intros dir e He Hp; [exact He|].
  destruct (can_remove (e_name f)); [|exact He].
  apply IH; [|exact Hp]. unfold remove_name. apply filter_In.
  split; [exact He|].
  destruct (String.eqb_spec (e_name e) (e_name f)) as [E|]; [|reflexivity].
  apply is_png_name in E. congruence.
Qed.

Lemma firstn_in {A} (x : A) n : forall l, In x (firstn n l) -> In x l.
Proof.
  induction n as [|n IH]; intros [|y l]; simpl; try tauto.
  intros [H|H]; [now left|right; now apply IH].
Qed.

Lemma slice_to_sub {A} stop (l : list A) x : In x (slice_to stop l) -> In x l.
Proof. unfold slice_to. destruct (stop <? 0); apply firstn_in. Qed.

Lemma to_remove_png max_files dir :
  Forall (fun f => is_png f = true)
    (slice_to (- max_files) (sort_by_mtime (filter is_png dir))).
Proof.
  apply Forall_forall. intros f Hf. apply slice_to_sub in Hf.
  apply (Permutation_in _ (sort_perm _)) in Hf.
  apply filter_In in Hf. tauto.
Qed.

(** X18. [cleanup_cache] touches [.png] files only: whatever [os.remove]
    does, the directory it leaves is part of the one it found, and every
    entry whose name does not end in [.png] is still there. A directory
    within the limit, and any directory when [max_files] is 0 (the slice
    [files[:-0]] is empty), is left exactly as it was. *)
Theorem cleanup_keeps_other_files can_remove max_files dir :
  (forall e, In e (cleanup_cache can_remove max_files dir) -> In e dir) /\
  (forall e, In e dir -> is_png e = false ->
             In e (cleanup_cache can_remove max_files dir)) /\
  (png_count dir <= max_files \/ max_files = 0 ->
   cleanup_cache can_remove max_files dir = dir).
Proof.
  unfold cleanup_cache, png_count. repeat split.
  - intros e. destruct (_ <? _); [apply remove_all_sub|auto].
  - intros e He Hp. destruct (_ <? _); [|exact He].
    apply remove_all_keeps_other; auto. apply to_remove_png.
  - intros [H| ->].
    + destruct (Z.ltb_spec max_files
                  (Z.of_nat (List.length (filter is_png dir)))); [lia|].
      reflexivity.
    + destruct (_ <? _); reflexivity.
Qed.

Lemma filter_perm {A} (f : A -> bool) l l' :
  Permutation l l' -> Permutation (filter f l) (filter f l').
Proof.
  induction 1 as [|x l l' H IH|x y l|l l' l'' H1 IH1 H2 IH2]; simpl.
  - constructor.
  - destruct (f x); [now constructor|exact IH].
  - destruct (f x), (f y); try reflexivity. apply perm_swap.
  - now transitivity (filter f l').
Qed.

Lemma filter_comm {A} (f g : A -> bool) l :
  filter f (filter g l) = filter g (filter f l).
Proof.
  induction l as [|x l IH]; simpl; [reflexivity|].
  destruct (f x) eqn:F, (g x) eqn:G; simpl; rewrite ?F, ?G, IH; reflexivity.
Qed.

Lemma nodup_names_filter (g : entry -> bool) l :
  NoDup (map e_name l) -> NoDup (map e_name (filter g l)).
Proof.
  induction l as [|x l IH]; simpl; intros H; [constructor|].
  inversion H as [|? ? Hx Hl]; subst.
  destruct (g x); simpl; [|now apply IH].
  constructor; [|now apply IH].
  intros Hin. apply Hx. apply in_map_iff in Hin.
  destruct Hin as (y & Ey & Hy). apply filter_In in Hy.
  apply in_map_iff. exists y. tauto.
Qed.

Lemma nodup_names_inj l a b :
  NoDup (map e_name l) -> In a l -> In b l -> e_name a = e_name b -> a = b.
Proof.
  induction l as [|x l IH]; simpl; intros H Ha Hb E; [contradiction|].
  inversion H as [|? ? Hx Hl]; subst.
  destruct Ha as [->|Ha], Hb as [->|Hb]; auto.
  - exfalso. apply Hx. rewrite E. now apply in_map.
  - exfalso. apply Hx. rewrite <- E. now apply in_map.
Qed.

Lemma nodup_names_app r k :
  NoDup (map e_name (r ++ k)) ->
  forall e, In e k -> ~ In (e_name e) (map e_name r).
Proof.
  induction r as [|x r IH]; simpl; intros H e He; [tauto|].
  inversion H as [|? ? Hx Hl]; subst.
  intros [E|Hin].
  - apply Hx. rewrite E. apply in_map. apply in_or_app. now right.
  - now apply (IH Hl e He).
Qed.

Lemma kept_from_false r e :
  kept_from r e = false <-> In (e_name e) (map e_name r).
Proof.
  unfold kept_from. rewrite negb_false_iff, existsb_exists. split.
  - intros (n & Hn & E). apply String.eqb_eq in E. now subst.
  - intros H. exists (e_name e). split; [exact H|apply String.eqb_refl].
Qed.

Lemma filter_all {A} (f : A -> bool) l :
  (forall x, In x l -> f x = true) -> filter f l = l.
Proof.
  induction l as [|x l IH]; simpl; intros H; [reflexivity|].
  rewrite (H x (or_introl eq_refl)). f_equal. apply IH. auto.
Qed.

Lemma filter_none {A} (f : A -> bool) l :
  (forall x, In x l -> f x = false) -> filter f l = [].
Proof.
  induction l as [|x l IH]; simpl; intros H; [reflexivity|].
  rewrite (H x (or_introl eq_refl)). apply IH. auto.
Qed.

(** The parts of an effective clean-up: the sorted [.png] entries split
    into the removed ones and the [max_files] kept ones. *)
Lemma cleanup_parts can_remove max_files dir :
  (forall n, can_remove n = true) ->
  NoDup (map e_name dir) ->
  0 < max_files < png_count dir ->
  exists r k,
    sort_by_mtime (filter is_png dir) = (r ++ k)%list /\
    Z.of_nat (List.length k) = max_files /\
    cleanup_cache can_remove max_files dir = filter (kept_from r) dir /\
    Permutation (filter is_png (cleanup_cache can_remove max_files dir)) k /\
    (forall e, In e dir -> is_png e = true ->
               ~ In e (cleanup_cache can_remove max_files dir) -> In e r).
Proof.
  intros Hc Hnd [Hpos Hlt]. unfold png_count in Hlt.
  set (files := filter is_png dir) in *.
  set (sorted := sort_by_mtime files).
  pose proof (sort_perm files) as Hperm. fold sorted in Hperm.
  pose proof (Permutation_length Hperm) as Hlen.
  set (n := Z.to_nat (Z.of_nat (List.length sorted) + - max_files)).
  exists (firstn n sorted), (skipn n sorted).
  assert (cleanup_cache can_remove max_files dir
          = filter (kept_from (firstn n sorted)) dir) as Hres.
  { unfold cleanup_cache. fold files.
    destruct (Z.ltb_spec max_files (Z.of_nat (List.length files))); [|lia].
    fold sorted. unfold slice_to.
    destruct (Z.ltb_spec (- max_files) 0); [|lia].
    fold n. now apply remove_all_true. }
  assert (NoDup (map e_name sorted)) as Hnds.
  { apply (Permutation_NoDup (l := map e_name files)).
    - apply Permutation_map. now symmetry.
    - now apply nodup_names_filter. }
  rewrite <- (firstn_skipn n sorted) in Hnds.
  split; [now rewrite firstn_skipn|].
  split; [rewrite length_skipn; subst n; lia|].
  split; [exact Hres|].
  split.
  - rewrite Hres, filter_comm. fold files.
    rewrite (filter_perm (kept_from (firstn n sorted)) _ _
               (Permutation_sym Hperm)).
    rewrite <- (firstn_skipn n sorted) at 2.
    rewrite filter_app.
    rewrite filter_none, filter_all; [reflexivity| |].
    + intros e He. pose proof (nodup_names_app _ _ Hnds e He) as Hn.
      destruct (kept_from (firstn n sorted) e) eqn:K; [reflexivity|].
      apply kept_from_false in K. contradiction.
    + intros e He. apply kept_from_false. now apply in_map.
  - intros e He Hp Hout. rewrite Hres in Hout.
    destruct (kept_from (firstn n sorted) e) eqn:K.
    { exfalso. apply Hout. apply filter_In. now split. }
    apply kept_from_false in K. apply in_map_iff in K.
    destruct K as (e' & E & He').
    assert (In e' dir) as Hd.
    { apply firstn_in in He'.
      apply (Permutation_in _ Hperm) in He'.
      apply filter_In in He'. tauto. }
    now rewrite <- (nodup_names_inj dir e' e Hnd Hd He E).
Qed.

Lemma sample_dir_nodup : NoDup (map e_name sample_dir).
Proof.
  repeat constructor; simpl; intuition discriminate.
Qed.

(** X19. When the directory holds more [.png] files than [max_files]
    (at least 1) and the removals succeed, exactly [max_files] of them
    are left. *)
Theorem cleanup_leaves_max_files can_remove max_files dir :
  (forall n, can_remove n = true) ->
  NoDup (map e_name dir) ->
  0 < max_files < png_count dir ->
  png_count (cleanup_cache can_remove max_files dir) = max_files.
Proof.
  intros Hc Hnd Hm.
  destruct (cleanup_parts can_remove max_files dir Hc Hnd Hm)
    as (r & k & _ & Hk & _ & Hperm & _).
  unfold png_count. now rewrite (Permutation_length Hperm).
Qed.

Lemma cleanup_leaves_max_files_witness :
  png_count (cleanup_cache all_removable 2 sample_dir) = 2.
Proof.
  apply cleanup_leaves_max_files.
  - reflexivity.
  - exact sample_dir_nodup.
  - vm_compute. split; reflexivity.
Defined.

(** X20. What the clean-up removes is the oldest: every [.png] file it
    removed was modified no later than every [.png] file it kept. *)
Theorem cleanup_removes_oldest can_remove max_files dir gone kept :
  (forall n, can_remove n = true) ->
  NoDup (map e_name dir) ->
  0 < max_files ->
  In gone dir -> is_png gone = true ->
  ~ In gone (cleanup_cache can_remove max_files dir) ->
  In kept (cleanup_cache can_remove max_files dir) -> is_png kept = true ->
  older gone kept.
Proof.
  intros Hc Hnd Hpos Hg Hgp Hout Hk Hkp.
  destruct (Z.le_gt_cases (png_count dir) max_files) as [Hle|Hgt].
  { exfalso. apply Hout. unfold cleanup_cache, png_count in *.
    destruct (Z.ltb_spec max_files
                (Z.of_nat (List.length (filter is_png dir)))); [lia|].
    exact Hg. }
  destruct (cleanup_parts can_remove max_files dir Hc Hnd
              (conj Hpos Hgt))
    as (r & k & Hs & _ & _ & Hperm & Hr).
  apply (sorted_app_older r k).
  - rewrite <- Hs. apply sort_sorted.
  - now apply Hr.
  - apply (Permutation_in _ Hperm). apply filter_In. now split.
Qed.

Lemma cleanup_removes_oldest_witness :
  older {| e_name := "v_xyz.png"; e_mtime := 3 |}
        {| e_name := "c_UC1.png"; e_mtime := 5 |}.
Proof.
  apply (cleanup_removes_oldest all_removable 2 sample_dir).
  - reflexivity.
  - exact sample_dir_nodup.
  - lia.
  - simpl. tauto.
  - reflexivity.
  - vm_compute. intros [H|[H|[H|[]]]]; discriminate.
  - vm_compute. tauto.
  - reflexivity.
Defined.

(** X21. A second clean-up finds nothing to do: with [max_files] at
    least 1 and removals that succeed, cleaning a cleaned directory
    leaves it as it is. *)
Theorem cleanup_idempotent can_remove max_files dir :
  (forall n, can_remove n = true) ->
  NoDup (map e_name dir) ->
  0 < max_files ->
  cleanup_cache can_remove max_files
    (cleanup_cache can_remove max_files dir)
  = cleanup_cache can_remove max_files dir.
Proof.
  intros Hc Hnd Hpos.
  assert (png_count (cleanup_cache can_remove max_files dir) <= max_files) as H.
  { destruct (Z.le_gt_cases (png_count dir) max_files) as [Hle|Hgt].
    - unfold cleanup_cache at 1. unfold png_count in Hle.
      destruct (Z.ltb_spec max_files
                  (Z.of_nat (List.length (filter is_png dir)))); [lia|].
      exact Hle.
    - destruct (cleanup_parts can_remove max_files dir Hc Hnd
                  (conj Hpos Hgt))
        as (r & k & _ & Hk & _ & Hperm & _).
      unfold png_count. rewrite (Permutation_length Hperm). lia. }
  unfold cleanup_cache at 1. unfold png_count in H.
  destruct (Z.ltb_spec max_files
              (Z.of_nat (List.length
                 (filter is_png (cleanup_cache can_remove max_files dir)))));
    [lia|reflexivity].
Qed.

Lemma cleanup_idempotent_witness :
  cleanup_cache all_removable 2 (cleanup_cache all_removable 2 sample_dir)
  = cleanup_cache all_removable 2 sample_dir.
Proof.
  apply cleanup_idempotent.
  - reflexivity.
  - exact sample_dir_nodup.
  - lia.
Defined.

(** ** [load_translations] *)

Lemma cut_underscore a b :
  contains "_" a = false -> cut "_" (a ++ "_" ++ b) = Some (a, b).
Proof.
  induction a as [|c a IH]; intros H.
  - reflexivity.
  - cbn [contains startswith] in H.
    apply orb_false_elim in H. destruct H as [H1 Ha].
    rewrite andb_true_r in H1.
    change (String c a ++ "_" ++ b) with (String c (a ++ "_" ++ b)).
    cbn [cut startswith]. rewrite H1. cbn [andb].
    now rewrite (IH Ha).
Qed.

(** X22. The language code is the text of the locale name before its
    first underscore, in lower case ("pt" for "pt_BR"); a locale name
    without underscore is taken whole; an unknown locale, an empty name
    or a failing locale query gives "en". *)
Theorem lang_code_before_underscore a b e :
  contains "_" a = false ->
  lang_code_of (Ok (Some (a ++ "_" ++ b))) = lower a /\
  (a <> "" -> lang_code_of (Ok (Some a)) = lower a) /\
  lang_code_of (Ok None) = "en" /\
  lang_code_of (Ok (Some "")) = "en" /\
  lang_code_of (Raise e) = "en".
Proof.
  intros H. repeat split.
  - unfold lang_code_of.
    destruct (String.eqb_spec (a ++ "_" ++ b) "") as [E|_].
    { destruct a; discriminate. }
    unfold split.
    destruct (String.length (a ++ "_" ++ b)) eqn:L.
    { destruct a; discriminate. }
    cbn [split_fuel]. now rewrite cut_underscore.
  - intros Ha. unfold lang_code_of.
    destruct (String.eqb_spec a ""); [contradiction|].
    now rewrite split_absent.
Qed.

Lemma lang_code_before_underscore_witness :
  lang_code_of (Ok (Some ("pt" ++ "_" ++ "BR"))) = lower "pt".
Proof.
  destruct (lang_code_before_underscore "pt" "BR" ValueError eq_refl)
    as [H _].
  exact H.
Defined.

(** X23. The English file stands in only for a missing language file:
    when the language file does not exist the result is what [en.json]
    holds ([{}] when that cannot be read or parsed), and when it exists
    but cannot be read or parsed the result is [{}], [en.json] not being
    tried. *)
Theorem load_translations_fallback loads tf sys_lang base_path :
  let lang_file :=
    os_path_join base_path (lang_code_of sys_lang ++ ".json") in
  let fallback_file := os_path_join base_path "en.json" in
  (path_exists tf lang_file = false ->
   load_translations loads tf sys_lang base_path
   = match bind (read_text tf fallback_file) loads with
     | Ok t => t
     | Raise _ => JObj []
     end) /\
  (path_exists tf lang_file = true ->
   (forall t, bind (read_text tf lang_file) loads <> Ok t) ->
   load_translations loads tf sys_lang base_path = JObj []).
Proof.
  intros lang_file fallback_file. unfold load_translations.
  fold lang_file. fold fallback_file. split.
  - now intros ->.
  - intros -> H.
    destruct (bind (read_text tf lang_file) loads) as [t|e] eqn:E;
      [now destruct (H t)|reflexivity].
Qed.

(** ** [on_event]: the items *)

Lemma thumb_step_raises lib ext v tp s :
  (forall v_id, exists e, channel_id v v_id = Raise e) ->
  exists e, thumb_step lib ext v tp s = Raise e.
Proof.
  intros H. unfold thumb_step.
  destruct (get v "videoId" JNull) as [v_id|e]; simpl; [|now exists e].
  destruct (H v_id) as [e ->]. now exists e.
Qed.

Lemma thumb_loop_raises lib ext o v videos :
  In v videos ->
  (forall v_id, exists e, channel_id v v_id = Raise e) ->
  forall sched tp s,
    exists e s', thumb_loop lib ext o sched videos tp s = (Raise e, s').
Proof.
  intros Hin Hv. induction videos as [|x rest IH]; [contradiction|].
  intros sched tp s. simpl.
  destruct (thumb_step lib ext x tp (run_tasks o (hd O sched) s))
    as [[tp1 s2]|e] eqn:E; [|eauto].
  destruct Hin as [->|Hin].
  - destruct (thumb_step_raises lib ext v tp (run_tasks o (hd O sched) s) Hv)
      as [e He]. congruence.
  - apply (IH Hin).
Qed.

(** X24. One malformed entry spoils the whole answer: when an extracted
    entry has no usable channel data (for instance an empty [runs] list
    under [longBylineText], whose element 0 is read in every thumbnail
    mode), the first loop raises and [on_event] returns the generic error
    item alone, the other entries being lost. *)
Theorem malformed_entry_error_item
  lib o sched ext argument w text data contents videos v :
  (3 <= PyStr.len (query_of argument))%nat ->
  http_get o (List.length (requests w)) (search_url_of (query_of argument))
  = Ok text ->
  parse_page lib text = Ok data ->
  contents_of data = Ok contents ->
  extract_videos (max_results (ext_preferences ext)) contents = Ok videos ->
  In v videos ->
  (forall v_id, exists e, channel_id v v_id = Raise e) ->
  fst (on_event lib o sched ext argument w) = Ok [internal_error_item ext].
Proof.
  intros Hq Hget Hp Hc He Hin Hv. unfold on_event.
  destruct (Nat.ltb_spec (PyStr.len (query_of argument)) 3); [lia|].
  unfold try_body, session_get. rewrite Hget, Hp.
  unfold after_parse. rewrite Hc, He.
  destruct (thumb_loop_raises lib ext o v videos Hin Hv sched []
              (initial {| files := files w;
                          requests :=
                            (requests w
                             ++ [search_url_of (query_of argument)])%list |}))
    as (e & s' & ->).
  reflexivity.
Qed.

Lemma malformed_entry_error_item_witness :
  fst (on_event (lib_of spoilt_json_text spoilt_page) (online spoilt_body) []
         (ext_of 7 "none" "layout_inverted") (Some "cats") empty_world)
  = Ok [internal_error_item (ext_of 7 "none" "layout_inverted")].
Proof.
  apply (malformed_entry_error_item
           (lib_of spoilt_json_text spoilt_page) (online spoilt_body) []
           (ext_of 7 "none" "layout_inverted") (Some "cats") empty_world
           spoilt_body spoilt_page spoilt_contents
           [JObj [("videoId", JStr "abc")]; spoilt_entry] spoilt_entry).
  - vm_compute. lia.
  - reflexivity.
  - vm_compute. reflexivity.
  - reflexivity.
  - reflexivity.
  - simpl. tauto.
  - intros v_id. exists IndexError. reflexivity.
Defined.

Lemma download_result_exists o path url is_ch w r w' :
  download_and_cache o path url is_ch w = (Some r, w') ->
  exists_ w' r = true.
Proof.
  unfold download_and_cache, session_get. intros H.
  destruct (exists_ w path) eqn:Ex.
  - now inversion H; subst.
  - destruct (http_get o _ url) as [content|e]; [|discriminate].
    destruct (image_ok o content && writable o path); [|discriminate].
    inversion H; subst. apply exists_added.
Qed.

Lemma icons_inv_run o n : forall s tp,
  icons_inv s tp -> icons_inv (run_tasks o n s) tp.
Proof.
  induction n as [|k IH]; intros s tp H; simpl; [exact H|].
  destruct (pending s) as [|t rest] eqn:Ep; [exact H|].
  destruct (download_and_cache o (t_path t) (t_url t) (t_is_channel t)
              (st_world s)) as [res w'] eqn:Ed.
  apply IH. destruct H as [Ht Hc].
  assert (forall q, exists_ (st_world s) q = true -> exists_ w' q = true) as M.
  { intros q Hq.
    pose proof (download_keeps_files o (t_path t) (t_url t) (t_is_channel t)
                  (st_world s) q Hq) as K.
    now rewrite Ed in K. }
  split; simpl.
  - eapply Forall_impl; [|exact Ht].
    intros kv [E|E]; [now left|right; now apply M].
  - apply Forall_app. split.
    + eapply Forall_impl; [|exact Hc].
      intros [vid [p|]]; simpl; auto.
    + constructor; [|constructor]. simpl.
      destruct res as [p|]; [|exact I].
      eapply download_result_exists; eauto.
Qed.

Lemma update_values (P : string -> Prop) k x d :
  P x -> Forall (fun kv => P (snd kv)) d ->
  Forall (fun kv => P (snd kv)) (update k x d).
Proof.
  intros Hx. induction 1 as [|[k' y] r Hy Hr IH]; simpl.
  - constructor; [exact Hx|constructor].
  - destruct (key_eqb k' k); constructor; auto.
Qed.

Lemma icons_inv_step lib ext v tp s tp' s' :
  icons_inv s tp ->
  thumb_step lib ext v tp s = Ok (tp', s') ->
  icons_inv s' tp'.
Proof.
  intros [Ht Hc] H. unfold thumb_step in H.
  destruct (get v "videoId" JNull) as [v_id|]; simpl in H; [|discriminate].
  destruct (channel_id v v_id) as [c|]; simpl in H; [|discriminate].
  destruct (String.eqb (thumb_type (ext_preferences ext)) "none").
  { unfold dict_set in H. destruct (hashable v_id); simpl in H; [|discriminate].
    inversion H; subst. split; [|exact Hc].
    apply (update_values (icon_ok (st_world s'))); [now left|exact Ht]. }
  match type of H with
  | (if exists_ ?w ?p then _ else _) = _ => destruct (exists_ w p) eqn:Ex
  end.
  { unfold dict_set in H. destruct (hashable v_id); simpl in H; [|discriminate].
    inversion H; subst. split; [|exact Hc].
    apply (update_values (icon_ok (st_world s'))); [now right|exact Ht]. }
  destruct (thumb_url _ v) as [t_url|]; simpl in H; [|discriminate].
  destruct (truthy t_url); [|inversion H; subst; now split].
  destruct t_url; try discriminate.
  inversion H; subst. now split.
Qed.

Lemma icons_inv_loop lib ext o videos :
  forall sched tp s tp' s',
    icons_inv s tp ->
    thumb_loop lib ext o sched videos tp s = (Ok tp', s') ->
    icons_inv s' tp'.
Proof.
  induction videos as [|v rest IH]; simpl; intros sched tp s tp' s' Hs H.
  - now inversion H; subst.
  - pose proof (icons_inv_run o (hd O sched) s tp Hs) as Hs1.
    destruct (thumb_step lib ext v tp (run_tasks o (hd O sched) s))
      as [[tp1 s2]|e] eqn:E; [|discriminate].
    eapply IH; [|exact H]. eapply icons_inv_step; eauto.
Qed.

Lemma collect_icons (w : world) results :
  Forall (fun r => match snd r with
                   | Some p => exists_ w p = true
                   | None => True
                   end) results ->
  forall tp tp',
    Forall (fun kv => icon_ok w (snd kv)) tp ->
    collect results tp = Ok tp' ->
    Forall (fun kv => icon_ok w (snd kv)) tp'.
Proof.
  induction 1 as [|[v_id res] rest Hr Hrest IH]; simpl; intros tp tp' Ht H.
  - now inversion H; subst.
  - unfold dict_set in H. destruct (hashable v_id); simpl in H; [|discriminate].
    eapply IH; [|exact H].
    apply (update_values (icon_ok w)); [|exact Ht].
    destruct res as [p|]; [|now left].
    destruct (String.eqb p ""); [now left|right; exact Hr].
Qed.

Lemma lookup_value (P : string -> Prop) k d x :
  Forall (fun kv => P (snd kv)) d -> lookup k d = Some x -> P x.
Proof.
  induction 1 as [|[k' y] r Hy Hr IH]; simpl; [discriminate|].
  destruct (key_eqb k' k); [|exact IH].
  intros E. inversion E; subst. exact Hy.
Qed.

Lemma render_video_icon_ok lib ext w tp v new :
  Forall (fun kv => icon_ok w (snd kv)) tp ->
  render_video lib ext tp v = Ok new ->
  Forall (fun it => icon_ok w (icon it)) new.
Proof.
  intros Hd H. unfold render_video in H.
  destruct (get v "videoId" JNull) as [v_id|]; simpl in H; [|discriminate].
  destruct (first_run_text v "title" "No title") as [title|]; simpl in H;
    [|discriminate].
  destruct (first_run_text v "longBylineText" "Channel") as [chan|];
    simpl in H; [|discriminate].
  destruct (simple_text v "lengthText" "LIVE") as [dur|]; simpl in H;
    [|discriminate].
  destruct (simple_text v "shortViewCountText" "") as [views_raw|];
    simpl in H; [|discriminate].
  destruct (simple_text v "publishedTimeText" "") as [pub_raw|]; simpl in H;
    [|discriminate].
  destruct (translate_date _ _ _ pub_raw) as [pub|]; simpl in H; [|discriminate].
  destruct (dict_get tp v_id icon_default) as [current_icon|] eqn:Hg;
    simpl in H; [|discriminate].
  assert (icon_ok w current_icon) as Hi.
  { unfold dict_get in Hg.
    destruct (hashable v_id); [|discriminate].
    injection Hg as Hg.
    destruct (lookup v_id tp) eqn:L; [|subst; now left].
    subst. eapply (lookup_value (icon_ok w)); eauto. }
  repeat match type of H with
  | (if ?c then _ else _) = _ => destruct c
  end; inversion H; subst;
    first [constructor; [exact Hi|constructor] | constructor].
Qed.

Lemma render_loop_icon_ok lib ext w tp videos :
  Forall (fun kv => icon_ok w (snd kv)) tp ->
  forall items res,
    Forall (fun it => icon_ok w (icon it)) items ->
    render_loop lib ext tp videos items = Ok res ->
    Forall (fun it => icon_ok w (icon it)) res.
Proof.
  intros Hd. induction videos as [|v rest IH]; simpl; intros items res Hi H.
  - now inversion H; subst.
  - destruct (render_video lib ext tp v) as [new|e] eqn:E; simpl in H;
      [|discriminate].
    eapply IH; [|exact H]. apply Forall_app. split; [exact Hi|].
    eapply render_video_icon_ok; eauto.
Qed.

(** X25. No item points to a thumbnail that is not there: the icon of
    every item [on_event] returns is the default icon or a file that
    exists when the call returns (a cache hit, or the file a worker has
    just written; a failed download leaves the default icon). *)
Theorem item_icons_exist lib o sched ext argument w :
  exists items,
    fst (on_event lib o sched ext argument w) = Ok items /\
    Forall (fun it =>
              icon_ok (st_world (snd (on_event lib o sched ext argument w)))
                (icon it)) items.
Proof.
  unfold on_event.
  destruct (PyStr.len (query_of argument) <? 3)%nat.
  { eexists. split; [reflexivity|]. constructor; [now left|constructor]. }
  destruct (try_body lib o sched ext (query_of argument) w)
    as [[items|e] s] eqn:E.
  2:{ eexists. split; [reflexivity|]. constructor; [now left|constructor]. }
  exists items. split; [reflexivity|]. simpl.
  unfold try_body in E.
  destruct (session_get o _ w) as [[text|e] w1].
  2:{ destruct e; inversion E; subst; (constructor; [now left|constructor]). }
  destruct (parse_page lib text) as [data|e].
  2:{ inversion E; subst. constructor; [now left|constructor]. }
  unfold after_parse in E.
  destruct (contents_of data) as [contents|e]; [|discriminate].
  destruct (extract_videos _ contents) as [videos|e]; [|discriminate].
  destruct (thumb_loop lib ext o sched videos [] (initial w1))
    as [[tp|e] s1] eqn:El; [|discriminate].
  injection E as E1 E2.
  assert (icons_inv s tp) as [Ht Hc].
  { subst s. apply icons_inv_run.
    eapply icons_inv_loop; [|exact El]. split; constructor. }
  destruct (collect (completed _) tp) as [tp'|e] eqn:Ec; simpl in E1;
    [|discriminate].
  rewrite E2 in Ec.
  eapply render_loop_icon_ok; [| |exact E1].
  - eapply collect_icons; eauto.
  - constructor; [now left|constructor].
Qed.

Lemma render_video_links lib ext tp v new :
  render_video lib ext tp v = Ok new -> Forall opens_video new.
Proof.
  intros H. unfold render_video in H.
  destruct (get v "videoId" JNull) as [v_id|]; simpl in H; [|discriminate].
  repeat match type of H with
  | bind ?x _ = _ => destruct x; simpl in H; [|discriminate]
  end.
  repeat match type of H with
  | (if ?c then _ else _) = _ => destruct c
  end; inversion H; subst;
    first [constructor; [now exists (str lib v_id)|constructor] | constructor].
Qed.

Lemma render_loop_links lib ext tp videos :
  forall items res,
    render_loop lib ext tp videos items = Ok res ->
    exists more, res = (items ++ more)%list /\ Forall opens_video more.
Proof.
  induction videos as [|v rest IH]; simpl; intros items res H.
  - inversion H; subst. exists []. split; [now rewrite app_nil_r|constructor].
  - destruct (render_video lib ext tp v) as [new|e] eqn:E; simpl in H;
      [|discriminate].
    destruct (IH _ _ H) as (more & -> & Hm).
    exists (new ++ more)%list. split; [now rewrite app_assoc|].
    apply Forall_app. split; [|exact Hm].
    eapply render_video_links; eauto.
Qed.

(** X26. The shape of a full answer: whenever [on_event] returns more
    than one item, the first is the browser item for the query and every
    other one is a video item whose action opens a watch URL. *)
Theorem video_items_follow_browser lib o sched ext argument w first rest :
  fst (on_event lib o sched ext argument w) = Ok (first :: rest) ->
  rest <> [] ->
  first = browser_item ext (query_of argument) /\ Forall opens_video rest.
Proof.
  unfold on_event.
  destruct (PyStr.len (query_of argument) <? 3)%nat.
  { simpl. intros H Hr. inversion H; subst. contradiction. }
  destruct (try_body lib o sched ext (query_of argument) w)
    as [[items|e] s] eqn:E; simpl.
  2:{ intros H Hr. inversion H; subst. contradiction. }
  intros H Hr. inversion H; subst; clear H.
  unfold try_body in E.
  destruct (session_get o _ w) as [[text|e] w1].
  2:{ destruct e; inversion E; subst; contradiction. }
  destruct (parse_page lib text) as [data|e].
  2:{ inversion E; subst. contradiction. }
  unfold after_parse in E.
  destruct (contents_of data) as [contents|e]; [|discriminate].
  destruct (extract_videos _ contents) as [videos|e]; [|discriminate].
  destruct (thumb_loop lib ext o sched videos [] (initial w1))
    as [[tp|e] s1]; [|discriminate].
  injection E as E1 E2.
  destruct (collect _ tp) as [tp'|e]; simpl in E1; [|discriminate].
  apply render_loop_links in E1. destruct E1 as (more & E1 & Hm).
  simpl in E1. inversion E1; subst. now split.
Qed.

Lemma video_items_follow_browser_witness :
  {| small := false; icon := "images/icon.png"; name := JStr "'cats'";
     description := "Pesquisar no navegador";
     on_enter :=
       Some (OpenUrlAction
               "https://www.youtube.com/results?search_query=cats") |}
  = browser_item (ext_of 7 "none" "layout_minimal")
      (query_of (Some (of_bytes [227; 128; 128]%nat ++ "cats " ++
                       of_bytes [194; 160]%nat)))
  /\ Forall opens_video
       [ {| small := true; icon := "images/icon.png";
            name := JStr ("Channel" ++ bullet ++ "No title");
            description := "";
            on_enter :=
              Some (OpenUrlAction "https://www.youtube.com/watch?v=abc") |} ].
Proof.
  apply (video_items_follow_browser (lib_of sample_json_text sample_page)
           (online body_without_suffix) []
           (ext_of 7 "none" "layout_minimal")
           (Some (of_bytes [227; 128; 128]%nat ++ "cats " ++
                  of_bytes [194; 160]%nat)) empty_world).
  - vm_compute. reflexivity.
  - discriminate.
Defined.
